(** * The request pipeline of the maps client, embedded in Rocq

    The development follows [src/client.py] and [src/exception.py]:

    - [exceptions]: the exception classes and their subclass relation;
    - [Response classifier]: [_get_body];
    - [Signer]: [sign_hmac], over executable models of the ASCII codec,
      URL-safe base64, SHA-1 and HMAC;
    - [URL builder]: [urlencode_params] and [_generate_auth_url];
    - [Request engine]: the constructor and [_request], a state-passing
      function over a [World] holding the wall clock, the sliding window
      [sent_times], the scripted remote and the random source.

    Conventions.  A Python [str] is a [string] whose characters are the
    code points below 256; [bytes] are [list byte].  Times and durations
    are exact rationals (seconds).  [None] is [JNull] for values coming
    from a JSON body and [Datatypes.None] for optional arguments.  The
    Python 3 branch of the source is the one embedded ([urlencode] from
    [urllib.parse], the [normalize_for_urlencode] of the [NameError]
    handler). *)

From Stdlib.Strings Require Import Byte.
From Stdlib Require Import String Ascii List ZArith QArith Qpower Qround Lqa Lia Bool.
From Stdlib Require Import Permutation Sorted DecimalString OrdersEx.
Import ListNotations.

Set Implicit Arguments.
Local Open Scope string_scope.
Local Open Scope list_scope.

(** ** JSON values *)

(** What [response.json()] yields: the Python value of a JSON document.
    [JNull] is Python's [None]; an object is a [dict], kept as the list of
    its items. *)
#[warnings="-register-all"]
Inductive Json : Type :=
| JNull
| JBool (b : bool)
| JNum (q : Q)
| JStr (s : string)
| JArr (items : list Json)
| JObj (items : list (string * Json)).

(** ** Exceptions ([src/exception.py] and the built-in ones the engine meets) *)

Module exceptions.

(** The exception classes. *)
Inductive ExcClass : Type :=
| C_Exception
| C_LookupError | C_KeyError | C_TypeError | C_AttributeError
| C_ValueError | C_UnicodeEncodeError | C_binascii_Error | C_JSONDecodeError
| C_InvalidURL
| C_ApiError | C_TransportError | C_HTTPError | C_Timeout
| C__RetriableRequest | C__OverQueryLimit.

(** The base classes of each class, as written in the [class] statements. *)
Definition bases (c : ExcClass) : list ExcClass :=
  match c with
  | C_Exception => []
  | C_LookupError => [C_Exception]
  | C_KeyError => [C_LookupError]
  | C_TypeError => [C_Exception]
  | C_AttributeError => [C_Exception]
  | C_ValueError => [C_Exception]
  | C_UnicodeEncodeError => [C_ValueError]
  | C_binascii_Error => [C_ValueError]
  | C_JSONDecodeError => [C_ValueError]
  | C_InvalidURL => [C_ValueError]
  | C_ApiError => [C_Exception]            (* class ApiError(Exception) *)
  | C_TransportError => [C_Exception]      (* class TransportError(Exception) *)
  | C_HTTPError => [C_TransportError]      (* class HTTPError(TransportError) *)
  | C_Timeout => [C_Exception]             (* class Timeout(Exception) *)
  | C__RetriableRequest => [C_Exception]   (* class _RetriableRequest(Exception) *)
  | C__OverQueryLimit => [C_ApiError; C__RetriableRequest]
                                           (* class _OverQueryLimit(ApiError, _RetriableRequest) *)
  end.

Definition ExcClass_eqb (c d : ExcClass) : bool :=
  match c, d with
  | C_Exception, C_Exception | C_LookupError, C_LookupError
  | C_KeyError, C_KeyError | C_TypeError, C_TypeError
  | C_AttributeError, C_AttributeError | C_ValueError, C_ValueError
  | C_UnicodeEncodeError, C_UnicodeEncodeError
  | C_binascii_Error, C_binascii_Error | C_JSONDecodeError, C_JSONDecodeError
  | C_InvalidURL, C_InvalidURL
  | C_ApiError, C_ApiError | C_TransportError, C_TransportError
  | C_HTTPError, C_HTTPError | C_Timeout, C_Timeout
  | C__RetriableRequest, C__RetriableRequest
  | C__OverQueryLimit, C__OverQueryLimit => true
  | _, _ => false
  end.

(** [issubclass c d]: [d] is reached from [c] along [bases].  The class
    graph above has depth 3. *)
Fixpoint issubclass_upto (depth : nat) (c d : ExcClass) : bool :=
  ExcClass_eqb c d ||
  match depth with
  | O => false
  | S depth' => existsb (fun b => issubclass_upto depth' b d) (bases c)
  end.

Definition issubclass : ExcClass -> ExcClass -> bool := issubclass_upto 3.

(** Exception instances, with the attributes their [__init__] stores. *)
Inductive Exn : Type :=
| ApiError (status : Json) (message : Json)
| TransportError (base_exception : option string)
| HTTPError (status_code : Z)
| Timeout
| _OverQueryLimit (status : Json) (message : Json)
| ValueError (msg : string)
| KeyError (key : string)
| TypeError
| AttributeError
| UnicodeEncodeError
| binascii_Error
| JSONDecodeError
| InvalidURL
| OtherException (descr : string).

Definition class_of (e : Exn) : ExcClass :=
  match e with
  | ApiError _ _ => C_ApiError
  | TransportError _ => C_TransportError
  | HTTPError _ => C_HTTPError
  | Timeout => C_Timeout
  | _OverQueryLimit _ _ => C__OverQueryLimit
  | ValueError _ => C_ValueError
  | KeyError _ => C_KeyError
  | TypeError => C_TypeError
  | AttributeError => C_AttributeError
  | UnicodeEncodeError => C_UnicodeEncodeError
  | binascii_Error => C_binascii_Error
  | JSONDecodeError => C_JSONDecodeError
  | InvalidURL => C_InvalidURL
  | OtherException _ => C_Exception
  end.

Definition isinstance (e : Exn) (c : ExcClass) : bool :=
  issubclass (class_of e) c.

End exceptions.
Import exceptions.

(** ** Results of fallible code *)

Inductive Result (A : Type) : Type :=
| Return (a : A)
| Raise (e : Exn).
Arguments Return {A} a.
Arguments Raise {A} e.

Definition rbind {A B} (r : Result A) (k : A -> Result B) : Result B :=
  match r with
  | Return a => k a
  | Raise e => Raise e
  end.

Declare Scope result_scope.
Delimit Scope result_scope with result.
Notation "x <- c ;; k" := (rbind c (fun x => k))
  (at level 61, c at next level, right associativity) : result_scope.

(** ** Response classifier ([Client._get_body], lines 161-176) *)

Record Response : Type := {
  status_code : Z;
  (** the outcome of [response.json()]: [None] when the payload is not JSON *)
  json : option Json
}.

Definition response_json (response : Response) : Result Json :=
  match json response with
  | Some body => Return body
  | None => Raise JSONDecodeError
  end.

Fixpoint lookup {V} (key : string) (items : list (string * V)) : option V :=
  match items with
  | [] => None
  | (k, v) :: rest => if String.eqb k key then Some v else lookup key rest
  end.

(** [body[key]] *)
Definition getitem (body : Json) (key : string) : Result Json :=
  match body with
  | JObj items =>
      match lookup key items with
      | Some v => Return v
      | None => Raise (KeyError key)
      end
  | _ => Raise TypeError
  end.

(** [body.get(key)] *)
Definition dict_get (body : Json) (key : string) : Result Json :=
  match body with
  | JObj items =>
      match lookup key items with
      | Some v => Return v
      | None => Return JNull
      end
  | _ => Raise AttributeError
  end.

(** [value == s] for a string literal [s] *)
Definition eq_str (value : Json) (s : string) : bool :=
  match value with
  | JStr s' => String.eqb s' s
  | _ => false
  end.

Definition _get_body (response : Response) : Result Json :=
  (if negb (status_code response =? 200)%Z then
     Raise (HTTPError (status_code response))
   else
     body <- response_json response ;;
     api_status <- getitem body "status" ;;
     if eq_str api_status "OK" || eq_str api_status "ZERO_RESULTS" then
       Return body
     else if eq_str api_status "OVER_QUERY_LIMIT" then
       message <- dict_get body "error_message" ;;
       Raise (_OverQueryLimit api_status message)
     else
       message <- dict_get body "error_message" ;;
       Raise (ApiError api_status message))%result.

(** ** Signer ([sign_hmac], lines 270-276) *)

(** *** Bytes and the codecs of [str] *)

Definition Z_of_byte (b : byte) : Z := Z.of_N (Byte.to_N b).

Definition byte_of_Z (z : Z) : byte :=
  match Byte.of_N (Z.to_N (Z.land z 255)) with
  | Some b => b
  | None => x00
  end.

Definition is_ascii (c : ascii) : bool := (N_of_ascii c <? 128)%N.

(** A [str] of ASCII characters only. *)
Definition all_ascii (s : string) : bool :=
  forallb is_ascii (list_ascii_of_string s).

(** [s.encode('ascii', 'strict')] *)
Fixpoint encode_ascii (s : string) : Result (list byte) :=
  match s with
  | EmptyString => Return []
  | String c rest =>
      if is_ascii c then
        (bs <- encode_ascii rest ;; Return (byte_of_ascii c :: bs))%result
      else Raise UnicodeEncodeError
  end.

(** [s.encode('utf8')] on code points below 256: one byte below 128, two
    bytes [110000xx 10xxxxxx] from 128 on. *)
Fixpoint encode_utf8 (s : string) : list byte :=
  match s with
  | EmptyString => []
  | String c rest =>
      let n := Z.of_N (N_of_ascii c) in
      if is_ascii c then byte_of_ascii c :: encode_utf8 rest
      else byte_of_Z (Z.lor 192 (Z.shiftr n 6))
           :: byte_of_Z (Z.lor 128 (Z.land n 63))
           :: encode_utf8 rest
  end.

(** [bs.decode('utf-8')], for the encodings of code points below 256. *)
Fixpoint decode_utf8 (bs : list byte) : Result string :=
  match bs with
  | [] => Return EmptyString
  | b :: rest =>
      let n := Z_of_byte b in
      if (n <? 128)%Z then
        (s <- decode_utf8 rest ;; Return (String (ascii_of_byte b) s))%result
      else
        match rest with
        | b' :: rest' =>
            let n' := Z_of_byte b' in
            if ((194 <=? n) && (n <=? 195) && (128 <=? n') && (n' <=? 191))%Z then
              (s <- decode_utf8 rest' ;;
               Return (String (ascii_of_byte
                                 (byte_of_Z (Z.lor (Z.shiftl (Z.land n 3) 6)
                                                   (Z.land n' 63)))) s))%result
            else Raise (OtherException "UnicodeDecodeError")
        | [] => Raise (OtherException "UnicodeDecodeError")
        end
  end.

(** *** URL-safe base64 ([base64.urlsafe_b64decode], [base64.urlsafe_b64encode]) *)

Module base64.

(** The value of a character of the alphabet.  [urlsafe_b64decode] first
    maps '-' to '+' and '_' to '/', so both spellings of 62 and 63 are
    accepted; any other byte has no value. *)
Definition sextet_of (b : byte) : option Z :=
  let n := Z_of_byte b in
  if ((65 <=? n) && (n <=? 90))%Z then Some (n - 65)%Z          (* A-Z *)
  else if ((97 <=? n) && (n <=? 122))%Z then Some (n - 71)%Z    (* a-z *)
  else if ((48 <=? n) && (n <=? 57))%Z then Some (n + 4)%Z      (* 0-9 *)
  else if ((n =? 43) || (n =? 45))%Z then Some 62%Z             (* + - *)
  else if ((n =? 47) || (n =? 95))%Z then Some 63%Z             (* / _ *)
  else None.

Record DecState : Type := {
  quad_pos : Z;
  leftchar : Z;
  pads : Z;
  bin_data : list byte          (* the output, newest byte first *)
}.

(** The loop of [binascii.a2b_base64] (not strict): bytes outside the
    alphabet are skipped, a complete pad sequence ends the input, and
    leftover characters at the end are an error. *)
Fixpoint a2b_loop (ascii_data : list byte) (st : DecState) : Result (list byte) :=
  match ascii_data with
  | [] =>
      if (quad_pos st =? 0)%Z then Return (rev (bin_data st))
      else Raise binascii_Error
  | this_ch :: rest =>
      if (Z_of_byte this_ch =? 61)%Z then                       (* '=' *)
        if (2 <=? quad_pos st)%Z then
          if (4 <=? quad_pos st + (pads st + 1))%Z then Return (rev (bin_data st))
          else a2b_loop rest {| quad_pos := quad_pos st; leftchar := leftchar st;
                                pads := pads st + 1; bin_data := bin_data st |}
        else a2b_loop rest st
      else
        match sextet_of this_ch with
        | None => a2b_loop rest st
        | Some v =>
            let q := quad_pos st in
            let l := leftchar st in
            if (q =? 0)%Z then
              a2b_loop rest {| quad_pos := 1; leftchar := v; pads := 0;
                               bin_data := bin_data st |}
            else if (q =? 1)%Z then
              a2b_loop rest {| quad_pos := 2; leftchar := Z.land v 15; pads := 0;
                               bin_data := byte_of_Z (Z.lor (Z.shiftl l 2) (Z.shiftr v 4))
                                           :: bin_data st |}
            else if (q =? 2)%Z then
              a2b_loop rest {| quad_pos := 3; leftchar := Z.land v 3; pads := 0;
                               bin_data := byte_of_Z (Z.lor (Z.shiftl l 4) (Z.shiftr v 2))
                                           :: bin_data st |}
            else
              a2b_loop rest {| quad_pos := 0; leftchar := 0; pads := 0;
                               bin_data := byte_of_Z (Z.lor (Z.shiftl l 6) v)
                                           :: bin_data st |}
        end
  end.

Definition urlsafe_b64decode (s : list byte) : Result (list byte) :=
  a2b_loop s {| quad_pos := 0; leftchar := 0; pads := 0; bin_data := [] |}.

(** The URL-safe alphabet: [A-Z a-z 0-9 - _]. *)
Definition char_of_sextet (v : Z) : byte :=
  if (v <? 26)%Z then byte_of_Z (v + 65)
  else if (v <? 52)%Z then byte_of_Z (v + 71)
  else if (v <? 62)%Z then byte_of_Z (v - 4)
  else if (v =? 62)%Z then byte_of_Z 45
  else byte_of_Z 95.

Definition pad_char : byte := byte_of_Z 61.

Fixpoint urlsafe_b64encode (s : list byte) : list byte :=
  match s with
  | [] => []
  | [b0] =>
      let n0 := Z_of_byte b0 in
      [char_of_sextet (Z.shiftr n0 2);
       char_of_sextet (Z.shiftl (Z.land n0 3) 4);
       pad_char; pad_char]
  | [b0; b1] =>
      let n0 := Z_of_byte b0 in
      let n1 := Z_of_byte b1 in
      [char_of_sextet (Z.shiftr n0 2);
       char_of_sextet (Z.lor (Z.shiftl (Z.land n0 3) 4) (Z.shiftr n1 4));
       char_of_sextet (Z.shiftl (Z.land n1 15) 2);
       pad_char]
  | b0 :: b1 :: b2 :: rest =>
      let n0 := Z_of_byte b0 in
      let n1 := Z_of_byte b1 in
      let n2 := Z_of_byte b2 in
      char_of_sextet (Z.shiftr n0 2)
      :: char_of_sextet (Z.lor (Z.shiftl (Z.land n0 3) 4) (Z.shiftr n1 4))
      :: char_of_sextet (Z.lor (Z.shiftl (Z.land n1 15) 2) (Z.shiftr n2 6))
      :: char_of_sextet (Z.land n2 63)
      :: urlsafe_b64encode rest
  end.

End base64.

(** *** SHA-1 ([hashlib.sha1]) on 32-bit words *)

Module sha1.

Definition mask32 (x : Z) : Z := Z.land x 4294967295.

Definition add32 (x y : Z) : Z := mask32 (x + y).

Definition rotl (n x : Z) : Z :=
  mask32 (Z.lor (Z.shiftl x n) (Z.shiftr x (32 - n))).

Definition not32 (x : Z) : Z := Z.lxor x 4294967295.

(** Big-endian packing. *)
Fixpoint words_of_bytes (bs : list Z) : list Z :=
  match bs with
  | b0 :: b1 :: b2 :: b3 :: rest =>
      Z.lor (Z.shiftl b0 24) (Z.lor (Z.shiftl b1 16) (Z.lor (Z.shiftl b2 8) b3))
      :: words_of_bytes rest
  | _ => []
  end.

Definition bytes_of_word (w : Z) : list Z :=
  [Z.land (Z.shiftr w 24) 255; Z.land (Z.shiftr w 16) 255;
   Z.land (Z.shiftr w 8) 255; Z.land w 255].

(** The message followed by the bit 1, zeros up to 56 modulo 64 bytes, and
    the bit length on 8 bytes. *)
Definition pad (msg : list Z) : list Z :=
  let len := Z.of_nat (length msg) in
  let zeros := Z.to_nat ((55 - len) mod 64) in
  let bits := (8 * len)%Z in
  msg ++ [128%Z] ++ repeat 0%Z zeros
      ++ bytes_of_word (Z.shiftr bits 32) ++ bytes_of_word (mask32 bits).

(** The message schedule, newest word first: 16 words extended to 80. *)
Fixpoint schedule (n : nat) (w_rev : list Z) : list Z :=
  match n with
  | O => w_rev
  | S n' =>
      let x := Z.lxor (Z.lxor (nth 2 w_rev 0%Z) (nth 7 w_rev 0%Z))
                      (Z.lxor (nth 13 w_rev 0%Z) (nth 15 w_rev 0%Z)) in
      schedule n' (rotl 1 x :: w_rev)
  end.

Definition State : Type := (Z * Z * Z * Z * Z)%type.

Definition round (t : nat) (st : State) (w : Z) : State :=
  let '(a, b, c, d, e) := st in
  let '(f, k) :=
    if (t <? 20)%nat then
      (Z.lor (Z.land b c) (Z.land (not32 b) d), 1518500249%Z)
    else if (t <? 40)%nat then
      (Z.lxor (Z.lxor b c) d, 1859775393%Z)
    else if (t <? 60)%nat then
      (Z.lor (Z.lor (Z.land b c) (Z.land b d)) (Z.land c d), 2400959708%Z)
    else
      (Z.lxor (Z.lxor b c) d, 3395469782%Z) in
  let temp := add32 (add32 (add32 (add32 (rotl 5 a) f) e) k) w in
  (temp, a, rotl 30 b, c, d).

Fixpoint rounds (t : nat) (ws : list Z) (st : State) : State :=
  match ws with
  | [] => st
  | w :: rest => rounds (S t) rest (round t st w)
  end.

Definition compress (h : State) (block : list Z) : State :=
  let ws := rev (schedule 64 (rev block)) in
  let '(h0, h1, h2, h3, h4) := h in
  let '(a, b, c, d, e) := rounds 0 ws h in
  (add32 h0 a, add32 h1 b, add32 h2 c, add32 h3 d, add32 h4 e).

Fixpoint blocks (n : nat) (ws : list Z) (h : State) : State :=
  match n with
  | O => h
  | S n' => blocks n' (skipn 16 ws) (compress h (firstn 16 ws))
  end.

Definition initial : State :=
  (1732584193, 4023233417, 2562383102, 271733878, 3285377520)%Z.

Definition digest (msg : list byte) : list byte :=
  let ws := words_of_bytes (pad (map Z_of_byte msg)) in
  let '(h0, h1, h2, h3, h4) := blocks (length ws / 16) ws initial in
  map byte_of_Z (bytes_of_word h0 ++ bytes_of_word h1 ++ bytes_of_word h2
                 ++ bytes_of_word h3 ++ bytes_of_word h4).

End sha1.

(** *** HMAC ([hmac.new(key, msg, hashlib.sha1).digest()]) *)

Module hmac.

Definition block_size : nat := 64.

Definition xor_with (pad : Z) (key : list byte) : list byte :=
  map (fun b => byte_of_Z (Z.lxor (Z_of_byte b) pad)) key.

Definition hmac_sha1 (key msg : list byte) : list byte :=
  let key := if (block_size <? length key)%nat then sha1.digest key else key in
  let key := key ++ repeat x00 (block_size - length key) in
  let inner := sha1.digest (xor_with 54 key ++ msg) in
  sha1.digest (xor_with 92 key ++ inner).

End hmac.

(** *** [sign_hmac] *)

Definition sign_hmac (secret payload : string) : Result string :=
  (payload <- encode_ascii payload ;;
   secret <- encode_ascii secret ;;
   key <- base64.urlsafe_b64decode secret ;;
   let sig := hmac.hmac_sha1 key payload in
   let out := base64.urlsafe_b64encode sig in
   decode_utf8 out)%result.

(** ** URL builder *)

(** *** Parameters *)

(** The scalars an endpoint wrapper puts in a parameter mapping. *)
Inductive Value : Type :=
| VStr (s : string)
| VInt (z : Z).

(** [str(value)] *)
Definition py_str (value : Value) : string :=
  match value with
  | VStr s => s
  | VInt z => NilZero.string_of_int (Z.to_int z)
  end.

(** A [dict] with string keys: its items in insertion order, keys unique. *)
Definition Dict (V : Type) : Type := list (string * V).

Definition keys {V} (d : Dict V) : list string := map fst d.

(** [d[k] = v]: the value is replaced where the key is, else the item is
    added at the end. *)
Fixpoint dict_set {V} (d : Dict V) (k : string) (v : V) : Dict V :=
  match d with
  | [] => [(k, v)]
  | (k', v') :: rest =>
      if String.eqb k' k then (k', v) :: rest
      else (k', v') :: dict_set rest k v
  end.

(** [dict(d, **kwargs)] *)
Definition dict_update {V} (d kwargs : Dict V) : Dict V :=
  fold_left (fun acc kv => dict_set acc (fst kv) (snd kv)) kwargs d.

(** [sorted(d.items())]: the keys of a [dict] are distinct, so the
    comparison of two items is decided by their keys; the sort is stable. *)
Fixpoint insert_item {V} (x : string * V) (l : list (string * V)) : list (string * V) :=
  match l with
  | [] => [x]
  | y :: rest =>
      if String.leb (fst x) (fst y) then x :: y :: rest
      else y :: insert_item x rest
  end.

Definition sorted {V} (items : list (string * V)) : list (string * V) :=
  fold_right insert_item [] items.

(** The two shapes of [params]: a [dict], or a list of key/value tuples. *)
Inductive Params : Type :=
| PDict (d : Dict Value)
| PList (l : list (string * Value)).

(** *** Percent-encoding ([urllib.parse.urlencode], [requests.utils.unquote_unreserved]) *)

Module urllib.

Definition in_range (lo hi n : Z) : bool := ((lo <=? n) && (n <=? hi))%Z.

Definition is_ascii_alnum (n : Z) : bool :=
  in_range 48 57 n || in_range 65 90 n || in_range 97 122 n.

(** [_ALWAYS_SAFE]: letters, digits and [_ . - ~]. *)
Definition always_safe (n : Z) : bool :=
  is_ascii_alnum n || (n =? 95)%Z || (n =? 46)%Z || (n =? 45)%Z || (n =? 126)%Z.

Definition hex_digit (n : Z) : ascii :=
  ascii_of_byte (byte_of_Z (if (n <? 10)%Z then n + 48 else n + 55)).

(** One byte under [quote_plus]. *)
Definition quote_byte (b : byte) : string :=
  let n := Z_of_byte b in
  if (n =? 32)%Z then "+"
  else if always_safe n then String (ascii_of_byte b) EmptyString
  else String "%" (String (hex_digit (Z.shiftr n 4))
                     (String (hex_digit (Z.land n 15)) EmptyString)).

(** [quote_plus(s)]: the UTF-8 bytes of [s], each one quoted.  A [str]
    holds code points below 256 here, and their encoding cannot fail; on
    a [str] with a lone surrogate, which is outside, the library raises
    [UnicodeEncodeError]. *)
Definition quote_plus (s : string) : string :=
  String.concat "" (map quote_byte (encode_utf8 s)).

(** [urlencode(query)] for a list of key/value tuples. *)
Definition urlencode (query : list (string * Value)) : string :=
  String.concat "&"
    (map (fun kv => (quote_plus (fst kv) ++ "=" ++ quote_plus (py_str (snd kv)))%string)
         query).

End urllib.

Module requests_utils.

(** [UNRESERVED_SET] *)
Definition unreserved (n : Z) : bool := urllib.always_safe n.

(** [str.isalnum] on one code point below 256. *)
Definition isalnum (c : ascii) : bool :=
  let n := Z.of_N (N_of_ascii c) in
  urllib.is_ascii_alnum n
  || (n =? 170)%Z || (n =? 178)%Z || (n =? 179)%Z || (n =? 181)%Z
  || (n =? 185)%Z || (n =? 186)%Z || urllib.in_range 188 190 n
  || urllib.in_range 192 214 n || urllib.in_range 216 246 n
  || urllib.in_range 248 255 n.

Definition hex_value (c : ascii) : option Z :=
  let n := Z.of_N (N_of_ascii c) in
  if urllib.in_range 48 57 n then Some (n - 48)%Z
  else if urllib.in_range 65 70 n then Some (n - 55)%Z
  else if urllib.in_range 97 102 n then Some (n - 87)%Z
  else None.

(** [int(h, 16)] for a two-character [h] *)
Definition int16 (h1 h2 : ascii) : option Z :=
  match hex_value h1, hex_value h2 with
  | Some a, Some b => Some (16 * a + b)%Z
  | _, _ => None
  end.

(** [unquote_unreserved(uri)]: every escape of an unreserved character is
    replaced by the character; an escape that is alphanumeric but not
    hexadecimal is an [InvalidURL]. *)
Fixpoint unquote_unreserved (uri : string) : Result string :=
  match uri with
  | EmptyString => Return EmptyString
  | String c rest =>
      if Ascii.eqb c "%" then
        match rest with
        | String h1 (String h2 rest') =>
            if isalnum h1 && isalnum h2 then
              match int16 h1 h2 with
              | None => Raise InvalidURL
              | Some n =>
                  if unreserved n then
                    (r <- unquote_unreserved rest' ;;
                     Return (String (ascii_of_byte (byte_of_Z n)) r))%result
                  else
                    (r <- unquote_unreserved rest ;; Return (String c r))%result
              end
            else (r <- unquote_unreserved rest ;; Return (String c r))%result
        | _ => (r <- unquote_unreserved rest ;; Return (String c r))%result
        end
      else (r <- unquote_unreserved rest ;; Return (String c r))%result
  end.

End requests_utils.

(** [normalize_for_urlencode] (lines 302-305, the Python 3 definition) *)
Definition normalize_for_urlencode (value : Value) : Value := value.

(** [urlencode_params] (lines 279-284) *)
Definition urlencode_params (params : list (string * Value)) : Result string :=
  let params := map (fun kv => (fst kv, normalize_for_urlencode (snd kv))) params in
  requests_utils.unquote_unreserved (urllib.urlencode params).

(** *** The client *)

Record Client : Type := {
  key : option string;
  client_id : option string;
  client_secret : option string;
  channel : option string;
  retry_timeout : Q;                      (* seconds *)
  queries_per_second : nat;
  retry_over_query_limit : bool;
  _extra_params : option (Dict Value)     (* set by [make_api_method] *)
}.

(** Truth value of an optional [str]: [None] and [""] are false. *)
Definition truthy (o : option string) : bool :=
  match o with
  | Some s => negb (String.eqb s "")
  | None => false
  end.

Definition str_of (o : option string) : string :=
  match o with
  | Some s => s
  | None => ""
  end.

(** *** [Client._generate_auth_url] (lines 178-209) *)

(** Line 189: [getattr(self, "_extra_params", None) or {}] *)
Definition extra_params_of (self : Client) : Dict Value :=
  match _extra_params self with
  | Some ((_ :: _) as d) => d
  | _ => []
  end.

(** Lines 190-193: the defaults attached to the client, overridden by the
    parameters of the call, sorted by key; a list of tuples is kept in its
    own order after the sorted defaults. *)
Definition merged_params (self : Client) (params : Params) : list (string * Value) :=
  let extra_params := extra_params_of self in
  match params with
  | PDict d => sorted (dict_update extra_params d)
  | PList l => sorted extra_params ++ l
  end.

Definition _generate_auth_url (self : Client) (path : string) (params : Params)
    (accepts_clientid : bool) : Result string :=
  let params := merged_params self params in
  if accepts_clientid && truthy (client_id self) && truthy (client_secret self) then
    let params :=
      if truthy (channel self)
      then params ++ [("channel", VStr (str_of (channel self)))]
      else params in
    let params := params ++ [("client", VStr (str_of (client_id self)))] in
    (query <- urlencode_params params ;;
     let path := (path ++ "?" ++ query)%string in
     sig <- sign_hmac (str_of (client_secret self)) path ;;
     Return (path ++ "&signature=" ++ sig)%string)%result
  else if truthy (key self) then
    let params := params ++ [("key", VStr (str_of (key self)))] in
    (query <- urlencode_params params ;;
     Return (path ++ "?" ++ query)%string)%result
  else
    Raise (ValueError "Must provide API key for this API. It does not accept enterprise credentials.").

(** ** Request engine *)

Local Open Scope Q_scope.

Definition Qltb (x y : Q) : bool := negb (Qle_bool y x).

(** *** The world outside the client *)

(** What is handed to the HTTP library: the full URL and, for a POST, the
    JSON payload.  The remaining options (headers, timeouts, certificate
    checks) are passed through unchanged and stay outside the model. *)
Record Request : Type := {
  request_url : string;
  request_json : option Json
}.

(** What the HTTP library does with a request, and how long it blocks. *)
Inductive Outcome : Type :=
| Responded (took : Q) (response : Response)
| TimedOut (took : Q)                    (* requests.exceptions.Timeout *)
| Failed (took : Q) (descr : string).    (* any other Exception *)

Definition took (o : Outcome) : Q :=
  match o with
  | Responded t _ => t
  | TimedOut t => t
  | Failed t _ => t
  end.

(** What the engine does to the world, newest first. *)
Inductive Event : Type :=
| EvBackoff (delay_seconds factor : Q)   (* the sleep of line 105 *)
| EvSend (at_time : Q) (request : Request) (outcome : Outcome)
                                         (* the call of lines 121-122 *)
| EvThrottle (seconds : Q)               (* the sleep of line 140 *)
| EvRecord (at_time : Q).                (* the append of line 147 *)

(** The clock advances in [time.sleep] and while a request is in flight,
    and nowhere else. *)
Record World : Type := {
  clock : Q;                             (* datetime.now(), time.time() *)
  sent_times : list Q;                   (* self.sent_times, oldest first *)
  remote : nat -> Request -> Outcome;    (* the answer to the n-th send *)
  sends : nat;
  random_random : nat -> Q;              (* the n-th random.random() *)
  draws : nat;
  trace : list Event
}.

(** [time.sleep(seconds)], logged as [ev] *)
Definition sleep (seconds : Q) (ev : Event) (w : World) : World :=
  {| clock := clock w + seconds; sent_times := sent_times w;
     remote := remote w; sends := sends w;
     random_random := random_random w; draws := draws w;
     trace := ev :: trace w |}.

(** [random.random()] *)
Definition draw (w : World) : Q * World :=
  (random_random w (draws w),
   {| clock := clock w; sent_times := sent_times w;
      remote := remote w; sends := sends w;
      random_random := random_random w; draws := S (draws w);
      trace := trace w |}).

(** [requests_method(base_url + authed_url, **final_requests_kwargs)] *)
Definition send (request : Request) (w : World) : Outcome * World :=
  let outcome := remote w (sends w) request in
  (outcome,
   {| clock := clock w + took outcome; sent_times := sent_times w;
      remote := remote w; sends := S (sends w);
      random_random := random_random w; draws := draws w;
      trace := EvSend (clock w) request outcome :: trace w |}).

(** *** The sliding window: [collections.deque("", queries_per_second)] *)

(** [deque.append] with [maxlen]: the new entry goes to the right and the
    entries beyond [maxlen] leave on the left. *)
Definition deque_append (maxlen : nat) (d : list Q) (x : Q) : list Q :=
  let d' := (d ++ [x])%list in
  skipn (length d' - maxlen) d'.

(** [self.sent_times.append(time.time())] *)
Definition record_sent (self : Client) (w : World) : World :=
  {| clock := clock w;
     sent_times := deque_append (queries_per_second self) (sent_times w) (clock w);
     remote := remote w; sends := sends w;
     random_random := random_random w; draws := draws w;
     trace := EvRecord (clock w) :: trace w |}.

(** *** [Client.__init__] (lines 29-83) *)

Fixpoint startswith (s prefix : string) : bool :=
  match prefix, s with
  | EmptyString, _ => true
  | String p prefix', String c s' => Ascii.eqb c p && startswith s' prefix'
  | String _ _, EmptyString => false
  end.

(** [re.match("^[a-zA-Z0-9._-]*$", channel)]: [$] also matches before a
    final newline. *)
Fixpoint channel_match (s : string) : bool :=
  match s with
  | EmptyString => true
  | String c rest =>
      let n := Z.of_N (N_of_ascii c) in
      if urllib.is_ascii_alnum n || (n =? 46)%Z || (n =? 95)%Z || (n =? 45)%Z
      then channel_match rest
      else (n =? 10)%Z && String.eqb rest ""
  end.

Definition nonzero (o : option Q) : bool :=
  match o with
  | Some q => negb (Qeq_bool q 0)
  | None => false
  end.

(** [round(x)]: the nearest integer, the even one of the two on a tie. *)
Definition round_half_even (x : Q) : Z :=
  let n := Qfloor x in
  let r := x - inject_Z n in
  if Qltb r (1 # 2) then n
  else if Qltb (1 # 2) r then (n + 1)%Z
  else if Z.even n then n else (n + 1)%Z.

(** [timedelta(seconds=seconds)] (line 71), as its length in seconds: the
    argument is rounded to whole microseconds, and the constructor raises
    [OverflowError] when the number of days is beyond 999999999 in
    magnitude.  The rounding is the one of the exact number, which is what
    the library computes for an [int], and for a [float] whose fractional
    part times [10 ** 6] is exact; for another [float] the library rounds
    that product first, so that next to a tie it may store the other
    neighbour. *)
Definition timedelta (seconds : Q) : Result Q :=
  let microseconds := round_half_even (seconds * 1000000) in
  let days := (microseconds / 86400000000)%Z in
  if ((-999999999 <=? days) && (days <=? 999999999))%Z
  then Return (Qred (inject_Z microseconds / 1000000))
  else Raise (OtherException "OverflowError").

(** The constructor returns the client and its empty window.  The stored
    timeouts and the other options of the HTTP library are not kept, and
    the installed HTTP library is taken to support separate connect and
    read timeouts. *)
Definition Client_init (key client_id client_secret : option string)
    (timeout connect_timeout read_timeout : option Q) (retry_timeout : Q)
    (queries_per_second : nat) (channel : option string)
    (retry_over_query_limit : bool) : Result (Client * list Q) :=
  if negb (truthy key) && negb (truthy client_secret && truthy client_id) then
    Raise (ValueError "Must provide API key or enterprise credentials when creating client.")
  else if truthy key && negb (startswith (str_of key) "AIza") then
    Raise (ValueError "Invalid API key provided.")
  else if truthy channel && negb (truthy client_id) then
    Raise (ValueError "The channel argument must be used with a client ID")
  else if truthy channel && negb (channel_match (str_of channel)) then
    Raise (ValueError "The channel argument must be an ASCII alphanumeric string. The period (.), underscore (_)and hyphen (-) characters are allowed.")
  else if nonzero timeout && (nonzero connect_timeout || nonzero read_timeout) then
    Raise (ValueError "Specify either timeout, or connect_timeout and read_timeout")
  else
    (retry_timeout <- timedelta retry_timeout ;;
     Return ({| key := key; client_id := client_id; client_secret := client_secret;
                channel := channel; retry_timeout := retry_timeout;
                queries_per_second := queries_per_second;
                retry_over_query_limit := retry_over_query_limit;
                _extra_params := None |},
             []))%result.

(** *** [Client._request] (lines 85-156) *)

(** [_RETRIABLE_STATUSES] *)
Definition _RETRIABLE_STATUSES : list Z := [500; 503; 504]%Z.

Definition is_retriable (status : Z) : bool :=
  existsb (Z.eqb status) _RETRIABLE_STATUSES.

(** Lines 98-105: nothing on the first attempt; from the first retry on,
    [0.5 * 1.5 ** (retry_counter - 1)] seconds times a factor drawn in
    [0.5, 1.5).  The arithmetic is exact here.  The delay is the
    floating-point value of line 102 for the counters up to 34, whose
    power of 1.5 has a numerator below [2 ^ 53]; beyond, line 102 rounds
    the power, and from the counter 1752 on it raises [OverflowError]. *)
Definition backoff_delay (retry_counter : nat) : Q :=
  (1 # 2) * (3 # 2) ^ Z.of_nat (retry_counter - 1).

Definition backoff (retry_counter : nat) (w : World) : World :=
  if (0 <? retry_counter)%nat then
    let delay_seconds := backoff_delay retry_counter in
    let '(r, w) := draw w in
    sleep (delay_seconds * (r + (1 # 2))) (EvBackoff delay_seconds (r + (1 # 2))) w
  else w.

(** Lines 137-140: with a full, non-empty window whose oldest entry is
    less than a second old, sleep for the rest of that second. *)
Definition rate_limit_wait (self : Client) (w : World) : World :=
  match sent_times w with
  | [] => w
  | earliest :: _ =>
      if (length (sent_times w) =? queries_per_second self)%nat then
        let elapsed_since_earliest := clock w - earliest in
        if Qltb elapsed_since_earliest 1 then
          sleep (1 - elapsed_since_earliest)
                (EvThrottle (1 - elapsed_since_earliest)) w
        else w
      else w
  end.

(** Lines 91-92: the time of the first attempt, taken once. *)
Definition started (first_request_time : option Q) (w : World) : Q :=
  match first_request_time with
  | Some t => t
  | None => clock w
  end.

(** The recursion of [_request] is a tail call; [fuel] bounds the number
    of attempts, and [None] means that the bound was reached. *)
Fixpoint _request (fuel : nat) (self : Client) (url : string) (params : Params)
    (first_request_time : option Q) (retry_counter : nat) (base_url : string)
    (accepts_clientid : bool) (extract_body : option (Response -> Result Json))
    (post_json : option Json) (w : World) : option (Result Json * World) :=
  match fuel with
  | O => None
  | S fuel' =>
      (* lines 91-92 *)
      let first_request_time := started first_request_time w in
      (* lines 94-96 *)
      let elapsed := clock w - first_request_time in
      if Qltb (retry_timeout self) elapsed then Some (Raise Timeout, w)
      else
        (* lines 98-105 *)
        let w := backoff retry_counter w in
        (* line 107 *)
        match _generate_auth_url self url params accepts_clientid with
        | Raise e => Some (Raise e, w)
        | Return authed_url =>
            (* lines 115-126 *)
            let request := {| request_url := (base_url ++ authed_url)%string;
                              request_json := post_json |} in
            match send request w with
            | (TimedOut _, w) => Some (Raise Timeout, w)
            | (Failed _ descr, w) => Some (Raise (TransportError (Some descr)), w)
            | (Responded _ response, w) =>
                (* lines 128-132 *)
                if is_retriable (status_code response) then
                  _request fuel' self url params (Some first_request_time)
                           (S retry_counter) base_url accepts_clientid
                           extract_body post_json w
                else
                  (* lines 137-140 *)
                  let w := rate_limit_wait self w in
                  (* lines 142-156 *)
                  let extracted :=
                    match extract_body with
                    | Some extract => extract response
                    | None => _get_body response
                    end in
                  match extracted with
                  | Return result => Some (Return result, record_sent self w)
                  | Raise e =>
                      if isinstance e C__RetriableRequest then
                        if isinstance e C__OverQueryLimit
                           && negb (retry_over_query_limit self)
                        then Some (Raise e, w)
                        else
                          _request fuel' self url params (Some first_request_time)
                                   (S retry_counter) base_url accepts_clientid
                                   extract_body post_json w
                      else Some (Raise e, w)
                  end
            end
        end
  end.

(** *** [make_api_method] (lines 234-245) *)

(** [args[0]._extra_params = kwargs.pop("extra_params", None)] *)
Definition with_extra_params (extra : option (Dict Value)) (c : Client) : Client :=
  {| key := key c; client_id := client_id c; client_secret := client_secret c;
     channel := channel c; retry_timeout := retry_timeout c;
     queries_per_second := queries_per_second c;
     retry_over_query_limit := retry_over_query_limit c;
     _extra_params := extra |}.

(** The wrapper of an endpoint function (lines 237-244): the extra
    parameters are attached to the client, which is mutable, for the call;
    they are deleted when the endpoint function returns, and stay on the
    client when it raises.  The wrapper gives the result and the client as
    the call leaves it. *)
Definition make_api_method {A}
    (func : Client -> World -> option (Result A * World))
    (self : Client) (extra_params : option (Dict Value)) (w : World)
  : option (Result A * Client * World) :=
  let self := with_extra_params extra_params self in
  match func self w with
  | Some (Return result, w) => Some (Return result, with_extra_params None self, w)
  | Some (Raise e, w) => Some (Raise e, self, w)
  | None => None
  end.

(** [_DEFAULT_BASE_URL] *)
Definition _DEFAULT_BASE_URL : string := "https://maps.googleapis.com".

(** A call as the endpoint wrappers make it: the defaults of the signature. *)
Definition request (fuel : nat) (self : Client) (url : string) (params : Params)
    (w : World) : option (Result Json * World) :=
  _request fuel self url params None 0 _DEFAULT_BASE_URL true None None w.

(** ** Observations on a run *)

(** The time taken by the most recent attempt in a log: its request and,
    when the attempt was a retry, the backoff sleep before it. *)
Definition last_attempt_cost (tr : list Event) : Q :=
  match tr with
  | EvSend _ _ o :: EvBackoff delay_seconds factor :: _ => delay_seconds * factor + took o
  | EvSend _ _ o :: _ => took o
  | _ => 0
  end.

(** The duration of the most recent request in a log. *)
Definition last_in_flight (tr : list Event) : Q :=
  match tr with
  | EvSend _ _ o :: _ => took o
  | _ => 0
  end.

(** The backoff sleeps of a log, oldest first: base delay and factor. *)
Definition backoffs (tr : list Event) : list (Q * Q) :=
  fold_left (fun acc ev =>
               match ev with
               | EvBackoff d f => (d, f) :: acc
               | _ => acc
               end) tr [].

(** The throttle sleeps of a log, oldest first. *)
Definition throttles (tr : list Event) : list Q :=
  fold_left (fun acc ev =>
               match ev with
               | EvThrottle s => s :: acc
               | _ => acc
               end) tr [].

(** The dispatch times of the requests of a log, oldest first. *)
Definition dispatch_times (tr : list Event) : list Q :=
  fold_left (fun acc ev =>
               match ev with
               | EvSend t _ _ => t :: acc
               | _ => acc
               end) tr [].

(** The failures of [_get_body] on a payload it cannot read: not JSON, not
    an object, or an object without the field. *)
Definition is_parse_error (e : Exn) : bool :=
  match e with
  | JSONDecodeError | KeyError _ | TypeError => true
  | _ => false
  end.

(** [body.get("error_message")] on the items of an object. *)
Definition error_message_of (items : list (string * Json)) : Json :=
  match lookup "error_message" items with
  | Some m => m
  | None => JNull
  end.

(** A byte of the ASCII range. *)
Definition ascii_byte (b : byte) : Prop := (Z_of_byte b < 128)%Z.

(** One [key=value] of a query string. *)
Definition encode_item (kv : string * Value) : string :=
  (urllib.quote_plus (fst kv) ++ "=" ++ urllib.quote_plus (py_str (snd kv)))%string.

(** A [dict] has distinct keys. *)
Definition is_dict {V} (d : Dict V) : Prop := NoDup (keys d).

(** The parameters that authentication adds after the merged ones. *)
Definition auth_params (self : Client) (accepts_clientid : bool)
  : list (string * Value) :=
  if accepts_clientid && truthy (client_id self) && truthy (client_secret self) then
    (if truthy (channel self) then [("channel", VStr (str_of (channel self)))] else [])
      ++ [("client", VStr (str_of (client_id self)))]
  else if truthy (key self) then [("key", VStr (str_of (key self)))]
  else [].

(** The pieces of a string between the occurrences of [sep]. *)
Fixpoint split_on (sep : ascii) (s : string) : list string :=
  match s with
  | EmptyString => [EmptyString]
  | String c rest =>
      if Ascii.eqb c sep then EmptyString :: split_on sep rest
      else match split_on sep rest with
           | [] => [String c EmptyString]
           | piece :: pieces => String c piece :: pieces
           end
  end.

(** The parameter names of a URL, in the order of its query string. *)
Definition query_keys (url : string) : list string :=
  match split_on "?" url with
  | _ :: query :: _ => map (fun p => hd EmptyString (split_on "=" p)) (split_on "&" query)
  | _ => []
  end.

Definition key_le {V} (x y : string * V) : Prop := String.leb (fst x) (fst y) = true.
Definition key_lt {V} (x y : string * V) : Prop := String.ltb (fst x) (fst y) = true.

(** The request of an attempt. *)
Definition request_of (base_url authed_url : string) (post_json : option Json)
  : Request :=
  {| request_url := (base_url ++ authed_url)%string; request_json := post_json |}.

(** A log, newest first, in which some request was dispatched right after
    a throttle sleep. *)
Fixpoint throttled_before_send (tr : list Event) : bool :=
  match tr with
  | [] => false
  | ev :: earlier =>
      match ev, earlier with
      | EvSend _ _ _, EvThrottle _ :: _ => true
      | _, _ => throttled_before_send earlier
      end
  end.

(** The window is non-empty, full, and its oldest entry is less than a
    second old. *)
Definition window_hot (self : Client) (w : World) : bool :=
  match sent_times w with
  | [] => false
  | earliest :: _ =>
      (length (sent_times w) =? queries_per_second self)%nat
      && Qltb (clock w - earliest) 1
  end.

(** Requests take no negative time and [random.random()] is in [0, 1). *)
Definition well_behaved (w : World) : Prop :=
  (forall n r, 0 <= took (remote w n r)) /\
  (forall n, 0 <= random_random w n /\ random_random w n < 1).

(** Every request is answered, with a status of the retriable set. *)
Definition always_retriable (w : World) : Prop :=
  forall n r, exists d response,
    remote w n r = Responded d response /\
    is_retriable (status_code response) = true.

(** ** Fixtures *)

Definition api_client : Client :=
  {| key := Some "AIzaasdf"; client_id := None; client_secret := None;
     channel := None; retry_timeout := 60; queries_per_second := 50;
     retry_over_query_limit := true; _extra_params := None |}.

Definition enterprise_client : Client :=
  {| key := None; client_id := Some "foo"; client_secret := Some "a2V5";
     channel := Some "abc"; retry_timeout := 60; queries_per_second := 50;
     retry_over_query_limit := true; _extra_params := None |}.

Definition with_deadline (seconds : Q) (c : Client) : Client :=
  {| key := key c; client_id := client_id c; client_secret := client_secret c;
     channel := channel c; retry_timeout := seconds;
     queries_per_second := queries_per_second c;
     retry_over_query_limit := retry_over_query_limit c;
     _extra_params := _extra_params c |}.

Definition with_rate (qps : nat) (c : Client) : Client :=
  {| key := key c; client_id := client_id c; client_secret := client_secret c;
     channel := channel c; retry_timeout := retry_timeout c;
     queries_per_second := qps;
     retry_over_query_limit := retry_over_query_limit c;
     _extra_params := _extra_params c |}.

Definition without_quota_retry (c : Client) : Client :=
  {| key := key c; client_id := client_id c; client_secret := client_secret c;
     channel := channel c; retry_timeout := retry_timeout c;
     queries_per_second := queries_per_second c;
     retry_over_query_limit := false;
     _extra_params := _extra_params c |}.

Definition http (status : Z) (body : option Json) : Response :=
  {| status_code := status; json := body |}.

Definition ok_body : Json :=
  JObj [("status", JStr "OK"); ("results", JArr [])].

Definition over_limit_body : Json :=
  JObj [("status", JStr "OVER_QUERY_LIMIT"); ("error_message", JStr "quota")].

(** A remote that answers the n-th request with the n-th scripted outcome,
    and with [default] once the script is over. *)
Definition scripted (script : list Outcome) (default : Outcome)
  : nat -> Request -> Outcome :=
  fun n _ => nth n script default.

(** A world at time [t] with the given window, remote and random value. *)
Definition world (t : Q) (window : list Q) (answers : nat -> Request -> Outcome)
    (r : Q) : World :=
  {| clock := t; sent_times := window; remote := answers; sends := 0;
     random_random := fun _ => r; draws := 0; trace := [] |}.

Definition always_503 : nat -> Request -> Outcome :=
  scripted [] (Responded 0 (http 503 None)).

Definition always_ok : nat -> Request -> Outcome :=
  scripted [] (Responded 0 (http 200 (Some ok_body))).

Definition always_over_limit : nat -> Request -> Outcome :=
  scripted [] (Responded 0 (http 200 (Some over_limit_body))).

Definition three_500_then_ok : nat -> Request -> Outcome :=
  scripted [Responded (1 # 10) (http 500 None); Responded (1 # 10) (http 500 None);
            Responded (1 # 10) (http 500 None)]
           (Responded (1 # 10) (http 200 (Some ok_body))).

Definition geocode_path : string := "/maps/api/geocode/json".

Definition geocode_url : string :=
  "/maps/api/geocode/json?address=Sesame+St.&key=AIzaasdf".

Definition geocode_params : Params := PDict [("address", VStr "Sesame St.")].

(** ** The runs of [_request], as a relation *)

(** One call of [_request] and the retries it makes, attempt by attempt:
    [Run i w r w'] when the attempt with counter [i] started in world [w]
    ends, possibly after retries, with [r] in world [w']. *)
Section Runs.

Variables (self : Client) (url : string) (params : Params) (base_url : string)
          (accepts_clientid : bool)
          (extract_body : option (Response -> Result Json))
          (post_json : option Json).

(** The time of the first attempt. *)
Variable t0 : Q.

(** Lines 143-146 *)
Definition extracted (response : Response) : Result Json :=
  match extract_body with
  | Some extract => extract response
  | None => _get_body response
  end.

(** Lines 149-156: the exceptions of the extraction that lead to a retry. *)
Definition retried (e : Exn) : bool :=
  isinstance e C__RetriableRequest
  && negb (isinstance e C__OverQueryLimit && negb (retry_over_query_limit self)).

(** The world after the backoff sleep and the request of an attempt. *)
Definition after_send (authed_url : string) (i : nat) (w : World) : World :=
  snd (send (request_of base_url authed_url post_json) (backoff i w)).

Inductive Run : nat -> World -> Result Json -> World -> Prop :=
| Run_deadline i w :
    retry_timeout self < clock w - t0 ->
    Run i w (Raise Timeout) w
| Run_no_auth i w e :
    clock w - t0 <= retry_timeout self ->
    _generate_auth_url self url params accepts_clientid = Raise e ->
    Run i w (Raise e) (backoff i w)
| Run_timed_out i w authed_url d :
    clock w - t0 <= retry_timeout self ->
    _generate_auth_url self url params accepts_clientid = Return authed_url ->
    remote w (sends w) (request_of base_url authed_url post_json) = TimedOut d ->
    Run i w (Raise Timeout) (after_send authed_url i w)
| Run_failed i w authed_url d descr :
    clock w - t0 <= retry_timeout self ->
    _generate_auth_url self url params accepts_clientid = Return authed_url ->
    remote w (sends w) (request_of base_url authed_url post_json) = Failed d descr ->
    Run i w (Raise (TransportError (Some descr))) (after_send authed_url i w)
| Run_retry_status i w authed_url d response r w' :
    clock w - t0 <= retry_timeout self ->
    _generate_auth_url self url params accepts_clientid = Return authed_url ->
    remote w (sends w) (request_of base_url authed_url post_json)
    = Responded d response ->
    is_retriable (status_code response) = true ->
    Run (S i) (after_send authed_url i w) r w' ->
    Run i w r w'
| Run_return i w authed_url d response result :
    clock w - t0 <= retry_timeout self ->
    _generate_auth_url self url params accepts_clientid = Return authed_url ->
    remote w (sends w) (request_of base_url authed_url post_json)
    = Responded d response ->
    is_retriable (status_code response) = false ->
    extracted response = Return result ->
    Run i w (Return result)
        (record_sent self (rate_limit_wait self (after_send authed_url i w)))
| Run_raise i w authed_url d response e :
    clock w - t0 <= retry_timeout self ->
    _generate_auth_url self url params accepts_clientid = Return authed_url ->
    remote w (sends w) (request_of base_url authed_url post_json)
    = Responded d response ->
    is_retriable (status_code response) = false ->
    extracted response = Raise e ->
    retried e = false ->
    Run i w (Raise e) (rate_limit_wait self (after_send authed_url i w))
| Run_retry_quota i w authed_url d response e r w' :
    clock w - t0 <= retry_timeout self ->
    _generate_auth_url self url params accepts_clientid = Return authed_url ->
    remote w (sends w) (request_of base_url authed_url post_json)
    = Responded d response ->
    is_retriable (status_code response) = false ->
    extracted response = Raise e ->
    retried e = true ->
    Run (S i) (rate_limit_wait self (after_send authed_url i w)) r w' ->
    Run i w r w'.

End Runs.

(** ** More observations *)

(** The requests of a log, newest first. *)
Fixpoint requests_of (tr : list Event) : list Request :=
  match tr with
  | [] => []
  | EvSend _ rq _ :: earlier => rq :: requests_of earlier
  | _ :: earlier => requests_of earlier
  end.

(** The durations handed to [time.sleep] in a log, newest first. *)
Fixpoint sleeps_of (tr : list Event) : list Q :=
  match tr with
  | [] => []
  | EvBackoff delay_seconds factor :: earlier =>
      delay_seconds * factor :: sleeps_of earlier
  | EvThrottle seconds :: earlier => seconds :: sleeps_of earlier
  | _ :: earlier => sleeps_of earlier
  end.

(** The window is in chronological order and holds no time of the future. *)
Definition window_ok (w : World) : Prop :=
  StronglySorted Qle (sent_times w) /\
  Forall (fun t => t <= clock w) (sent_times w).

(** What a well-behaved world lets the engine log: backoff sleeps of at
    least half a second times a factor in [0.5, 1.5), rate-limit sleeps of
    more than nothing and at most a second, requests that take no negative
    time. *)
Definition sane_event (ev : Event) : Prop :=
  match ev with
  | EvBackoff delay_seconds factor =>
      1 # 2 <= delay_seconds /\ 1 # 2 <= factor /\ factor < 3 # 2
  | EvThrottle seconds => 0 < seconds /\ seconds <= 1
  | EvSend _ _ o => 0 <= took o
  | EvRecord _ => True
  end.

(** From [w] to [w'] the engine logged [tr]: sane events, requests equal
    to [rq], one more send for each; time did not go back, the remote and
    the random source are the same, and the window is still in order. *)
Definition advances (rq : Request) (w w' : World) (tr : list Event) : Prop :=
  trace w' = (tr ++ trace w)%list /\
  Forall sane_event tr /\
  Forall (eq rq) (requests_of tr) /\
  sends w' = (sends w + length (requests_of tr))%nat /\
  clock w <= clock w' /\
  remote w' = remote w /\
  random_random w' = random_random w /\
  window_ok w'.

(** From [w] to [w'] the engine logged [tr], with requests equal to [rq]
    and one more send for each. *)
Definition logged (rq : Request) (w w' : World) (tr : list Event) : Prop :=
  trace w' = (tr ++ trace w)%list /\
  Forall (eq rq) (requests_of tr) /\
  sends w' = (sends w + length (requests_of tr))%nat.

(** The sum of a list of durations. *)
Definition total (durations : list Q) : Q := fold_right Qplus 0 durations.

(** A remote that takes 20 seconds for each of three 500 responses, and
    then answers 200 with status OK. *)
Definition slow_500_then_ok : nat -> Request -> Outcome :=
  scripted [Responded 20 (http 500 None); Responded 20 (http 500 None);
            Responded 20 (http 500 None)]
           (Responded 20 (http 200 (Some ok_body))).

(** The exception classes, all of them. *)
Definition all_classes : list ExcClass :=
  [C_Exception; C_LookupError; C_KeyError; C_TypeError; C_AttributeError;
   C_ValueError; C_UnicodeEncodeError; C_binascii_Error; C_JSONDecodeError;
   C_InvalidURL; C_ApiError; C_TransportError; C_HTTPError; C_Timeout;
   C__RetriableRequest; C__OverQueryLimit].

(** All the characters of a string satisfy [p]. *)
Definition all_chars (p : ascii -> bool) (s : string) : bool :=
  forallb p (list_ascii_of_string s).

Definition code (c : ascii) : Z := Z.of_N (N_of_ascii c).

(** The characters of a query string: unreserved ones and [+ % = &]. *)
Definition query_char (c : ascii) : bool :=
  urllib.always_safe (code c)
  || (code c =? 43)%Z || (code c =? 37)%Z || (code c =? 61)%Z || (code c =? 38)%Z.

(** The characters of a quoted key or value: unreserved ones and [+ %]. *)
Definition quoted_char (c : ascii) : bool :=
  urllib.always_safe (code c) || (code c =? 43)%Z || (code c =? 37)%Z.

(** Unreserved characters: letters, digits and [_ . - ~]. *)
Definition unreserved_char (c : ascii) : bool := urllib.always_safe (code c).

(** The characters of a signature: letters, digits and [- _ =]. *)
Definition signature_char (c : ascii) : bool :=
  urllib.is_ascii_alnum (code c)
  || (code c =? 45)%Z || (code c =? 95)%Z || (code c =? 61)%Z.

(** The characters the constructor allows in a channel. *)
Definition channel_char (c : ascii) : bool :=
  urllib.is_ascii_alnum (code c)
  || (code c =? 46)%Z || (code c =? 95)%Z || (code c =? 45)%Z.

(** What the constructor asks of its arguments. *)
Definition acceptable (api_key id secret : option string)
    (timeout connect_timeout read_timeout : option Q) (chan : option string) : bool :=
  (truthy api_key || (truthy secret && truthy id))
  && (negb (truthy api_key) || startswith (str_of api_key) "AIza")
  && (negb (truthy chan) || (truthy id && channel_match (str_of chan)))
  && negb (nonzero timeout && (nonzero connect_timeout || nonzero read_timeout)).

(** The exceptions of a call with the default extraction whose URL was
    built: the deadline, the transport, and the classified responses. *)
Definition engine_error (self : Client) (e : Exn) : Prop :=
  match e with
  | Timeout => True
  | TransportError (Some _) => True
  | HTTPError status => status <> 200%Z /\ is_retriable status = false
  | JSONDecodeError | TypeError => True
  | KeyError k => k = "status"
  | _OverQueryLimit status _ =>
      status = JStr "OVER_QUERY_LIMIT" /\ retry_over_query_limit self = false
  | ApiError status _ =>
      status <> JStr "OK" /\ status <> JStr "ZERO_RESULTS" /\
      status <> JStr "OVER_QUERY_LIMIT"
  | _ => False
  end.

(** ** Geocoding ([src/geocoding.py]) *)

(** [',' in s] *)
Fixpoint contains_char (c : ascii) (s : string) : bool :=
  match s with
  | EmptyString => false
  | String c' rest => Ascii.eqb c' c || contains_char c rest
  end.

(** [body.get("results", [])] *)
Definition get_results (body : Json) : Result Json :=
  match body with
  | JObj items =>
      match lookup "results" items with
      | Some v => Return v
      | None => Return (JArr [])
      end
  | _ => Raise AttributeError
  end.

(** The result of an endpoint function, from the run of [_request]. *)
Definition with_results (run : option (Result Json * World))
  : option (Result Json * World) :=
  match run with
  | Some (Return body, w) => Some (get_results body, w)
  | other => other
  end.

(** The [latlng] argument of [reverse_geocode]: a string, or a value that
    [convert.latlng] renders. *)
Inductive LatLng (Point : Type) : Type :=
| LatLngStr (s : string)
| LatLngPoint (p : Point).
Arguments LatLngStr {Point} s.
Arguments LatLngPoint {Point} p.

(** The conversions of [googlemaps.convert] are not part of the sources:
    they are taken as they come, with the exceptions they may raise.  An
    argument that is [None], empty or otherwise false is [None] here. *)
Section Geocoding.

Variables Components Bounds Types : Type.
Variable convert_components : Components -> Result string.
Variable convert_bounds : Bounds -> Result string.
Variable convert_join_list : string -> Types -> Result string.

(** [geocode], lines 8-23: the parameters, one for each argument given. *)
Definition geocode_query (address : option string) (components : option Components)
    (bounds : option Bounds) (region language : option string)
  : Result (Dict Value) :=
  (let params := [] in
   let params := if truthy address
                 then dict_set params "address" (VStr (str_of address))
                 else params in
   params <- match components with
             | Some c => s <- convert_components c ;;
                         Return (dict_set params "components" (VStr s))
             | None => Return params
             end ;;
   params <- match bounds with
             | Some b => s <- convert_bounds b ;;
                         Return (dict_set params "bounds" (VStr s))
             | None => Return params
             end ;;
   let params := if truthy region
                 then dict_set params "region" (VStr (str_of region))
                 else params in
   let params := if truthy language
                 then dict_set params "language" (VStr (str_of language))
                 else params in
   Return params)%result.

(** [geocode], line 25 *)
Definition geocode (fuel : nat) (client : Client) (address : option string)
    (components : option Components) (bounds : option Bounds)
    (region language : option string) (w : World)
  : option (Result Json * World) :=
  match geocode_query address components bounds region language with
  | Raise e => Some (Raise e, w)
  | Return params =>
      with_results (request fuel client "/maps/api/geocode/json" (PDict params) w)
  end.

Variable Point : Type.
Variable convert_latlng : LatLng Point -> Result string.

(** [reverse_geocode], lines 34-46 *)
Definition reverse_geocode_query (latlng : LatLng Point)
    (result_type location_type : option Types) (language : option string)
  : Result (Dict Value) :=
  (params <- match latlng with
             | LatLngStr s =>
                 if negb (contains_char "," s) then Return [("place_id", VStr s)]
                 else s' <- convert_latlng latlng ;; Return [("latlng", VStr s')]
             | LatLngPoint _ =>
                 s' <- convert_latlng latlng ;; Return [("latlng", VStr s')]
             end ;;
   params <- match result_type with
             | Some t => s <- convert_join_list "|" t ;;
                         Return (dict_set params "result_type" (VStr s))
             | None => Return params
             end ;;
   params <- match location_type with
             | Some t => s <- convert_join_list "|" t ;;
                         Return (dict_set params "location_type" (VStr s))
             | None => Return params
             end ;;
   let params := if truthy language
                 then dict_set params "language" (VStr (str_of language))
                 else params in
   Return params)%result.

(** [reverse_geocode], line 48 *)
Definition reverse_geocode (fuel : nat) (client : Client) (latlng : LatLng Point)
    (result_type location_type : option Types) (language : option string)
    (w : World) : option (Result Json * World) :=
  match reverse_geocode_query latlng result_type location_type language with
  | Raise e => Some (Raise e, w)
  | Return params =>
      with_results (request fuel client "/maps/api/geocode/json" (PDict params) w)
  end.

End Geocoding.

(** * Properties *)

(** ** Known answers

    SHA-1 of "abc" (FIPS 180), the HMAC-SHA1 of a well-known sentence
    under the key "key", and two signed URLs. *)

Example sha1_abc :
  sha1.digest (list_byte_of_string "abc")
  = map byte_of_Z [169;153;62;54;71;6;129;106;186;62;37;113;120;80;194;108;156;208;216;157]%Z.
Proof. vm_compute. reflexivity. Qed.

Example sign_hmac_known_answer :
  sign_hmac "a2V5" "The quick brown fox jumps over the lazy dog"
  = Return "3nybhbi3iqa8ino29wqQcBydtNk=".
Proof. vm_compute. reflexivity. Qed.


Example url_signed :
  _generate_auth_url (with_deadline 60 {| key := None; client_id := Some "foo";
       client_secret := Some "a2V5"; channel := None; retry_timeout := 60;
       queries_per_second := 50; retry_over_query_limit := true;
       _extra_params := None |}) "/maps/api/geocode/json" geocode_params true
  = Return "/maps/api/geocode/json?address=Sesame+St.&client=foo&signature=fxbWUIcNPZSekVOhp2ul9LW5TpY=".
Proof. vm_compute. reflexivity. Qed.


Example url_signed_with_channel :
  _generate_auth_url
    {| key := Some "AIzaasdf"; client_id := Some "foo"; client_secret := Some "a2V5";
       channel := Some "MyChannel_1"; retry_timeout := 60; queries_per_second := 50;
       retry_over_query_limit := true; _extra_params := None |}
    "/test" (PDict [("param", VStr "param")]) true
  = Return "/test?param=param&channel=MyChannel_1&client=foo&signature=OH18GuQto_mEpxj99UimKskvo4k=".
Proof. vm_compute. reflexivity. Qed.

(** ** Basic facts *)

Lemma Qltb_true (x y : Q) : Qltb x y = true <-> x < y.
Proof.
  unfold Qltb. rewrite negb_true_iff. split; intro H.
  - apply Qnot_le_lt. intro Hle. apply Qle_bool_iff in Hle. congruence.
  - destruct (Qle_bool y x) eqn:E; [|reflexivity].
    apply Qle_bool_iff in E. exfalso. exact (Qlt_not_le _ _ H E).
Qed.

Lemma Qltb_false (x y : Q) : Qltb x y = false <-> y <= x.
Proof.
  unfold Qltb. rewrite negb_false_iff. apply Qle_bool_iff.
Qed.

(** The operations on the world leave the remote and the random source
    as they are. *)
Lemma backoff_frame (i : nat) (w : World) :
  remote (backoff i w) = remote w /\ sends (backoff i w) = sends w /\
  random_random (backoff i w) = random_random w /\
  sent_times (backoff i w) = sent_times w.
Proof.
  unfold backoff. destruct (0 <? i)%nat; simpl; auto.
Qed.

Lemma rate_limit_wait_frame (self : Client) (w : World) :
  remote (rate_limit_wait self w) = remote w /\
  sends (rate_limit_wait self w) = sends w /\
  random_random (rate_limit_wait self w) = random_random w /\
  sent_times (rate_limit_wait self w) = sent_times w.
Proof.
  unfold rate_limit_wait. destruct (sent_times w) as [|earliest rest] eqn:E; auto.
  destruct (_ =? _)%nat; auto.
  destruct (Qltb _ _); simpl; auto.
Qed.

(** One attempt whose deadline check passes, whose URL is built and whose
    request is answered: what is left of [_request]. *)
Lemma _request_responded (fuel : nat) (self : Client) (url : string)
    (params : Params) (t0 : option Q) (i : nat) (base_url : string)
    (accepts_clientid : bool) (extract_body : option (Response -> Result Json))
    (post_json : option Json) (w : World) (authed_url : string) (d : Q)
    (response : Response) :
  Qltb (retry_timeout self) (clock w - started t0 w) = false ->
  _generate_auth_url self url params accepts_clientid = Return authed_url ->
  remote w (sends w) (request_of base_url authed_url post_json) = Responded d response ->
  _request (S fuel) self url params t0 i base_url accepts_clientid extract_body
           post_json w
  = let w1 := snd (send (request_of base_url authed_url post_json) (backoff i w)) in
    if is_retriable (status_code response) then
      _request fuel self url params (Some (started t0 w)) (S i) base_url
               accepts_clientid extract_body post_json w1
    else
      let w2 := rate_limit_wait self w1 in
      match match extract_body with
            | Some extract => extract response
            | None => _get_body response
            end with
      | Return result => Some (Return result, record_sent self w2)
      | Raise e =>
          if isinstance e C__RetriableRequest then
            if isinstance e C__OverQueryLimit && negb (retry_over_query_limit self)
            then Some (Raise e, w2)
            else _request fuel self url params (Some (started t0 w)) (S i) base_url
                          accepts_clientid extract_body post_json w2
          else Some (Raise e, w2)
      end.
Proof.
  intros Hdeadline Hauth Hremote.
  cbn [_request]. rewrite Hdeadline, Hauth.
  unfold send, request_of in *.
  destruct (backoff_frame i w) as (Hr & Hs & _ & _).
  rewrite Hr, Hs, Hremote. reflexivity.
Qed.

(** ** The response classifier *)

(** The cases of [_get_body], one by one. *)
Lemma _get_body_cases (response : Response) :
  (status_code response <> 200%Z ->
   _get_body response = Raise (HTTPError (status_code response))) /\
  (status_code response = 200%Z ->
   (json response = None ->
    exists e, _get_body response = Raise e /\ is_parse_error e = true) /\
   (forall body, json response = Some body ->
      (forall items, body <> JObj items) ->
      exists e, _get_body response = Raise e /\ is_parse_error e = true) /\
   (forall items, json response = Some (JObj items) ->
      (lookup "status" items = None ->
       exists e, _get_body response = Raise e /\ is_parse_error e = true) /\
      (forall api_status, lookup "status" items = Some api_status ->
         (api_status = JStr "OK" \/ api_status = JStr "ZERO_RESULTS" ->
          _get_body response = Return (JObj items)) /\
         (api_status = JStr "OVER_QUERY_LIMIT" ->
          _get_body response
          = Raise (_OverQueryLimit api_status (error_message_of items)) /\
          isinstance (_OverQueryLimit api_status (error_message_of items))
                     C__RetriableRequest = true) /\
         (api_status <> JStr "OK" -> api_status <> JStr "ZERO_RESULTS" ->
          api_status <> JStr "OVER_QUERY_LIMIT" ->
          _get_body response
          = Raise (ApiError api_status (error_message_of items)) /\
          isinstance (ApiError api_status (error_message_of items))
                     C__RetriableRequest = false)))).
Proof.
  unfold _get_body, response_json. split.
  - intro Hne. apply Z.eqb_neq in Hne. rewrite Hne. reflexivity.
  - intro H200. rewrite H200. simpl negb. cbv iota.
    split; [|split].
    + intro Hj. rewrite Hj. simpl. eexists; split; reflexivity.
    + intros body Hj Hnot. rewrite Hj. simpl.
      destruct body; simpl; try (eexists; split; reflexivity).
      exfalso. eapply Hnot. reflexivity.
    + intros items Hj. rewrite Hj. simpl. split.
      * intro Hl. rewrite Hl. simpl. eexists; split; reflexivity.
      * intros api_status Hl. rewrite Hl. simpl.
        unfold error_message_of. split; [|split].
        -- intros [-> | ->]; reflexivity.
        -- intros ->. simpl.
           destruct (lookup "error_message" items); split; reflexivity.
        -- intros H1 H2 H3.
           assert (Hs : forall s, api_status <> JStr s -> eq_str api_status s = false).
           { intros s Hs. destruct api_status; simpl; try reflexivity.
             apply String.eqb_neq. congruence. }
           rewrite (Hs _ H1), (Hs _ H2), (Hs _ H3). simpl.
           destruct (lookup "error_message" items); split; reflexivity.
Qed.


(** C3.  [_get_body] on an HTTP status and a payload: any status other
    than 200 raises [HTTPError] with that status; on 200, a payload that
    is not JSON, not an object, or has no [status] field is a parse
    failure; status "OK" or "ZERO_RESULTS" returns the body;
    "OVER_QUERY_LIMIT" raises the retriable [_OverQueryLimit] with the
    optional [error_message]; any other status raises [ApiError] with the
    status and the optional [error_message]. *)
Theorem get_body_classifies (response : Response) :
  (status_code response <> 200%Z ->
   _get_body response = Raise (HTTPError (status_code response))) /\
  (status_code response = 200%Z ->
   (json response = None ->
    exists e, _get_body response = Raise e /\ is_parse_error e = true) /\
   (forall body, json response = Some body ->
      (forall items, body <> JObj items) ->
      exists e, _get_body response = Raise e /\ is_parse_error e = true) /\
   (forall items, json response = Some (JObj items) ->
      (lookup "status" items = None ->
       exists e, _get_body response = Raise e /\ is_parse_error e = true) /\
      (forall api_status, lookup "status" items = Some api_status ->
         (api_status = JStr "OK" \/ api_status = JStr "ZERO_RESULTS" ->
          _get_body response = Return (JObj items)) /\
         (api_status = JStr "OVER_QUERY_LIMIT" ->
          _get_body response
          = Raise (_OverQueryLimit api_status (error_message_of items)) /\
          isinstance (_OverQueryLimit api_status (error_message_of items))
                     C__RetriableRequest = true) /\
         (api_status <> JStr "OK" -> api_status <> JStr "ZERO_RESULTS" ->
          api_status <> JStr "OVER_QUERY_LIMIT" ->
          _get_body response
          = Raise (ApiError api_status (error_message_of items)) /\
          isinstance (ApiError api_status (error_message_of items))
                     C__RetriableRequest = false)))).
Proof. exact (_get_body_cases response). Qed.

Lemma get_body_classifies_witness :
  _get_body (http 404 None) = Raise (HTTPError 404) /\
  _get_body (http 200 (Some ok_body)) = Return ok_body /\
  _get_body (http 200 (Some over_limit_body))
  = Raise (_OverQueryLimit (JStr "OVER_QUERY_LIMIT") (JStr "quota")) /\
  _get_body (http 200 (Some (JObj [("status", JStr "REQUEST_DENIED")])))
  = Raise (ApiError (JStr "REQUEST_DENIED") JNull).
Proof.
  split; [|split; [|split]].
  - apply (proj1 (get_body_classifies (http 404 None))). discriminate.
  - destruct (get_body_classifies (http 200 (Some ok_body))) as [_ H].
    destruct (H eq_refl) as (_ & _ & H').
    destruct (H' _ eq_refl) as [_ H''].
    destruct (H'' _ eq_refl) as [Hok _].
    apply Hok. left. reflexivity.
  - destruct (get_body_classifies (http 200 (Some over_limit_body))) as [_ H].
    destruct (H eq_refl) as (_ & _ & H').
    destruct (H' _ eq_refl) as [_ H''].
    destruct (H'' _ eq_refl) as (_ & Hover & _).
    apply (proj1 (Hover eq_refl)).
  - destruct (get_body_classifies
                (http 200 (Some (JObj [("status", JStr "REQUEST_DENIED")]))))
      as [_ H].
    destruct (H eq_refl) as (_ & _ & H').
    destruct (H' _ eq_refl) as [_ H''].
    destruct (H'' _ eq_refl) as (_ & _ & Hother).
    apply Hother; discriminate.
Defined.

(** ** The exception classes *)

(** C10.  [HTTPError] is a subclass of [TransportError]: the error that
    [_get_body] raises for a status other than 200, and that the engine
    lets through for a status that is neither 200 nor retriable, is an
    instance of [TransportError] too. *)
Theorem HTTPError_is_TransportError :
  issubclass C_HTTPError C_TransportError = true /\
  (forall response, status_code response <> 200%Z ->
     exists e, _get_body response = Raise e /\
               class_of e = C_HTTPError /\
               isinstance e C_TransportError = true) /\
  (forall fuel self url params t0 i base_url accepts_clientid post_json w
          authed_url d response,
     Qltb (retry_timeout self) (clock w - started t0 w) = false ->
     _generate_auth_url self url params accepts_clientid = Return authed_url ->
     remote w (sends w) (request_of base_url authed_url post_json)
     = Responded d response ->
     status_code response <> 200%Z ->
     is_retriable (status_code response) = false ->
     exists e w',
       _request (S fuel) self url params t0 i base_url accepts_clientid None
                post_json w = Some (Raise e, w') /\
       e = HTTPError (status_code response) /\
       isinstance e C_TransportError = true /\
       isinstance e C_HTTPError = true).
Proof.
  split; [reflexivity|split].
  - intros response Hne. exists (HTTPError (status_code response)).
    split; [|split; reflexivity].
    apply (proj1 (_get_body_cases response)). exact Hne.
  - intros fuel self url params t0 i base_url accepts_clientid post_json w
           authed_url d response Hdeadline Hauth Hremote Hne Hretry.
    rewrite (_request_responded fuel self url params t0 i base_url accepts_clientid None post_json w Hdeadline Hauth Hremote).
    cbv zeta. rewrite Hretry.
    rewrite (proj1 (_get_body_cases response) Hne).
    eexists; eexists. split; [reflexivity|]. repeat split.
Qed.

(** ** The signer *)

Lemma Z_of_byte_range (b : byte) : (0 <= Z_of_byte b < 256)%Z.
Proof.
  unfold Z_of_byte. pose proof (Byte.to_N_bounded b). lia.
Qed.

(** A property of the numbers below 256, checked on each of them. *)
Lemma below_256 (P : Z -> bool) :
  forallb P (map Z.of_nat (seq 0 256)) = true ->
  forall z, (0 <= z < 256)%Z -> P z = true.
Proof.
  intros Hall z Hz. rewrite forallb_forall in Hall. apply Hall.
  apply in_map_iff. exists (Z.to_nat z). split; [lia|].
  apply in_seq. lia.
Qed.

Lemma below_256_2 (P : Z -> Z -> bool) :
  forallb (fun a => forallb (P a) (map Z.of_nat (seq 0 256)))
          (map Z.of_nat (seq 0 256)) = true ->
  forall a b, (0 <= a < 256)%Z -> (0 <= b < 256)%Z -> P a b = true.
Proof.
  intros Hall a b Ha Hb.
  apply (below_256 (P a)); [|exact Hb].
  apply (below_256 (fun a => forallb (P a) (map Z.of_nat (seq 0 256)))); assumption.
Qed.

Lemma pad_char_ascii : ascii_byte base64.pad_char.
Proof. unfold ascii_byte. vm_compute. reflexivity. Qed.

Lemma sextet_first_ascii (b0 : byte) :
  ascii_byte (base64.char_of_sextet (Z.shiftr (Z_of_byte b0) 2)).
Proof.
  unfold ascii_byte. apply Z.ltb_lt.
  apply (below_256 (fun n =>
           (Z_of_byte (base64.char_of_sextet (Z.shiftr n 2)) <? 128)%Z)).
  - vm_compute. reflexivity.
  - apply Z_of_byte_range.
Qed.

Lemma sextet_last_ascii (b : byte) (k s : Z) :
  (k = 3 /\ s = 4 \/ k = 15 /\ s = 2 \/ k = 63 /\ s = 0)%Z ->
  ascii_byte (base64.char_of_sextet (Z.shiftl (Z.land (Z_of_byte b) k) s)).
Proof.
  intros Hks. unfold ascii_byte. apply Z.ltb_lt.
  destruct Hks as [[-> ->] | [[-> ->] | [-> ->]]];
    match goal with
    | |- (Z_of_byte (base64.char_of_sextet (Z.shiftl (Z.land _ ?k) ?s)) <? 128)%Z = true =>
        apply (below_256 (fun n =>
                 (Z_of_byte (base64.char_of_sextet (Z.shiftl (Z.land n k) s)) <? 128)%Z));
        [vm_compute; reflexivity | apply Z_of_byte_range]
    end.
Qed.

Lemma sextet_middle_ascii (b0 b1 : byte) (k s r : Z) :
  (k = 3 /\ s = 4 /\ r = 4 \/ k = 15 /\ s = 2 /\ r = 6)%Z ->
  ascii_byte (base64.char_of_sextet
                (Z.lor (Z.shiftl (Z.land (Z_of_byte b0) k) s)
                       (Z.shiftr (Z_of_byte b1) r))).
Proof.
  intros Hks. unfold ascii_byte. apply Z.ltb_lt.
  destruct Hks as [(-> & -> & ->) | (-> & -> & ->)];
    match goal with
    | |- (Z_of_byte (base64.char_of_sextet
                       (Z.lor (Z.shiftl (Z.land _ ?k) ?s) (Z.shiftr _ ?r))) <? 128)%Z = true =>
        apply (below_256_2 (fun n0 n1 =>
                 (Z_of_byte (base64.char_of_sextet
                               (Z.lor (Z.shiftl (Z.land n0 k) s) (Z.shiftr n1 r)))
                  <? 128)%Z));
        [vm_compute; reflexivity | apply Z_of_byte_range | apply Z_of_byte_range]
    end.
Qed.

(** Induction on a list of bytes, three at a time. *)
Lemma triples_ind (P : list byte -> Prop) :
  P [] -> (forall a, P [a]) -> (forall a b, P [a; b]) ->
  (forall a b c rest, P rest -> P (a :: b :: c :: rest)) ->
  forall l, P l.
Proof.
  intros H0 H1 H2 H3. fix IH 1.
  intros [|a [|b [|c rest]]].
  - exact H0.
  - apply H1.
  - apply H2.
  - apply H3, IH.
Qed.

Lemma urlsafe_b64encode_ascii (bs : list byte) :
  Forall ascii_byte (base64.urlsafe_b64encode bs).
Proof.
  induction bs as [|a|a b|a b c rest IH] using triples_ind.
  - constructor.
  - cbn [base64.urlsafe_b64encode].
    repeat constructor;
      first [apply sextet_first_ascii | apply pad_char_ascii
            | apply sextet_last_ascii; tauto].
  - cbn [base64.urlsafe_b64encode].
    repeat constructor;
      first [apply sextet_first_ascii | apply pad_char_ascii
            | apply sextet_middle_ascii; tauto
            | apply sextet_last_ascii; tauto].
  - cbn [base64.urlsafe_b64encode].
    repeat (constructor;
      [first [apply sextet_first_ascii
            | apply sextet_middle_ascii; tauto
            | rewrite <- (Z.shiftl_0_r (Z.land (Z_of_byte c) 63));
              apply sextet_last_ascii; tauto]|]).
    exact IH.
Qed.

Lemma decode_utf8_ascii (bs : list byte) :
  Forall ascii_byte bs -> decode_utf8 bs = Return (string_of_list_byte bs).
Proof.
  induction 1 as [|b rest Hb _ IH]; [reflexivity|].
  cbn [decode_utf8]. apply Z.ltb_lt in Hb. rewrite Hb, IH. reflexivity.
Qed.

Lemma encode_ascii_spec (s : string) :
  encode_ascii s
  = if all_ascii s then Return (list_byte_of_string s) else Raise UnicodeEncodeError.
Proof.
  unfold all_ascii. induction s as [|c rest IH]; [reflexivity|].
  cbn [encode_ascii list_ascii_of_string forallb].
  destruct (is_ascii c); [|reflexivity].
  rewrite IH. simpl andb. destruct (forallb is_ascii (list_ascii_of_string rest));
    reflexivity.
Qed.

(** C8.  [sign_hmac secret payload] is a function of its two arguments
    alone.  On ASCII arguments it decodes the secret from URL-safe
    base64, computes the HMAC-SHA1 of the bytes of the payload under that
    key and returns the URL-safe base64 text of the digest; when the
    payload or the secret has a non-ASCII character it raises the
    encoding error. *)
Theorem sign_hmac_spec (secret payload : string) :
  (all_ascii payload = true -> all_ascii secret = true ->
   (forall k, base64.urlsafe_b64decode (list_byte_of_string secret) = Return k ->
      sign_hmac secret payload
      = Return (string_of_list_byte
                  (base64.urlsafe_b64encode
                     (hmac.hmac_sha1 k (list_byte_of_string payload))))) /\
   (forall e, base64.urlsafe_b64decode (list_byte_of_string secret) = Raise e ->
      sign_hmac secret payload = Raise e)) /\
  (all_ascii payload = false \/ all_ascii secret = false ->
   sign_hmac secret payload = Raise UnicodeEncodeError).
Proof.
  unfold sign_hmac. rewrite !encode_ascii_spec. split.
  - intros Hp Hs. rewrite Hp, Hs. cbn [rbind]. split.
    + intros k Hk. rewrite Hk. cbn [rbind].
      apply decode_utf8_ascii, urlsafe_b64encode_ascii.
    + intros e He. rewrite He. reflexivity.
  - intros [Hp | Hs].
    + rewrite Hp. reflexivity.
    + rewrite Hs. destruct (all_ascii payload); reflexivity.
Qed.

Lemma sign_hmac_spec_witness :
  sign_hmac "a2V5" "/path?a=1&channel=abc&client=foo"
  = Return "vcLp_U5VPRmDTSL2OUmcBo-O9dY=" /\
  sign_hmac "a2V5" (String (ascii_of_nat 233) "t") = Raise UnicodeEncodeError /\
  sign_hmac (String (ascii_of_nat 233) "2V5") "/path" = Raise UnicodeEncodeError.
Proof.
  split; [|split].
  - destruct (sign_hmac_spec "a2V5" "/path?a=1&channel=abc&client=foo") as [H _].
    destruct (H eq_refl eq_refl) as [Hk _].
    apply (Hk (list_byte_of_string "key")). vm_compute. reflexivity.
  - apply (proj2 (sign_hmac_spec "a2V5" (String (ascii_of_nat 233) "t"))).
    left. reflexivity.
  - apply (proj2 (sign_hmac_spec (String (ascii_of_nat 233) "2V5") "/path")).
    right. reflexivity.
Defined.

(** ** The URL builder *)

Lemma append_nil_r (s : string) : (s ++ "")%string = s.
Proof. induction s as [|c s IH]; simpl; congruence. Qed.

Lemma append_assoc (s1 s2 s3 : string) :
  ((s1 ++ s2) ++ s3)%string = (s1 ++ (s2 ++ s3))%string.
Proof. induction s1 as [|c s1 IH]; simpl; congruence. Qed.

Lemma concat_empty_cons (x : string) (xs : list string) :
  String.concat "" (x :: xs) = (x ++ String.concat "" xs)%string.
Proof.
  destruct xs; simpl; [symmetry; apply append_nil_r | reflexivity].
Qed.

(** [unquote_unreserved] gives back what [quote_plus] wrote: a byte is
    escaped only if it is not unreserved. *)
Lemma unquote_quote_byte (b : byte) (s r : string) :
  requests_utils.unquote_unreserved s = Return r ->
  requests_utils.unquote_unreserved (urllib.quote_byte b ++ s)
  = Return (urllib.quote_byte b ++ r)%string.
Proof.
  intro H. destruct b; cbn; rewrite H; reflexivity.
Qed.

Lemma unquote_quote_plus (s tail r : string) :
  requests_utils.unquote_unreserved tail = Return r ->
  requests_utils.unquote_unreserved (urllib.quote_plus s ++ tail)
  = Return (urllib.quote_plus s ++ r)%string.
Proof.
  intro H. unfold urllib.quote_plus.
  induction (encode_utf8 s) as [|b bs IH]; [exact H|].
  cbn [map]. rewrite concat_empty_cons, !append_assoc.
  apply unquote_quote_byte, IH.
Qed.

Lemma unquote_plain (c : ascii) (s r : string) :
  Ascii.eqb c "%" = false ->
  requests_utils.unquote_unreserved s = Return r ->
  requests_utils.unquote_unreserved (String c s) = Return (String c r).
Proof.
  intros Hc H. cbn [requests_utils.unquote_unreserved]. rewrite Hc, H. reflexivity.
Qed.

Lemma unquote_item (kv : string * Value) (tail r : string) :
  requests_utils.unquote_unreserved tail = Return r ->
  requests_utils.unquote_unreserved (encode_item kv ++ tail)
  = Return (encode_item kv ++ r)%string.
Proof.
  intro H. unfold encode_item. rewrite !append_assoc.
  apply unquote_quote_plus. cbn [append].
  apply unquote_plain; [reflexivity|].
  apply unquote_quote_plus, H.
Qed.

Lemma unquote_urlencode (query : list (string * Value)) :
  requests_utils.unquote_unreserved (urllib.urlencode query)
  = Return (urllib.urlencode query).
Proof.
  unfold urllib.urlencode. fold encode_item.
  induction query as [|kv [|kv' rest] IH].
  - reflexivity.
  - cbn [map String.concat].
    rewrite <- (append_nil_r (encode_item kv)) at 1.
    rewrite (unquote_item kv "" eq_refl). now rewrite append_nil_r.
  - change (String.concat "&" (map encode_item (kv :: kv' :: rest)))
      with (encode_item kv ++ String "&" (String.concat "&" (map encode_item (kv' :: rest))))%string.
    apply unquote_item, unquote_plain; [reflexivity | exact IH].
Qed.

(** The query string of a parameter list is its [urlencode]. *)
Lemma urlencode_params_spec (params : list (string * Value)) :
  urlencode_params params = Return (urllib.urlencode params).
Proof.
  unfold urlencode_params, normalize_for_urlencode.
  replace (map (fun kv : string * Value => (fst kv, snd kv)) params) with params.
  - apply unquote_urlencode.
  - induction params as [|[k v] rest IH]; [reflexivity|].
    cbn [map fst snd]. congruence.
Qed.

(** The URL is the path, the merged parameters followed by those of the
    authentication, and the signature when there is one. *)
Lemma _generate_auth_url_spec (self : Client) (path : string) (params : Params)
    (accepts_clientid : bool) :
  let query := urllib.urlencode (merged_params self params
                                 ++ auth_params self accepts_clientid) in
  _generate_auth_url self path params accepts_clientid
  = if accepts_clientid && truthy (client_id self) && truthy (client_secret self) then
      (sig <- sign_hmac (str_of (client_secret self)) (path ++ "?" ++ query) ;;
       Return ((path ++ "?" ++ query) ++ "&signature=" ++ sig)%string)%result
    else if truthy (key self) then Return (path ++ "?" ++ query)%string
    else Raise (ValueError "Must provide API key for this API. It does not accept enterprise credentials.").
Proof.
  unfold _generate_auth_url, auth_params.
  destruct (accepts_clientid && truthy (client_id self) && truthy (client_secret self)).
  - rewrite urlencode_params_spec. cbn [rbind].
    destruct (truthy (channel self)); rewrite <- ?app_assoc; reflexivity.
  - destruct (truthy (key self)); [|reflexivity].
    rewrite urlencode_params_spec. reflexivity.
Qed.

(** C6.  The authentication of a URL is chosen in a fixed order.  With
    enterprise credentials on an endpoint that accepts a client ID:
    [channel] (when configured) and then [client] are added, the query
    string is encoded onto the path, that string is signed with the client
    secret and ["&signature=<sig>"] is added.  Otherwise, with an API key:
    [key=<apiKey>] is added and the parameters are encoded.  Otherwise the
    call fails with the configuration error. *)
Theorem auth_selection (self : Client) (path : string) (params : Params)
    (accepts_clientid : bool) :
  let merged := merged_params self params in
  let client := ("client", VStr (str_of (client_id self))) in
  let chan := ("channel", VStr (str_of (channel self))) in
  (accepts_clientid = true -> truthy (client_id self) = true ->
   truthy (client_secret self) = true ->
   let added := if truthy (channel self) then [chan; client] else [client] in
   let signed := (path ++ "?" ++ urllib.urlencode (merged ++ added))%string in
   (forall sig, sign_hmac (str_of (client_secret self)) signed = Return sig ->
      _generate_auth_url self path params accepts_clientid
      = Return (signed ++ "&signature=" ++ sig)%string) /\
   (forall e, sign_hmac (str_of (client_secret self)) signed = Raise e ->
      _generate_auth_url self path params accepts_clientid = Raise e)) /\
  (accepts_clientid && truthy (client_id self) && truthy (client_secret self) = false ->
   truthy (key self) = true ->
   _generate_auth_url self path params accepts_clientid
   = Return (path ++ "?" ++ urllib.urlencode
                                (merged ++ [("key", VStr (str_of (key self)))]))%string) /\
  (accepts_clientid && truthy (client_id self) && truthy (client_secret self) = false ->
   truthy (key self) = false ->
   exists msg,
     _generate_auth_url self path params accepts_clientid = Raise (ValueError msg)).
Proof.
  cbv zeta. rewrite _generate_auth_url_spec. cbv zeta. unfold auth_params.
  split; [|split].
  - intros -> -> ->. cbn [andb].
    replace ((if truthy (channel self)
              then [("channel", VStr (str_of (channel self)))] else [])
             ++ [("client", VStr (str_of (client_id self)))])
      with (if truthy (channel self)
            then [("channel", VStr (str_of (channel self)));
                  ("client", VStr (str_of (client_id self)))]
            else [("client", VStr (str_of (client_id self)))])
      by (destruct (truthy (channel self)); reflexivity).
    split.
    + intros sig ->. reflexivity.
    + intros e ->. reflexivity.
  - intros -> ->. reflexivity.
  - intros -> ->. eexists. reflexivity.
Qed.

Lemma auth_selection_witness :
  _generate_auth_url enterprise_client "/path" (PDict [("a", VInt 1)]) true
  = Return "/path?a=1&channel=abc&client=foo&signature=vcLp_U5VPRmDTSL2OUmcBo-O9dY=" /\
  _generate_auth_url api_client "/path" (PDict [("a", VInt 1)]) true
  = Return "/path?a=1&key=AIzaasdf" /\
  exists msg,
    _generate_auth_url enterprise_client "/path" (PDict [("a", VInt 1)]) false
    = Raise (ValueError msg).
Proof.
  split; [|split].
  - destruct (auth_selection enterprise_client "/path" (PDict [("a", VInt 1)]) true)
      as [H _].
    destruct (H eq_refl eq_refl eq_refl) as [Hsig _].
    apply (Hsig "vcLp_U5VPRmDTSL2OUmcBo-O9dY="). vm_compute. reflexivity.
  - destruct (auth_selection api_client "/path" (PDict [("a", VInt 1)]) true)
      as (_ & H & _).
    apply (H eq_refl eq_refl).
  - destruct (auth_selection enterprise_client "/path" (PDict [("a", VInt 1)]) false)
      as (_ & _ & H).
    apply (H eq_refl eq_refl).
Defined.

(** ** Merging and sorting the parameters *)

Section Dicts.

Context {V : Type}.
Implicit Types (d e : Dict V) (k : string) (v : V).

Lemma lookup_dict_set d k k' v :
  lookup k (dict_set d k' v) = if String.eqb k' k then Some v else lookup k d.
Proof.
  induction d as [|[k0 v0] rest IH]; cbn [dict_set lookup].
  - destruct (String.eqb k' k); reflexivity.
  - destruct (String.eqb k0 k') eqn:E0; cbn [lookup].
    + apply String.eqb_eq in E0. subst k0.
      destruct (String.eqb k' k); reflexivity.
    + destruct (String.eqb k0 k) eqn:E1; [|exact IH].
      apply String.eqb_eq in E1. subst k0.
      rewrite (String.eqb_sym k' k), E0. reflexivity.
Qed.

Lemma lookup_None d k : lookup k d = None <-> ~ In k (keys d).
Proof.
  induction d as [|[k0 v0] rest IH]; cbn [lookup keys map fst In].
  - tauto.
  - destruct (String.eqb k0 k) eqn:E.
    + apply String.eqb_eq in E. split; [discriminate | tauto].
    + apply String.eqb_neq in E. unfold keys in IH. tauto.
Qed.

Lemma lookup_In d k v : is_dict d -> (lookup k d = Some v <-> In (k, v) d).
Proof.
  unfold is_dict.
  induction d as [|[k0 v0] rest IH]; cbn [lookup keys map fst In]; intro Hnd.
  - split; [discriminate | tauto].
  - inversion Hnd as [|? ? Hnotin Hnd']; subst.
    destruct (String.eqb k0 k) eqn:E.
    + apply String.eqb_eq in E. subst k0. split.
      * intros [= ->]. now left.
      * intros [[= ->] | Hin]; [reflexivity|].
        exfalso. apply Hnotin. apply (in_map fst) in Hin. exact Hin.
    + apply String.eqb_neq in E. rewrite (IH Hnd'). split.
      * now right.
      * intros [[= ? ?] | Hin]; [congruence | exact Hin].
Qed.

Lemma keys_dict_set d k v :
  keys (dict_set d k v) = if existsb (String.eqb k) (keys d) then keys d
                          else (keys d ++ [k])%list.
Proof.
  induction d as [|[k0 v0] rest IH]; cbn [dict_set keys map fst existsb]; [reflexivity|].
  destruct (String.eqb k0 k) eqn:E.
  - rewrite (String.eqb_sym k k0), E. reflexivity.
  - rewrite (String.eqb_sym k k0), E. cbn [orb map fst].
    unfold keys in IH. rewrite IH.
    destruct (existsb (String.eqb k) (map fst rest)); reflexivity.
Qed.

Lemma is_dict_set d k v : is_dict d -> is_dict (dict_set d k v).
Proof.
  unfold is_dict. intro Hnd. rewrite keys_dict_set.
  destruct (existsb (String.eqb k) (keys d)) eqn:E; [exact Hnd|].
  apply NoDup_app; [exact Hnd | repeat constructor; simpl; tauto |].
  intros x Hx [<- | []].
  assert (Hex : existsb (String.eqb k) (keys d) = true).
  { apply existsb_exists. exists k. split; [exact Hx | apply String.eqb_refl]. }
  congruence.
Qed.

Lemma is_dict_update e d : is_dict e -> is_dict (dict_update e d).
Proof.
  unfold dict_update. revert e.
  induction d as [|[k v] rest IH]; intros e He; [exact He|].
  cbn [fold_left fst snd]. apply IH, is_dict_set, He.
Qed.

(** The parameters of the call win over the defaults. *)
Lemma lookup_dict_update e d k :
  is_dict d ->
  lookup k (dict_update e d)
  = match lookup k d with
    | Some v => Some v
    | None => lookup k e
    end.
Proof.
  unfold dict_update, is_dict. revert e.
  induction d as [|[k0 v0] rest IH]; intros e Hnd; [reflexivity|].
  cbn [keys map fst] in Hnd. inversion Hnd as [|? ? Hnotin Hnd']; subst.
  cbn [fold_left fst snd lookup]. rewrite (IH _ Hnd'), lookup_dict_set.
  destruct (String.eqb k0 k) eqn:E; [|reflexivity].
  apply String.eqb_eq in E. subst k0.
  apply lookup_None in Hnotin. now rewrite Hnotin.
Qed.

(** *** The order of the keys *)

Lemma ltb_compare (a b : string) : String.ltb a b = true <-> String.compare a b = Lt.
Proof. unfold String.ltb. destruct (String.compare a b); split; congruence. Qed.

Lemma compare_OT (a b : string) : String_as_OT.compare a b = String.compare a b.
Proof.
  revert b. induction a as [|c a IH]; destruct b as [|c' b]; simpl;
    try rewrite IH; reflexivity.
Qed.

Lemma ltb_trans (a b c : string) :
  String.ltb a b = true -> String.ltb b c = true -> String.ltb a c = true.
Proof.
  rewrite !ltb_compare, <- !compare_OT.
  apply (@StrictOrder_Transitive _ _ String_as_OT.lt_strorder).
Qed.

Lemma ltb_irrefl (a : string) : String.ltb a a = false.
Proof.
  destruct (String.ltb a a) eqn:E; [|reflexivity].
  apply ltb_compare in E. rewrite <- compare_OT in E.
  exfalso. exact (@StrictOrder_Irreflexive _ _ String_as_OT.lt_strorder a E).
Qed.

Lemma leb_ltb (a b : string) :
  String.leb a b = true <-> a = b \/ String.ltb a b = true.
Proof.
  unfold String.leb, String.ltb.
  destruct (String.compare a b) eqn:E.
  - apply String.compare_eq_iff in E. tauto.
  - tauto.
  - split; [discriminate|]. intros [-> | H]; [|discriminate].
    assert (Hl := ltb_irrefl b). unfold String.ltb in Hl.
    rewrite String.compare_antisym in E.
    destruct (String.compare b b); simpl in E; congruence.
Qed.

Lemma leb_false_ltb (a b : string) : String.leb a b = false -> String.ltb b a = true.
Proof.
  unfold String.leb, String.ltb. rewrite (String.compare_antisym b a).
  destruct (String.compare a b); simpl; congruence.
Qed.

(** *** [sorted] *)

Lemma insert_item_perm (x : string * V) (l : list (string * V)) :
  Permutation (insert_item x l) (x :: l).
Proof.
  induction l as [|y rest IH]; cbn [insert_item]; [reflexivity|].
  destruct (String.leb (fst x) (fst y)); [reflexivity|].
  rewrite IH. apply perm_swap.
Qed.

Lemma sorted_perm (l : list (string * V)) : Permutation (sorted l) l.
Proof.
  induction l as [|x rest IH]; [reflexivity|].
  cbn [sorted fold_right]. fold (sorted rest).
  rewrite insert_item_perm. now constructor.
Qed.

Lemma keys_perm (l l' : list (string * V)) :
  Permutation l l' -> Permutation (keys l) (keys l').
Proof. apply Permutation_map. Qed.

Lemma insert_item_sorted (x : string * V) (l : list (string * V)) :
  ~ In (fst x) (keys l) ->
  StronglySorted key_lt l -> StronglySorted key_lt (insert_item x l).
Proof.
  induction l as [|y rest IH]; cbn [insert_item]; intros Hnotin Hs.
  - repeat constructor.
  - apply StronglySorted_inv in Hs. destruct Hs as [Hs Hall].
    cbn [keys map In] in Hnotin.
    destruct (String.leb (fst x) (fst y)) eqn:E.
    + apply leb_ltb in E. destruct E as [E | E]; [exfalso; apply Hnotin; now left|].
      constructor; [constructor; assumption|].
      constructor; [exact E|].
      eapply Forall_impl; [|exact Hall].
      intros z Hz. unfold key_lt in *. eapply ltb_trans; eassumption.
    + apply leb_false_ltb in E.
      constructor.
      * apply IH; [intro; apply Hnotin; now right | exact Hs].
      * rewrite (insert_item_perm x rest). constructor; assumption.
Qed.

(** The sorted items of a [dict] are in strictly increasing order of key. *)
Lemma sorted_sorted (l : list (string * V)) :
  is_dict l -> StronglySorted key_lt (sorted l).
Proof.
  unfold is_dict. induction l as [|x rest IH]; intro Hnd.
  - constructor.
  - cbn [keys map] in Hnd. inversion Hnd as [|? ? Hnotin Hnd']; subst.
    cbn [sorted fold_right]. fold (sorted rest).
    apply insert_item_sorted; [|apply IH, Hnd'].
    intro Hin. apply Hnotin.
    eapply Permutation_in; [apply keys_perm, sorted_perm | exact Hin].
Qed.

(** Two strictly sorted lists with the same items are the same list. *)
Lemma sorted_unique (l1 l2 : list (string * V)) :
  StronglySorted key_lt l1 -> StronglySorted key_lt l2 ->
  Permutation l1 l2 -> l1 = l2.
Proof.
  revert l2. induction l1 as [|a1 r1 IH]; intros l2 H1 H2 Hp.
  - apply Permutation_nil in Hp. now subst.
  - destruct l2 as [|a2 r2].
    + symmetry in Hp. apply Permutation_nil in Hp. discriminate.
    + apply StronglySorted_inv in H1. destruct H1 as [H1 Hall1].
      apply StronglySorted_inv in H2. destruct H2 as [H2 Hall2].
      assert (Heq : a1 = a2).
      { assert (Hin1 : In a1 (a2 :: r2))
          by (eapply Permutation_in; [exact Hp | now left]).
        assert (Hin2 : In a2 (a1 :: r1))
          by (eapply Permutation_in; [symmetry; exact Hp | now left]).
        destruct Hin1 as [-> | Hin1]; [reflexivity|].
        destruct Hin2 as [-> | Hin2]; [reflexivity|].
        rewrite Forall_forall in Hall1, Hall2.
        pose proof (Hall1 _ Hin2) as L1. pose proof (Hall2 _ Hin1) as L2.
        unfold key_lt in L1, L2.
        pose proof (ltb_trans _ _ _ L1 L2) as L. rewrite ltb_irrefl in L.
        discriminate. }
      subst a2. f_equal. apply IH; try assumption.
      eapply Permutation_cons_inv. exact Hp.
Qed.

(** [sorted] does not depend on the insertion order of a [dict]. *)
Lemma sorted_order_free (l l' : list (string * V)) :
  is_dict l -> Permutation l l' -> sorted l = sorted l'.
Proof.
  intros Hd Hp.
  assert (Hd' : is_dict l').
  { unfold is_dict in *. eapply Permutation_NoDup; [apply keys_perm, Hp | exact Hd]. }
  apply sorted_unique; try (apply sorted_sorted; assumption).
  rewrite !sorted_perm. exact Hp.
Qed.

Lemma is_dict_NoDup d : is_dict d -> NoDup d.
Proof. unfold is_dict, keys. apply NoDup_map_inv. Qed.

Lemma lookup_perm d d' k :
  is_dict d -> Permutation d d' -> lookup k d = lookup k d'.
Proof.
  intros Hd Hp.
  assert (Hd' : is_dict d').
  { unfold is_dict in *. eapply Permutation_NoDup; [apply keys_perm, Hp | exact Hd]. }
  destruct (lookup k d) as [v|] eqn:E.
  - symmetry. apply (lookup_In _ _ Hd'). apply (lookup_In _ _ Hd) in E.
    eapply Permutation_in; eassumption.
  - symmetry. apply lookup_None. apply lookup_None in E.
    intro Hin. apply E.
    eapply Permutation_in; [symmetry; apply keys_perm, Hp | exact Hin].
Qed.

(** Two [dict]s with the same content have the same items. *)
Lemma same_lookup_perm d d' :
  is_dict d -> is_dict d' -> (forall k, lookup k d = lookup k d') -> Permutation d d'.
Proof.
  intros Hd Hd' Hl.
  apply NoDup_Permutation; try (apply is_dict_NoDup; assumption).
  intros [k v]. rewrite <- (lookup_In _ _ Hd), <- (lookup_In _ _ Hd'), Hl. tauto.
Qed.

Lemma dict_update_order_free e e' d d' :
  is_dict e -> is_dict d -> Permutation e e' -> Permutation d d' ->
  sorted (dict_update e d) = sorted (dict_update e' d').
Proof.
  intros He Hd Hpe Hpd.
  assert (He' : is_dict e').
  { unfold is_dict in *. eapply Permutation_NoDup; [apply keys_perm, Hpe | exact He]. }
  assert (Hd' : is_dict d').
  { unfold is_dict in *. eapply Permutation_NoDup; [apply keys_perm, Hpd | exact Hd]. }
  apply sorted_order_free; [apply is_dict_update, He|].
  apply same_lookup_perm; try (apply is_dict_update; assumption).
  intro k. rewrite !lookup_dict_update by assumption.
  rewrite (lookup_perm k Hd Hpd), (lookup_perm k He Hpe). reflexivity.
Qed.

End Dicts.

Lemma extra_params_of_with (extra : Dict Value) (c : Client) :
  extra_params_of (with_extra_params (Some extra) c) = extra.
Proof. unfold extra_params_of. destruct extra; reflexivity. Qed.

(** C7, as the code has it.  The parameters of the call override the
    defaults of the client on a key collision; the merged parameters are
    in strictly increasing order of key; the query string lists them
    first and the parameters of the authentication after them, in their
    fixed order, followed by the signature when there is one; and the URL
    depends on the content of the two mappings only, not on the order in
    which their entries were inserted. *)
Theorem params_merged_sorted (c : Client) (extra d : Dict Value) (path : string)
    (accepts_clientid : bool) :
  is_dict extra -> is_dict d ->
  let self := with_extra_params (Some extra) c in
  let merged := merged_params self (PDict d) in
  (forall k, lookup k merged
             = match lookup k d with
               | Some v => Some v
               | None => lookup k extra
               end) /\
  StronglySorted key_lt merged /\
  (forall url,
     _generate_auth_url self path (PDict d) accepts_clientid = Return url ->
     exists signature,
       url = (path ++ "?"
              ++ urllib.urlencode (merged ++ auth_params self accepts_clientid)
              ++ signature)%string) /\
  (forall extra' d', Permutation extra extra' -> Permutation d d' ->
     _generate_auth_url (with_extra_params (Some extra') c) path (PDict d')
                        accepts_clientid
     = _generate_auth_url self path (PDict d) accepts_clientid).
Proof.
  intros He Hd self merged.
  assert (Hm : merged = sorted (dict_update extra d)).
  { unfold merged, merged_params, self. now rewrite extra_params_of_with. }
  assert (Hdm : is_dict (dict_update extra d)) by (apply is_dict_update, He).
  split; [|split; [|split]].
  - intro k. rewrite Hm, <- (lookup_dict_update extra k Hd).
    symmetry. apply lookup_perm; [exact Hdm|].
    symmetry. apply sorted_perm.
  - rewrite Hm. apply sorted_sorted, Hdm.
  - intros url. rewrite _generate_auth_url_spec. cbv zeta. fold merged.
    destruct (accepts_clientid && truthy (client_id self) && truthy (client_secret self)).
    + destruct (sign_hmac _ _) as [sig|e]; cbn [rbind]; [|discriminate].
      intros [= <-]. exists ("&signature=" ++ sig)%string.
      now rewrite !append_assoc.
    + destruct (truthy (key self)); [|discriminate].
      intros [= <-]. exists ""%string. now rewrite append_nil_r.
  - intros extra' d' Hpe Hpd.
    rewrite !_generate_auth_url_spec. cbv zeta.
    assert (Hsame : merged_params (with_extra_params (Some extra') c) (PDict d')
                    = merged_params self (PDict d)).
    { unfold merged_params, self. rewrite !extra_params_of_with.
      symmetry. now apply dict_update_order_free. }
    rewrite Hsame. reflexivity.
Qed.

Lemma params_merged_sorted_witness :
  _generate_auth_url
    (with_extra_params (Some [("language", VStr "en"); ("address", VStr "default")])
                       api_client)
    "/maps/api/geocode/json"
    (PDict [("region", VStr "us"); ("address", VStr "Sesame St.")]) true
  = _generate_auth_url
      (with_extra_params (Some [("address", VStr "default"); ("language", VStr "en")])
                         api_client)
      "/maps/api/geocode/json"
      (PDict [("address", VStr "Sesame St."); ("region", VStr "us")]) true.
Proof.
  assert (He : is_dict [("address", VStr "default"); ("language", VStr "en")]).
  { unfold is_dict. cbn. repeat constructor; cbn; intuition discriminate. }
  assert (Hd : is_dict [("address", VStr "Sesame St."); ("region", VStr "us")]).
  { unfold is_dict. cbn. repeat constructor; cbn; intuition discriminate. }
  destruct (params_merged_sorted api_client "/maps/api/geocode/json" true He Hd)
    as (_ & _ & _ & H).
  apply H; apply perm_swap.
Defined.

(** The claim as the specification words it fails: the authentication
    parameter comes last, whatever its name. *)
Lemma query_not_sorted_by_key :
  exists url,
    _generate_auth_url api_client "/maps/api/geocode/json"
                       (PDict [("language", VStr "en")]) true = Return url /\
    url = "/maps/api/geocode/json?language=en&key=AIzaasdf" /\
    query_keys url = ["language"; "key"] /\
    ~ Sorted (fun a b => String.leb a b = true) (query_keys url).
Proof.
  eexists. split; [vm_compute; reflexivity|].
  split; [reflexivity|]. split; [reflexivity|].
  intro Hs. cbn in Hs. apply Sorted_inv in Hs. destruct Hs as [_ Hhd].
  inversion Hhd as [|? ? Hle]; subst. vm_compute in Hle. discriminate.
Qed.

(** ** The sliding window *)

Lemma deque_append_spec (maxlen : nat) (d : list Q) (x : Q) :
  (length d <= maxlen)%nat ->
  (length (deque_append maxlen d x) <= maxlen)%nat /\
  ((length d < maxlen)%nat -> deque_append maxlen d x = (d ++ [x])%list) /\
  (length d = maxlen -> (0 < maxlen)%nat ->
   deque_append maxlen d x = (tl d ++ [x])%list).
Proof.
  intro Hlen. unfold deque_append. split; [|split].
  - rewrite length_skipn, length_app. cbn [length]. lia.
  - intro Hlt. rewrite length_app. cbn [length].
    replace (length d + 1 - maxlen)%nat with 0%nat by lia. reflexivity.
  - intros Heq Hpos. rewrite length_app. cbn [length].
    replace (length d + 1 - maxlen)%nat with 1%nat by lia.
    destruct d as [|y rest]; [simpl in Heq; lia | reflexivity].
Qed.

(** What a call does to the window: on a result, one timestamp is
    appended, after a request was sent; on an exception, nothing. *)
Lemma _request_window (fuel : nat) :
  forall self url params t0 i base_url accepts_clientid extract_body post_json w r w',
    _request fuel self url params t0 i base_url accepts_clientid extract_body
             post_json w = Some (r, w') ->
    (sends w <= sends w')%nat /\
    match r with
    | Return _ =>
        (sends w < sends w')%nat /\
        sent_times w'
        = deque_append (queries_per_second self) (sent_times w) (clock w')
    | Raise _ => sent_times w' = sent_times w
    end.
Proof.
  induction fuel as [|fuel IH];
    intros self url params t0 i base_url accepts_clientid extract_body post_json
           w r w' Hrun; [discriminate|].
  cbn [_request] in Hrun.
  destruct (Qltb _ _).
  { injection Hrun as <- <-. split; [lia | reflexivity]. }
  destruct (backoff_frame i w) as (_ & Hs & _ & Ht).
  destruct (_generate_auth_url _ _ _ _) as [authed_url|e].
  2:{ injection Hrun as <- <-. split; [lia | exact Ht]. }
  unfold send in Hrun.
  destruct (remote (backoff i w) (sends (backoff i w)) _) as [d response|d|d descr].
  - destruct (is_retriable (status_code response)).
    + apply IH in Hrun. cbn [sends sent_times] in Hrun.
      destruct Hrun as [Hle Hr]. split; [lia|].
      destruct r; [|congruence].
      destruct Hr as [Hlt ->]. split; [lia | now rewrite Ht].
    + match type of Hrun with
      | context [rate_limit_wait self ?w1] =>
          destruct (rate_limit_wait_frame self w1) as (_ & Hs2 & _ & Ht2);
          cbn [sends sent_times] in Hs2, Ht2;
          remember (rate_limit_wait self w1) as w2 eqn:Hw2; clear Hw2
      end.
      destruct (match extract_body with
                | Some extract => extract response
                | None => _get_body response
                end) as [result|e].
      * injection Hrun as <- <-. cbn [record_sent sends sent_times clock].
        rewrite Hs2, Ht2, Ht. split; [lia|]. split; [lia | reflexivity].
      * destruct (isinstance e C__RetriableRequest).
        -- destruct (isinstance e C__OverQueryLimit && negb (retry_over_query_limit self)).
           ++ injection Hrun as <- <-. rewrite Hs2, Ht2, Ht. split; [lia | reflexivity].
           ++ apply IH in Hrun. rewrite Hs2, Ht2 in Hrun.
              destruct Hrun as [Hle Hr]. split; [lia|].
              destruct r; [|congruence].
              destruct Hr as [Hlt ->]. split; [lia | now rewrite Ht].
        -- injection Hrun as <- <-. rewrite Hs2, Ht2, Ht. split; [lia | reflexivity].
  - injection Hrun as <- <-. cbn [sends sent_times]. split; [lia | exact Ht].
  - injection Hrun as <- <-. cbn [sends sent_times]. split; [lia | exact Ht].
Qed.

(** C9.  The window never holds more than [queries_per_second] entries:
    the constructor makes it empty; an append at capacity drops the
    oldest entry; a call appends one timestamp when it returns a result,
    after a request was sent, and none when it raises; so every call
    keeps the bound. *)
Theorem window_bounded :
  (forall api_key id secret timeout connect_timeout read_timeout deadline qps
          chan retry_quota self window,
     Client_init api_key id secret timeout connect_timeout read_timeout deadline
                 qps chan retry_quota = Return (self, window) ->
     window = [] /\ queries_per_second self = qps) /\
  (forall maxlen d x, (length d <= maxlen)%nat ->
     (length (deque_append maxlen d x) <= maxlen)%nat /\
     (length d = maxlen -> (0 < maxlen)%nat ->
      deque_append maxlen d x = (tl d ++ [x])%list)) /\
  (forall fuel self url params t0 i base_url accepts_clientid extract_body
          post_json w r w',
     _request fuel self url params t0 i base_url accepts_clientid extract_body
              post_json w = Some (r, w') ->
     (length (sent_times w) <= queries_per_second self)%nat ->
     (length (sent_times w') <= queries_per_second self)%nat /\
     match r with
     | Return _ =>
         (sends w < sends w')%nat /\
         sent_times w'
         = deque_append (queries_per_second self) (sent_times w) (clock w')
     | Raise _ => sent_times w' = sent_times w
     end).
Proof.
  split; [|split].
  - intros until window. unfold Client_init.
    repeat match goal with
           | |- (if ?b then _ else _) = _ -> _ => destruct b; [discriminate|]
           end.
    destruct (timedelta deadline); cbn [rbind]; [|discriminate].
    intros [= <- <-]. split; reflexivity.
  - intros maxlen d x Hlen.
    destruct (@deque_append_spec maxlen d x Hlen) as (H1 & _ & H3). split; assumption.
  - intros fuel self url params t0 i base_url accepts_clientid extract_body
           post_json w r w' Hrun Hlen.
    destruct (_request_window _ _ _ _ _ _ _ _ _ _ _ Hrun) as [_ Hr].
    split; [|exact Hr].
    destruct r.
    + destruct Hr as [_ ->]. apply deque_append_spec, Hlen.
    + now rewrite Hr.
Qed.

(** ** The engine: quota, throttle, backoff, deadline *)

(** C5.  A response classified as over the query limit is retried, with
    the attempt counter incremented, exactly when the client retries on
    over-quota responses; otherwise the error, an [ApiError], is raised at
    once: the attempt that received it is the last one. *)
Theorem over_query_limit_retry (fuel : nat) (self : Client) (url : string)
    (params : Params) (t0 : option Q) (i : nat) (base_url : string)
    (accepts_clientid : bool) (post_json : option Json) (w : World)
    (authed_url : string) (d : Q) (response : Response)
    (items : list (string * Json)) :
  Qltb (retry_timeout self) (clock w - started t0 w) = false ->
  _generate_auth_url self url params accepts_clientid = Return authed_url ->
  remote w (sends w) (request_of base_url authed_url post_json) = Responded d response ->
  status_code response = 200%Z ->
  json response = Some (JObj items) ->
  lookup "status" items = Some (JStr "OVER_QUERY_LIMIT") ->
  let w2 := rate_limit_wait self
              (snd (send (request_of base_url authed_url post_json) (backoff i w))) in
  let e := _OverQueryLimit (JStr "OVER_QUERY_LIMIT") (error_message_of items) in
  (retry_over_query_limit self = true ->
   _request (S fuel) self url params t0 i base_url accepts_clientid None post_json w
   = _request fuel self url params (Some (started t0 w)) (S i) base_url
              accepts_clientid None post_json w2) /\
  (retry_over_query_limit self = false ->
   _request (S fuel) self url params t0 i base_url accepts_clientid None post_json w
   = Some (Raise e, w2) /\
   sends w2 = S (sends w) /\
   sent_times w2 = sent_times w /\
   isinstance e C_ApiError = true).
Proof.
  intros Hdeadline Hauth Hremote H200 Hjson Hstatus w2 e.
  rewrite (_request_responded fuel self url params t0 i base_url accepts_clientid
             None post_json w Hdeadline Hauth Hremote).
  cbv zeta. fold w2.
  assert (Hretry : is_retriable (status_code response) = false)
    by (rewrite H200; reflexivity).
  rewrite Hretry.
  destruct (_get_body_cases response) as [_ Hc].
  destruct (Hc H200) as (_ & _ & Hc').
  destruct (Hc' _ Hjson) as [_ Hc''].
  destruct (Hc'' _ Hstatus) as (_ & Hover & _).
  destruct (Hover eq_refl) as [Hbody _]. rewrite Hbody. fold e.
  change (isinstance e C__RetriableRequest) with true.
  change (isinstance e C__OverQueryLimit) with true.
  cbv iota. cbn [andb]. split.
  - intros ->. reflexivity.
  - intros ->. cbn [negb]. split; [reflexivity|].
    unfold w2.
    match goal with
    | |- context [rate_limit_wait self ?w1] =>
        destruct (rate_limit_wait_frame self w1) as (_ & -> & _ & ->)
    end.
    destruct (backoff_frame i w) as (_ & Hs & _ & Ht).
    unfold send. cbn [snd sends sent_times]. rewrite Hs, Ht.
    repeat split.
Qed.

Lemma rate_limit_wait_spec (self : Client) (w : World) :
  rate_limit_wait self w
  = if window_hot self w then
      let wait := 1 - (clock w - hd 0 (sent_times w)) in
      sleep wait (EvThrottle wait) w
    else w.
Proof.
  unfold rate_limit_wait, window_hot.
  destruct (sent_times w) as [|earliest rest]; [reflexivity|].
  destruct (_ =? _)%nat; [|reflexivity].
  cbn [andb hd]. destruct (Qltb _ _); reflexivity.
Qed.

(** C2, as the code has it.  The request of an attempt is dispatched
    right after the backoff sleep, whatever the window holds.  When it
    raises, or is answered with a retriable status, no rate-limit check is
    run.  When it is answered with another status, the check is run once,
    after the response and before the body is classified: with a
    non-empty window of exactly [queries_per_second] timestamps whose
    oldest is less than a second old, the engine sleeps for the rest of
    that second. *)
Theorem throttle_after_response (fuel : nat) (self : Client) (url : string)
    (params : Params) (t0 : option Q) (i : nat) (base_url : string)
    (accepts_clientid : bool) (extract_body : option (Response -> Result Json))
    (post_json : option Json) (w : World) (authed_url : string) :
  Qltb (retry_timeout self) (clock w - started t0 w) = false ->
  _generate_auth_url self url params accepts_clientid = Return authed_url ->
  let rq := request_of base_url authed_url post_json in
  let outcome := remote w (sends w) rq in
  let w1 := snd (send rq (backoff i w)) in
  let run := _request (S fuel) self url params t0 i base_url accepts_clientid
                      extract_body post_json w in
  trace w1 = EvSend (clock (backoff i w)) rq outcome :: trace (backoff i w) /\
  (forall d, outcome = TimedOut d -> run = Some (Raise Timeout, w1)) /\
  (forall d descr, outcome = Failed d descr ->
     run = Some (Raise (TransportError (Some descr)), w1)) /\
  (forall d response, outcome = Responded d response ->
     is_retriable (status_code response) = true ->
     run = _request fuel self url params (Some (started t0 w)) (S i) base_url
                    accepts_clientid extract_body post_json w1) /\
  (forall d response, outcome = Responded d response ->
     is_retriable (status_code response) = false ->
     let wait := 1 - (clock w1 - hd 0 (sent_times w1)) in
     let w2 := if window_hot self w1 then sleep wait (EvThrottle wait) w1 else w1 in
     match match extract_body with
           | Some extract => extract response
           | None => _get_body response
           end with
     | Return result => run = Some (Return result, record_sent self w2)
     | Raise e =>
         if isinstance e C__RetriableRequest then
           if isinstance e C__OverQueryLimit && negb (retry_over_query_limit self)
           then run = Some (Raise e, w2)
           else run = _request fuel self url params (Some (started t0 w)) (S i)
                               base_url accepts_clientid extract_body post_json w2
         else run = Some (Raise e, w2)
     end).
Proof.
  intros Hdeadline Hauth rq outcome w1 run.
  destruct (backoff_frame i w) as (Hr & Hs & _ & _).
  assert (Hout : remote (backoff i w) (sends (backoff i w)) rq = outcome)
    by (rewrite Hr, Hs; reflexivity).
  split; [|split; [|split; [|split]]].
  - unfold w1, send. cbn [snd trace]. now rewrite Hout.
  - intros d Hd. unfold run, w1. cbn [_request].
    rewrite Hdeadline, Hauth. unfold send.
    change {| request_url := (base_url ++ authed_url)%string;
              request_json := post_json |} with rq.
    rewrite Hout, Hd. reflexivity.
  - intros d descr Hd. unfold run, w1. cbn [_request].
    rewrite Hdeadline, Hauth. unfold send.
    change {| request_url := (base_url ++ authed_url)%string;
              request_json := post_json |} with rq.
    rewrite Hout, Hd. reflexivity.
  - intros d response Hd Hretry. unfold run.
    rewrite (_request_responded fuel self url params t0 i base_url accepts_clientid
               extract_body post_json w Hdeadline Hauth Hd).
    cbv zeta. rewrite Hretry. reflexivity.
  - intros d response Hd Hretry. cbv zeta. unfold run.
    rewrite (_request_responded fuel self url params t0 i base_url accepts_clientid
               extract_body post_json w Hdeadline Hauth Hd).
    cbv zeta. rewrite Hretry. fold rq. fold w1.
    rewrite (rate_limit_wait_spec self w1). cbv zeta.
    destruct (match extract_body with
              | Some extract => extract response
              | None => _get_body response
              end) as [result|e]; [reflexivity|].
    destruct (isinstance e C__RetriableRequest); [|reflexivity].
    destruct (isinstance e C__OverQueryLimit && negb (retry_over_query_limit self));
      reflexivity.
Qed.

(** *** Backoff *)

Lemma backoff_delay_1 : backoff_delay 1 = 1 # 2.
Proof. reflexivity. Qed.

Lemma backoff_delay_2 : backoff_delay 2 = 3 # 4.
Proof. reflexivity. Qed.

Lemma backoff_delay_3 : backoff_delay 3 = 9 # 8.
Proof. reflexivity. Qed.

Lemma backoff_delay_formula (i : nat) :
  (1 <= i)%nat -> backoff_delay i == (1 # 2) * (3 # 2) ^ (Z.of_nat i - 1).
Proof.
  intro Hi. unfold backoff_delay.
  replace (Z.of_nat (i - 1)) with (Z.of_nat i - 1)%Z by lia. reflexivity.
Qed.

Lemma backoff_delay_step (i : nat) :
  backoff_delay (S (S i)) == (3 # 2) * backoff_delay (S i).
Proof.
  unfold backoff_delay.
  replace (Z.of_nat (S (S i) - 1)) with (Z.of_nat (S i - 1) + 1)%Z by lia.
  rewrite Qpower_plus by discriminate.
  change ((3 # 2) ^ 1) with (3 # 2). ring.
Qed.

Lemma half_le_backoff_delay (i : nat) : 1 # 2 <= backoff_delay i.
Proof.
  unfold backoff_delay.
  assert (H : 1 <= (3 # 2) ^ Z.of_nat (i - 1)).
  { apply Qpower_1_le; [discriminate | lia]. }
  lra.
Qed.

Lemma backoff_delay_increasing (i : nat) :
  backoff_delay (S i) < backoff_delay (S (S i)).
Proof.
  rewrite backoff_delay_step. pose proof (half_le_backoff_delay (S i)). lra.
Qed.

Lemma backoff_retry (i : nat) (w : World) :
  (1 <= i)%nat ->
  let f := random_random w (draws w) + (1 # 2) in
  backoff i w
  = {| clock := clock w + backoff_delay i * f; sent_times := sent_times w;
       remote := remote w; sends := sends w;
       random_random := random_random w; draws := S (draws w);
       trace := EvBackoff (backoff_delay i) f :: trace w |}.
Proof.
  intro Hi. unfold backoff.
  destruct (0 <? i)%nat eqn:E; [reflexivity|].
  apply Nat.ltb_ge in E. lia.
Qed.

(** A backoff sleep lasts a quarter of a second at least. *)
Lemma backoff_sleeps (i : nat) (w : World) :
  (1 <= i)%nat -> well_behaved w ->
  clock w + (1 # 4) <= clock (backoff i w).
Proof.
  intros Hi [_ Hrand]. rewrite (backoff_retry w Hi). cbn [clock].
  pose proof (half_le_backoff_delay i) as Hd.
  destruct (Hrand (draws w)) as [Hr _].
  assert (H : (1 # 2) * (random_random w (draws w) + (1 # 2))
              <= backoff_delay i * (random_random w (draws w) + (1 # 2))).
  { apply Qmult_le_compat_r; [exact Hd | lra]. }
  lra.
Qed.

Lemma well_behaved_frame (w w' : World) :
  remote w' = remote w -> random_random w' = random_random w ->
  well_behaved w -> well_behaved w'.
Proof. intros Hr Hd [H1 H2]. split; rewrite ?Hr, ?Hd; assumption. Qed.

Lemma always_retriable_frame (w w' : World) :
  remote w' = remote w -> always_retriable w -> always_retriable w'.
Proof. intros Hr H n r. rewrite Hr. apply H. Qed.

(** The world after the request of an attempt. *)
Lemma sent_frame (rq : Request) (w : World) :
  let w1 := snd (send rq w) in
  remote w1 = remote w /\ random_random w1 = random_random w /\
  sends w1 = S (sends w) /\ draws w1 = draws w /\
  sent_times w1 = sent_times w /\
  clock w1 = clock w + took (remote w (sends w) rq) /\
  trace w1 = EvSend (clock w) rq (remote w (sends w) rq) :: trace w.
Proof. cbv zeta. unfold send. cbn [snd]. repeat split. Qed.


(** *** The deadline *)

Lemma inject_nat_succ (n : nat) :
  inject_Z (Z.of_nat (S n)) == inject_Z (Z.of_nat n) + 1.
Proof. rewrite Nat2Z.inj_succ. unfold Z.succ. rewrite inject_Z_plus. reflexivity. Qed.

(** Against a remote that always answers with a retriable status, the
    retries run into the deadline: each one sleeps a quarter of a second
    at least.  At the check that fails, the deadline is exceeded by no
    more than the time of the last attempt. *)
Lemma retry_until_deadline (self : Client) (url : string) (params : Params)
    (base_url : string) (accepts_clientid : bool)
    (extract_body : option (Response -> Result Json)) (post_json : option Json)
    (authed_url : string) (t0 : Q) (tr0 : list Event) :
  _generate_auth_url self url params accepts_clientid = Return authed_url ->
  forall (n i : nat) (w : World) (tr : list Event),
    (1 <= i)%nat -> well_behaved w -> always_retriable w ->
    trace w = (tr ++ tr0)%list ->
    retry_timeout self - (clock w - t0) < inject_Z (Z.of_nat n) * (1 # 4) ->
    clock w - t0 <= retry_timeout self + last_attempt_cost tr ->
    exists w' tr',
      _request (S n) self url params (Some t0) i base_url accepts_clientid
               extract_body post_json w = Some (Raise Timeout, w') /\
      trace w' = (tr' ++ tr0)%list /\
      retry_timeout self < clock w' - t0 /\
      clock w' - t0 <= retry_timeout self + last_attempt_cost tr'.
Proof.
  intros Hauth n.
  induction n as [|n IH]; intros i w tr Hi Hwb Hremote Htrace Hleft Hcost;
    destruct (Qltb (retry_timeout self) (clock w - t0)) eqn:E.
  - exists w, tr. cbn [_request started]. rewrite E.
    apply Qltb_true in E. auto.
  - apply Qltb_false in E. change (inject_Z (Z.of_nat 0)) with 0 in Hleft. lra.
  - exists w, tr. cbn [_request started]. rewrite E.
    apply Qltb_true in E. auto.
  - set (rq := request_of base_url authed_url post_json).
    destruct (Hremote (sends w) rq) as (d & response & Hrem & Hretry).
    rewrite (_request_responded (S n) self url params (Some t0) i base_url
               accepts_clientid extract_body post_json w E Hauth Hrem).
    cbv zeta. rewrite Hretry. fold rq. cbn [started].
    set (w1 := snd (send rq (backoff i w))).
    destruct (backoff_frame i w) as (Hbr & Hbs & Hbd & _).
    destruct (sent_frame rq (backoff i w)) as (Hr & Hd & _ & _ & _ & Hc & Ht).
    fold w1 in Hr, Hd, Hc, Ht.
    rewrite Hbr, Hbs, Hrem in Hc, Ht. cbn [took] in Hc.
    assert (Hd0 : 0 <= d).
    { destruct Hwb as [Htook _]. generalize (Htook (sends w) rq).
      rewrite Hrem. auto. }
    pose proof (backoff_sleeps Hi Hwb) as Hsleep.
    rewrite (backoff_retry w Hi) in Hc, Ht. cbn [clock trace] in Hc, Ht.
    apply Qltb_false in E.
    apply (IH (S i) w1
              (EvSend (clock w
                       + backoff_delay i * (random_random w (draws w) + (1 # 2)))
                      rq (Responded d response)
               :: EvBackoff (backoff_delay i) (random_random w (draws w) + (1 # 2))
               :: tr)).
    + lia.
    + apply (@well_behaved_frame w w1); [congruence | congruence | exact Hwb].
    + apply (@always_retriable_frame w w1); [congruence | exact Hremote].
    + rewrite Ht, Htrace. reflexivity.
    + rewrite Hc. rewrite inject_nat_succ in Hleft.
      rewrite (backoff_retry w Hi) in Hsleep. cbn [clock] in Hsleep. lra.
    + rewrite Hc. cbn [last_attempt_cost took]. lra.
Qed.

(** C1, as the code has it.  The elapsed time is compared with the
    deadline before anything else in every attempt, and a strictly larger
    elapsed time raises [Timeout] whatever the attempt counter.  Against a
    remote that always answers with a retriable status the engine
    therefore ends with [Timeout]; when it does, the deadline is exceeded
    by no more than the last attempt took: its backoff sleep and its
    request. *)
Theorem deadline_bounds_retries :
  (forall fuel self url params t0 i base_url accepts_clientid extract_body
          post_json w,
     retry_timeout self < clock w - started t0 w ->
     _request (S fuel) self url params t0 i base_url accepts_clientid
              extract_body post_json w = Some (Raise Timeout, w)) /\
  (forall self url params w authed_url,
     0 <= retry_timeout self -> well_behaved w -> always_retriable w ->
     _generate_auth_url self url params true = Return authed_url ->
     exists fuel w' tr,
       request fuel self url params w = Some (Raise Timeout, w') /\
       trace w' = (tr ++ trace w)%list /\
       retry_timeout self < clock w' - clock w /\
       clock w' - clock w <= retry_timeout self + last_attempt_cost tr).
Proof.
  split.
  - intros fuel self url params t0 i base_url accepts_clientid extract_body
           post_json w Hlate.
    cbn [_request]. apply Qltb_true in Hlate. rewrite Hlate. reflexivity.
  - intros self url params w authed_url HT Hwb Hremote Hauth.
    set (rq := request_of _DEFAULT_BASE_URL authed_url None).
    destruct (Hremote (sends w) rq) as (d & response & Hrem & Hretry).
    assert (Hd0 : 0 <= d).
    { destruct Hwb as [Htook _]. generalize (Htook (sends w) rq).
      rewrite Hrem. auto. }
    set (n := Z.to_nat (Qfloor (4 * retry_timeout self) + 1)).
    assert (Hn : 4 * retry_timeout self < inject_Z (Z.of_nat n)).
    { unfold n. rewrite Z2Nat.id.
      - apply Qlt_floor.
      - assert (0 <= Qfloor (4 * retry_timeout self))%Z; [|lia].
        change 0%Z with (Qfloor 0). apply Qfloor_resp_le. lra. }
    assert (E : Qltb (retry_timeout self) (clock w - started None w) = false).
    { apply Qltb_false. cbn [started]. lra. }
    set (w1 := snd (send rq (backoff 0 w))).
    destruct (sent_frame rq (backoff 0 w)) as (Hr & Hd & _ & _ & _ & Hc & Ht).
    fold w1 in Hr, Hd, Hc, Ht.
    change (backoff 0 w) with w in Hr, Hd, Hc, Ht.
    rewrite Hrem in Hc, Ht. cbn [took] in Hc.
    destruct (@retry_until_deadline self url params _DEFAULT_BASE_URL true None None
                authed_url (clock w) (trace w) Hauth n 1%nat w1
                [EvSend (clock w) rq (Responded d response)])
      as (w' & tr' & Hrun & Htr & Hover & Hbound).
    + lia.
    + apply (@well_behaved_frame w w1); [congruence | congruence | exact Hwb].
    + apply (@always_retriable_frame w w1); [congruence | exact Hremote].
    + rewrite Ht. reflexivity.
    + rewrite Hc. lra.
    + rewrite Hc. cbn [last_attempt_cost took]. lra.
    + exists (S (S n)), w', tr'. split; [|auto].
      unfold request.
      rewrite (_request_responded (S n) self url params None 0 _DEFAULT_BASE_URL
                 true None None w E Hauth Hrem).
      cbv zeta. rewrite Hretry. exact Hrun.
Qed.

(** ** Runs on the fixtures *)

Lemma fixture_well_behaved (t : Q) (window : list Q)
    (answers : nat -> Request -> Outcome) (r : Q) :
  (forall n rq, 0 <= took (answers n rq)) -> 0 <= r -> r < 1 ->
  well_behaved (world t window answers r).
Proof. intros Ha H0 H1. split; cbn; auto. Qed.

Lemma scripted_took (script : list Outcome) (default : Outcome) :
  Forall (fun o => 0 <= took o) script -> 0 <= took default ->
  forall n rq, 0 <= took (scripted script default n rq).
Proof.
  intros Hs Hd n rq. unfold scripted. revert n.
  induction Hs as [|o rest Ho _ IH]; intros [|n]; cbn; auto.
Qed.

Lemma deadline_bounds_retries_witness :
  exists fuel w' tr,
    request fuel (with_deadline 1 api_client) geocode_path geocode_params
            (world 0 [] always_503 (1 # 2)) = Some (Raise Timeout, w') /\
    trace w' = (tr ++ [])%list /\
    1 < clock w' - 0 /\
    clock w' - 0 <= 1 + last_attempt_cost tr.
Proof.
  apply (proj2 deadline_bounds_retries (with_deadline 1 api_client) geocode_path
               geocode_params (world 0 [] always_503 (1 # 2)) geocode_url).
  - cbn. lra.
  - apply fixture_well_behaved; [|lra|lra].
    apply scripted_took; [constructor | cbn; lra].
  - intros n rq. exists 0, (http 503 None). split; [|reflexivity].
    unfold always_503, scripted. cbn. destruct n; reflexivity.
  - vm_compute. reflexivity.
Defined.

(** The claim as the specification words it fails: with requests that
    take no time and a jitter factor of 1, the 1-second deadline is found
    exceeded at 1.25 seconds, a quarter of a second more than the
    duration of the request in flight. *)
Lemma deadline_overshoot_exceeds_request :
  exists w',
    request 4 (with_deadline 1 api_client) geocode_path geocode_params
            (world 0 [] always_503 (1 # 2)) = Some (Raise Timeout, w') /\
    clock w' == 5 # 4 /\
    last_in_flight (trace w') == 0 /\
    ~ (clock w' - 0 <= 1 + last_in_flight (trace w')).
Proof.
  eexists. split; [vm_compute; reflexivity|].
  split; [reflexivity|]. split; [reflexivity|].
  intro H. vm_compute in H. apply H. reflexivity.
Qed.

Lemma throttle_after_response_witness :
  request 1 (with_rate 2 api_client) geocode_path geocode_params
          (world 0 [0; 0] always_ok (1 # 2))
  = Some (Return ok_body,
          record_sent (with_rate 2 api_client)
            (sleep 1 (EvThrottle 1)
               (snd (send (request_of _DEFAULT_BASE_URL geocode_url None)
                          (world 0 [0; 0] always_ok (1 # 2)))))).
Proof.
  destruct (@throttle_after_response 0 (with_rate 2 api_client) geocode_path
              geocode_params None 0 _DEFAULT_BASE_URL true None None
              (world 0 [0; 0] always_ok (1 # 2)) geocode_url)
    as (_ & _ & _ & _ & H).
  - reflexivity.
  - vm_compute. reflexivity.
  - exact (H 0 (http 200 (Some ok_body)) eq_refl eq_refl).
Defined.

(** The claim as the specification words it fails: with a full window
    whose oldest entry is fresh, the request is dispatched at once and the
    sleep comes after the response; and a request answered with 503 is
    followed by no rate-limit sleep at all. *)
Lemma throttle_not_before_dispatch :
  (exists w',
     window_hot (with_rate 2 api_client) (world 0 [0; 0] always_ok (1 # 2)) = true /\
     request 1 (with_rate 2 api_client) geocode_path geocode_params
             (world 0 [0; 0] always_ok (1 # 2)) = Some (Return ok_body, w') /\
     dispatch_times (trace w') = [0] /\
     throttles (trace w') = [1] /\
     throttled_before_send (trace w') = false) /\
  (exists w',
     window_hot (with_rate 2 api_client) (world 0 [0; 0] always_503 (1 # 2)) = true /\
     request 4 (with_deadline 1 (with_rate 2 api_client)) geocode_path geocode_params
             (world 0 [0; 0] always_503 (1 # 2)) = Some (Raise Timeout, w') /\
     length (dispatch_times (trace w')) = 3%nat /\
     throttles (trace w') = []).
Proof.
  split.
  - eexists. split; [reflexivity|]. split; [vm_compute; reflexivity|].
    repeat split.
  - eexists. split; [reflexivity|]. split; [vm_compute; reflexivity|].
    repeat split.
Qed.

Lemma over_query_limit_retry_witness :
  request 1 (without_quota_retry api_client) geocode_path geocode_params
          (world 0 [] always_over_limit (1 # 2))
  = Some (Raise (_OverQueryLimit (JStr "OVER_QUERY_LIMIT") (JStr "quota")),
          snd (send (request_of _DEFAULT_BASE_URL geocode_url None)
                    (world 0 [] always_over_limit (1 # 2)))) /\
  request 2 api_client geocode_path geocode_params
          (world 0 [] always_over_limit (1 # 2))
  = _request 1 api_client geocode_path geocode_params (Some 0) 1 _DEFAULT_BASE_URL
             true None None
             (snd (send (request_of _DEFAULT_BASE_URL geocode_url None)
                        (world 0 [] always_over_limit (1 # 2)))).
Proof.
  assert (Hstatus : lookup "status" [("status", JStr "OVER_QUERY_LIMIT");
                                     ("error_message", JStr "quota")]
                    = Some (JStr "OVER_QUERY_LIMIT")) by reflexivity.
  split.
  - destruct (@over_query_limit_retry 0 (without_quota_retry api_client) geocode_path
                geocode_params None 0 _DEFAULT_BASE_URL true None
                (world 0 [] always_over_limit (1 # 2)) geocode_url 0
                (http 200 (Some over_limit_body)) _
                eq_refl eq_refl eq_refl eq_refl eq_refl Hstatus) as [_ H].
    exact (proj1 (H eq_refl)).
  - destruct (@over_query_limit_retry 1 api_client geocode_path
                geocode_params None 0 _DEFAULT_BASE_URL true None
                (world 0 [] always_over_limit (1 # 2)) geocode_url 0
                (http 200 (Some over_limit_body)) _
                eq_refl eq_refl eq_refl eq_refl eq_refl Hstatus) as [H _].
    exact (H eq_refl).
Defined.

Lemma window_bounded_witness :
  exists w',
    request 1 (with_rate 2 api_client) geocode_path geocode_params
            (world 0 [0; 0] always_ok (1 # 2)) = Some (Return ok_body, w') /\
    (length (sent_times w') <= 2)%nat /\
    sent_times w' = deque_append 2 [0; 0] (clock w').
Proof.
  pose (w' := record_sent (with_rate 2 api_client)
                (sleep 1 (EvThrottle 1)
                   (snd (send (request_of _DEFAULT_BASE_URL geocode_url None)
                              (world 0 [0; 0] always_ok (1 # 2)))))).
  assert (Hrun : request 1 (with_rate 2 api_client) geocode_path geocode_params
                         (world 0 [0; 0] always_ok (1 # 2))
                 = Some (Return ok_body, w')) by (vm_compute; reflexivity).
  exists w'. split; [exact Hrun|].
  destruct window_bounded as (_ & _ & H).
  destruct (H _ _ _ _ _ _ _ _ _ _ _ _ _ Hrun) as [Hlen [_ Hwin]]; [cbn; lia|].
  split; [exact Hlen | exact Hwin].
Defined.

Lemma HTTPError_is_TransportError_witness :
  exists e w',
    request 1 api_client geocode_path geocode_params
            (world 0 [] (scripted [] (Responded 0 (http 404 None))) (1 # 2))
    = Some (Raise e, w') /\
    e = HTTPError 404 /\
    isinstance e C_TransportError = true /\
    isinstance e C_HTTPError = true.
Proof.
  destruct HTTPError_is_TransportError as (_ & _ & H).
  apply (H 0%nat api_client geocode_path geocode_params None 0%nat _DEFAULT_BASE_URL
           true None
           (world 0 [] (scripted [] (Responded 0 (http 404 None))) (1 # 2))
           geocode_url 0 (http 404 None)).
  - reflexivity.
  - vm_compute. reflexivity.
  - reflexivity.
  - discriminate.
  - reflexivity.
Defined.

(** * Further properties *)

(** ** Runs *)

Section RunFacts.

Variables (self : Client) (url : string) (params : Params) (base_url : string)
          (accepts_clientid : bool)
          (extract_body : option (Response -> Result Json))
          (post_json : option Json).

Lemma _request_started (fuel : nat) (o : option Q) (i : nat) (w : World) :
  _request fuel self url params o i base_url accepts_clientid extract_body
           post_json w
  = _request fuel self url params (Some (started o w)) i base_url accepts_clientid
             extract_body post_json w.
Proof. destruct fuel; reflexivity. Qed.

(** One attempt of [_request], case by case. *)
Lemma _request_unfold (fuel : nat) (t0 : Q) (i : nat) (w : World) :
  _request (S fuel) self url params (Some t0) i base_url accepts_clientid
           extract_body post_json w
  = if Qltb (retry_timeout self) (clock w - t0) then Some (Raise Timeout, w)
    else
      match _generate_auth_url self url params accepts_clientid with
      | Raise e => Some (Raise e, backoff i w)
      | Return authed_url =>
          let w1 := after_send base_url post_json authed_url i w in
          match remote w (sends w) (request_of base_url authed_url post_json) with
          | TimedOut _ => Some (Raise Timeout, w1)
          | Failed _ descr => Some (Raise (TransportError (Some descr)), w1)
          | Responded _ response =>
              if is_retriable (status_code response) then
                _request fuel self url params (Some t0) (S i) base_url
                         accepts_clientid extract_body post_json w1
              else
                let w2 := rate_limit_wait self w1 in
                match extracted extract_body response with
                | Return result => Some (Return result, record_sent self w2)
                | Raise e =>
                    if retried self e then
                      _request fuel self url params (Some t0) (S i) base_url
                               accepts_clientid extract_body post_json w2
                    else Some (Raise e, w2)
                end
          end
      end.
Proof.
  cbn [_request started].
  destruct (Qltb _ _); [reflexivity|].
  destruct (_generate_auth_url _ _ _ _) as [authed_url|e]; [|reflexivity].
  cbv zeta. unfold after_send, send, request_of.
  destruct (backoff_frame i w) as (Hr & Hs & _ & _).
  remember (remote (backoff i w) (sends (backoff i w))
                   {| request_url := (base_url ++ authed_url)%string;
                      request_json := post_json |}) as o eqn:Ho.
  assert (Ho' : remote w (sends w)
                       {| request_url := (base_url ++ authed_url)%string;
                          request_json := post_json |} = o)
    by (rewrite Ho, Hr, Hs; reflexivity).
  rewrite Ho'. clear Ho Ho'.
  destruct o as [d response|d|d descr]; cbn [snd]; try reflexivity.
  destruct (is_retriable (status_code response)); [reflexivity|].
  unfold extracted, retried.
  destruct (match extract_body with
            | Some extract => extract response
            | None => _get_body response
            end) as [result|e]; [reflexivity|].
  destruct (isinstance e C__RetriableRequest); [|reflexivity].
  destruct (isinstance e C__OverQueryLimit && negb (retry_over_query_limit self));
    reflexivity.
Qed.

(** What [_request] computes is a run. *)
Lemma _request_Run (t0 : Q) (fuel : nat) :
  forall i w r w',
    _request fuel self url params (Some t0) i base_url accepts_clientid
             extract_body post_json w = Some (r, w') ->
    Run self url params base_url accepts_clientid extract_body post_json t0
        i w r w'.
Proof.
  induction fuel as [|fuel IH]; intros i w r w' Hrun; [discriminate|].
  rewrite _request_unfold in Hrun.
  destruct (Qltb _ _) eqn:Hdl.
  { injection Hrun as <- <-. apply Run_deadline, Qltb_true, Hdl. }
  apply Qltb_false in Hdl.
  destruct (_generate_auth_url _ _ _ _) as [authed_url|e] eqn:Hauth.
  2:{ injection Hrun as <- <-. now apply Run_no_auth. }
  cbv zeta in Hrun.
  destruct (remote w (sends w) _) as [d response|d|d descr] eqn:Hrem.
  - destruct (is_retriable (status_code response)) eqn:Hretry.
    + eapply Run_retry_status; eauto.
    + destruct (extracted extract_body response) as [result|e] eqn:Hex.
      * injection Hrun as <- <-. eapply Run_return; eauto.
      * destruct (retried self e) eqn:Hre.
        -- eapply Run_retry_quota; eauto.
        -- injection Hrun as <- <-. eapply Run_raise; eauto.
  - injection Hrun as <- <-. eapply Run_timed_out; eauto.
  - injection Hrun as <- <-. eapply Run_failed; eauto.
Qed.

(** A run is computed by [_request], with fuel for its attempts. *)
Lemma Run__request (t0 : Q) (i : nat) (w : World) (r : Result Json) (w' : World) :
  Run self url params base_url accepts_clientid extract_body post_json t0
      i w r w' ->
  exists fuel,
    _request fuel self url params (Some t0) i base_url accepts_clientid
             extract_body post_json w = Some (r, w').
Proof.
  induction 1 as [i w Hlate | i w e Hdl Hauth | i w authed_url d Hdl Hauth Hrem
                 | i w authed_url d descr Hdl Hauth Hrem
                 | i w authed_url d response r w' Hdl Hauth Hrem Hretry _ [fuel IH]
                 | i w authed_url d response result Hdl Hauth Hrem Hretry Hex
                 | i w authed_url d response e Hdl Hauth Hrem Hretry Hex Hre
                 | i w authed_url d response e r w' Hdl Hauth Hrem Hretry Hex Hre
                     _ [fuel IH]].
  - exists 1%nat. rewrite _request_unfold.
    apply Qltb_true in Hlate. now rewrite Hlate.
  - exists 1%nat. rewrite _request_unfold.
    apply Qltb_false in Hdl. now rewrite Hdl, Hauth.
  - exists 1%nat. rewrite _request_unfold.
    apply Qltb_false in Hdl. rewrite Hdl, Hauth. cbv zeta. now rewrite Hrem.
  - exists 1%nat. rewrite _request_unfold.
    apply Qltb_false in Hdl. rewrite Hdl, Hauth. cbv zeta. now rewrite Hrem.
  - exists (S fuel). rewrite _request_unfold.
    apply Qltb_false in Hdl. rewrite Hdl, Hauth. cbv zeta.
    now rewrite Hrem, Hretry.
  - exists 1%nat. rewrite _request_unfold.
    apply Qltb_false in Hdl. rewrite Hdl, Hauth. cbv zeta.
    now rewrite Hrem, Hretry, Hex.
  - exists 1%nat. rewrite _request_unfold.
    apply Qltb_false in Hdl. rewrite Hdl, Hauth. cbv zeta.
    now rewrite Hrem, Hretry, Hex, Hre.
  - exists (S fuel). rewrite _request_unfold.
    apply Qltb_false in Hdl. rewrite Hdl, Hauth. cbv zeta.
    now rewrite Hrem, Hretry, Hex, Hre.
Qed.

End RunFacts.

(** ** The classifier, read backwards *)

Lemma eq_str_true (value : Json) (s : string) :
  eq_str value s = true -> value = JStr s.
Proof.
  destruct value; cbn; try discriminate.
  intro H. apply String.eqb_eq in H. now subst.
Qed.

Lemma eq_str_false (value : Json) (s : string) :
  eq_str value s = false -> value <> JStr s.
Proof.
  intros H ->. cbn in H. now rewrite String.eqb_refl in H.
Qed.

Lemma _get_body_returns (response : Response) (body : Json) :
  _get_body response = Return body ->
  status_code response = 200%Z /\
  json response = Some body /\
  exists items,
    body = JObj items /\
    (lookup "status" items = Some (JStr "OK") \/
     lookup "status" items = Some (JStr "ZERO_RESULTS")).
Proof.
  unfold _get_body, response_json.
  destruct (status_code response =? 200)%Z eqn:E; cbn [negb]; [|discriminate].
  apply Z.eqb_eq in E.
  destruct (json response) as [b|]; cbn [rbind]; [|discriminate].
  destruct b; cbn [getitem rbind]; try discriminate.
  destruct (lookup "status" items) as [api_status|] eqn:Hl; cbn [rbind];
    [|discriminate].
  destruct (eq_str api_status "OK") eqn:Hok; cbn [orb].
  { intros [= <-]. apply eq_str_true in Hok. subst.
    split; [exact E|]. split; [reflexivity|]. exists items. auto. }
  destruct (eq_str api_status "ZERO_RESULTS") eqn:Hzero.
  { intros [= <-]. apply eq_str_true in Hzero. subst.
    split; [exact E|]. split; [reflexivity|]. exists items. auto. }
  destruct (eq_str api_status "OVER_QUERY_LIMIT"); cbn [dict_get];
    destruct (lookup "error_message" items); discriminate.
Qed.


(** X1.  A body that [_get_body] returns came with status 200, is the
    JSON object of the response, and its [status] field is "OK" or
    "ZERO_RESULTS". *)
Theorem get_body_returns_ok (response : Response) (body : Json) :
  _get_body response = Return body ->
  status_code response = 200%Z /\
  json response = Some body /\
  exists items,
    body = JObj items /\
    (lookup "status" items = Some (JStr "OK") \/
     lookup "status" items = Some (JStr "ZERO_RESULTS")).
Proof. apply _get_body_returns. Qed.

Lemma get_body_returns_ok_witness :
  status_code (http 200 (Some ok_body)) = 200%Z /\
  json (http 200 (Some ok_body)) = Some ok_body /\
  exists items,
    ok_body = JObj items /\
    (lookup "status" items = Some (JStr "OK") \/
     lookup "status" items = Some (JStr "ZERO_RESULTS")).
Proof. apply (@get_body_returns_ok (http 200 (Some ok_body)) ok_body). reflexivity. Defined.

(** The exceptions of [_get_body], one by one. *)
Lemma _get_body_raises (response : Response) (e : Exn) :
  _get_body response = Raise e ->
  (status_code response <> 200%Z /\ e = HTTPError (status_code response)) \/
  (status_code response = 200%Z /\
   (e = JSONDecodeError \/ e = TypeError \/ e = KeyError "status" \/
    (exists m, e = _OverQueryLimit (JStr "OVER_QUERY_LIMIT") m) \/
    (exists api_status m,
       e = ApiError api_status m /\ api_status <> JStr "OK" /\
       api_status <> JStr "ZERO_RESULTS" /\
       api_status <> JStr "OVER_QUERY_LIMIT"))).
Proof.
  unfold _get_body, response_json.
  destruct (status_code response =? 200)%Z eqn:E; cbn [negb].
  2:{ apply Z.eqb_neq in E. intros [= <-]. now left. }
  apply Z.eqb_eq in E. intro H. right. split; [exact E|].
  destruct (json response) as [b|]; cbn [rbind] in H;
    [|injection H as <-; now left].
  destruct b; cbn [getitem rbind] in H;
    try (injection H as <-; right; now left).
  destruct (lookup "status" items) as [api_status|]; cbn [rbind] in H;
    [|injection H as <-; right; right; now left].
  destruct (eq_str api_status "OK") eqn:Hok; cbn [orb] in H; [discriminate|].
  destruct (eq_str api_status "ZERO_RESULTS") eqn:Hzero; [discriminate|].
  destruct (eq_str api_status "OVER_QUERY_LIMIT") eqn:Hover; cbn [dict_get] in H.
  - apply eq_str_true in Hover. subst api_status.
    destruct (lookup "error_message" items); injection H as <-;
      right; right; right; left; eauto.
  - apply eq_str_false in Hok, Hzero, Hover.
    destruct (lookup "error_message" items); injection H as <-;
      right; right; right; right; eauto 6.
Qed.

(** X2.  The only response that [_get_body] classifies as retriable is a
    200 whose [status] field is "OVER_QUERY_LIMIT"; every other failure,
    among them any HTTP status other than 200, is permanent for it. *)
Theorem get_body_retriable_iff (response : Response) (e : Exn) :
  _get_body response = Raise e ->
  (isinstance e C__RetriableRequest = true <->
   status_code response = 200%Z /\
   exists items,
     json response = Some (JObj items) /\
     lookup "status" items = Some (JStr "OVER_QUERY_LIMIT")).
Proof.
  intro H. split.
  - intro Hre. destruct (_get_body_raises response H) as [[_ ->] | [H200 Hcases]];
      [discriminate|].
    split; [exact H200|].
    destruct Hcases as [-> | [-> | [-> | [[m ->] | (st & m & -> & _)]]]];
      try discriminate.
    revert H. unfold _get_body, response_json. rewrite H200. cbn [Z.eqb negb].
    change (200 =? 200)%Z with true. cbn [negb].
    destruct (json response) as [b|]; cbn [rbind]; [|discriminate].
    destruct b; cbn [getitem rbind]; try discriminate.
    destruct (lookup "status" items) as [api_status|] eqn:Hl; cbn [rbind];
      [|discriminate].
    destruct (eq_str api_status "OK" || eq_str api_status "ZERO_RESULTS");
      [discriminate|].
    destruct (eq_str api_status "OVER_QUERY_LIMIT") eqn:Hover; cbn [dict_get];
      destruct (lookup "error_message" items); intros [= ? ?]; subst;
      try discriminate; eauto.
  - intros (H200 & items & Hj & Hl).
    destruct (_get_body_cases response) as [_ Hc].
    destruct (Hc H200) as (_ & _ & Hc').
    destruct (Hc' _ Hj) as [_ Hc''].
    destruct (Hc'' _ Hl) as (_ & Hover & _).
    destruct (Hover eq_refl) as [Hbody Hinst].
    rewrite Hbody in H. injection H as <-. exact Hinst.
Qed.

Lemma get_body_retriable_iff_witness :
  isinstance (_OverQueryLimit (JStr "OVER_QUERY_LIMIT") (JStr "quota"))
             C__RetriableRequest = true /\
  isinstance (HTTPError 503) C__RetriableRequest <> true.
Proof.
  split.
  - apply (proj2 (@get_body_retriable_iff (http 200 (Some over_limit_body)) _ eq_refl)).
    split; [reflexivity|]. eexists. split; reflexivity.
  - intro Hre.
    destruct (proj1 (@get_body_retriable_iff (http 503 None) _ eq_refl) Hre) as [H _].
    discriminate.
Defined.

(** ** What a call logs *)

Lemma requests_of_app (tr1 tr2 : list Event) :
  requests_of (tr1 ++ tr2) = (requests_of tr1 ++ requests_of tr2)%list.
Proof.
  induction tr1 as [|ev tr1 IH]; [reflexivity|].
  destruct ev; cbn [requests_of app]; rewrite IH; reflexivity.
Qed.

Lemma sleeps_of_app (tr1 tr2 : list Event) :
  sleeps_of (tr1 ++ tr2) = (sleeps_of tr1 ++ sleeps_of tr2)%list.
Proof.
  induction tr1 as [|ev tr1 IH]; [reflexivity|].
  destruct ev; cbn [sleeps_of app]; rewrite IH; reflexivity.
Qed.

Lemma Forall_skipn {A} (P : A -> Prop) (n : nat) (l : list A) :
  Forall P l -> Forall P (skipn n l).
Proof.
  revert l. induction n as [|n IH]; intros l H; [exact H|].
  destruct H; [constructor | apply IH; assumption].
Qed.

Lemma StronglySorted_skipn {A} (R : A -> A -> Prop) (n : nat) (l : list A) :
  StronglySorted R l -> StronglySorted R (skipn n l).
Proof.
  revert l. induction n as [|n IH]; intros l H; [exact H|].
  destruct H; [constructor | apply IH; assumption].
Qed.

Lemma StronglySorted_snoc (l : list Q) (x : Q) :
  StronglySorted Qle l -> Forall (fun t => t <= x) l ->
  StronglySorted Qle (l ++ [x]).
Proof.
  induction 1 as [|a l Hs IH Ha]; intro Hx; cbn [app].
  - repeat constructor.
  - inversion Hx as [|? ? Hax Hlx]; subst.
    constructor; [apply IH, Hlx|].
    apply Forall_app. split; [exact Ha | repeat constructor; exact Hax].
Qed.

Lemma window_ok_later (w w' : World) :
  sent_times w' = sent_times w -> clock w <= clock w' ->
  window_ok w -> window_ok w'.
Proof.
  intros Ht Hc [Hs Hf]. split; rewrite Ht; [exact Hs|].
  eapply Forall_impl; [|exact Hf].
  intros t Hle. cbv beta in *. lra.
Qed.

Lemma window_ok_record (self : Client) (w : World) :
  window_ok w -> window_ok (record_sent self w).
Proof.
  intros [Hs Hf]. unfold window_ok, record_sent, deque_append.
  cbn [sent_times clock]. split.
  - apply StronglySorted_skipn, StronglySorted_snoc; assumption.
  - apply Forall_skipn, Forall_app. split; [exact Hf|].
    repeat constructor. apply Qle_refl.
Qed.

Lemma advances_refl (rq : Request) (w : World) :
  window_ok w -> advances rq w w [].
Proof.
  intro Hw. unfold advances. cbn [app requests_of length].
  repeat split; auto; try apply Qle_refl. apply Hw. apply Hw.
Qed.

Lemma advances_trans (rq : Request) (w1 w2 w3 : World) (tr1 tr2 : list Event) :
  advances rq w1 w2 tr1 -> advances rq w2 w3 tr2 ->
  advances rq w1 w3 (tr2 ++ tr1).
Proof.
  intros (Ht1 & Hs1 & Hr1 & Hn1 & Hc1 & Hm1 & Hd1 & Hw1)
         (Ht2 & Hs2 & Hr2 & Hn2 & Hc2 & Hm2 & Hd2 & Hw2).
  unfold advances. rewrite requests_of_app, length_app.
  repeat split; try (apply Hw2).
  - rewrite Ht2, Ht1. apply app_assoc.
  - apply Forall_app. auto.
  - apply Forall_app. auto.
  - lia.
  - lra.
  - congruence.
  - congruence.
Qed.

Lemma advances_well_behaved (rq : Request) (w w' : World) (tr : list Event) :
  advances rq w w' tr -> well_behaved w -> well_behaved w'.
Proof.
  intros (_ & _ & _ & _ & _ & Hm & Hd & _). now apply well_behaved_frame.
Qed.

Lemma backoff_advances (rq : Request) (i : nat) (w : World) :
  well_behaved w -> window_ok w ->
  exists tr, advances rq w (backoff i w) tr /\ requests_of tr = [] /\
             ((1 <= i)%nat -> clock w + (1 # 4) <= clock (backoff i w)).
Proof.
  intros Hwb Hw. destruct i as [|i].
  - exists []. split; [apply advances_refl, Hw|]. split; [reflexivity | lia].
  - pose proof (backoff_sleeps (i := S i) (w := w)) as Hsleep.
    assert (Hi : (1 <= S i)%nat) by lia. specialize (Hsleep Hi Hwb).
    destruct Hwb as [_ Hrand]. destruct (Hrand (draws w)) as [Hr0 Hr1].
    pose proof (half_le_backoff_delay (S i)) as Hd.
    exists [EvBackoff (backoff_delay (S i)) (random_random w (draws w) + (1 # 2))].
    split; [|split; [reflexivity | intros _; exact Hsleep]].
    unfold advances.
    split; [rewrite (backoff_retry w Hi); reflexivity|].
    split; [repeat constructor; cbn; lra|].
    split; [constructor|].
    destruct (backoff_frame (S i) w) as (Hm & Hs & Hrr & Ht).
    split; [cbn [requests_of length]; lia|].
    split; [lra|]. split; [exact Hm|]. split; [exact Hrr|].
    apply (@window_ok_later w); [exact Ht | lra | exact Hw].
Qed.

Lemma send_advances (rq : Request) (w : World) :
  well_behaved w -> window_ok w ->
  advances rq w (snd (send rq w)) [EvSend (clock w) rq (remote w (sends w) rq)].
Proof.
  intros [Htook _] Hw. specialize (Htook (sends w) rq).
  unfold advances, send. cbn [snd trace sends clock remote random_random
                              requests_of length app].
  repeat split; try reflexivity.
  - repeat constructor. exact Htook.
  - repeat constructor.
  - lia.
  - lra.
  - apply Hw.
  - cbn [sent_times clock]. eapply Forall_impl; [|apply Hw].
    intros t Ht. cbv beta in *. lra.
Qed.

Lemma rate_limit_wait_advances (rq : Request) (self : Client) (w : World) :
  window_ok w ->
  exists tr, advances rq w (rate_limit_wait self w) tr /\ requests_of tr = [].
Proof.
  intro Hw. rewrite rate_limit_wait_spec.
  destruct (window_hot self w) eqn:Hhot; [|exists []; split; [apply advances_refl, Hw | reflexivity]].
  cbv zeta.
  exists [EvThrottle (1 - (clock w - hd 0 (sent_times w)))].
  split; [|reflexivity].
  unfold window_hot in Hhot.
  destruct (sent_times w) as [|earliest rest] eqn:Hst; [discriminate|].
  apply andb_prop in Hhot. destruct Hhot as [_ Hfresh].
  apply Qltb_true in Hfresh. cbn [hd].
  assert (Hpast : earliest <= clock w).
  { destruct Hw as [_ Hf]. rewrite Hst in Hf. now inversion Hf. }
  unfold advances, sleep.
  cbn [trace sends clock remote random_random requests_of length app].
  repeat split; try reflexivity.
  - repeat constructor; cbn; lra.
  - constructor.
  - lia.
  - lra.
  - cbn [sent_times]. apply Hw.
  - cbn [sent_times clock]. eapply Forall_impl; [|apply Hw].
    intros t Ht. cbv beta in *. lra.
Qed.

Lemma record_sent_advances (rq : Request) (self : Client) (w : World) :
  window_ok w -> advances rq w (record_sent self w) [EvRecord (clock w)].
Proof.
  intro Hw. unfold advances.
  split; [reflexivity|]. split; [repeat constructor|]. split; [constructor|].
  split; [cbn; lia|]. split; [apply Qle_refl|].
  split; [reflexivity|]. split; [reflexivity|].
  apply window_ok_record, Hw.
Qed.

Lemma after_send_advances (base_url : string) (post_json : option Json)
    (authed_url : string) (i : nat) (w : World) :
  well_behaved w -> window_ok w ->
  exists tr,
    advances (request_of base_url authed_url post_json) w
             (after_send base_url post_json authed_url i w) tr /\
    length (requests_of tr) = 1%nat /\
    ((1 <= i)%nat ->
     clock w + (1 # 4) <= clock (after_send base_url post_json authed_url i w)).
Proof.
  intros Hwb Hw.
  set (rq := request_of base_url authed_url post_json).
  destruct (backoff_advances rq i Hwb Hw) as (tr & Hadv & Hreq & Hsleep).
  pose proof (advances_well_behaved Hadv Hwb) as Hwb'.
  assert (Hw' : window_ok (backoff i w)) by apply Hadv.
  pose proof (send_advances rq Hwb' Hw') as Hsend.
  exists ([EvSend (clock (backoff i w)) rq
                  (remote (backoff i w) (sends (backoff i w)) rq)] ++ tr)%list.
  split; [exact (advances_trans Hadv Hsend)|].
  split; [rewrite requests_of_app, Hreq; reflexivity|].
  intro Hi. specialize (Hsleep Hi).
  destruct Hsend as (_ & _ & _ & _ & Hc & _). unfold after_send. fold rq. lra.
Qed.

Section RunLog.

Variables (self : Client) (url : string) (params : Params) (base_url : string)
          (accepts_clientid : bool)
          (extract_body : option (Response -> Result Json))
          (post_json : option Json) (t0 : Q).

(** Everything a run does to the world. *)
Lemma Run_advances (rq : Request) (i : nat) (w : World) (r : Result Json)
    (w' : World) :
  (forall authed_url,
     _generate_auth_url self url params accepts_clientid = Return authed_url ->
     rq = request_of base_url authed_url post_json) ->
  Run self url params base_url accepts_clientid extract_body post_json t0
      i w r w' ->
  well_behaved w -> window_ok w ->
  exists tr, advances rq w w' tr.
Proof.
  intros Hrq Hrun.
  induction Hrun as [i w Hlate | i w e Hdl Hauth | i w authed_url d Hdl Hauth Hrem
                 | i w authed_url d descr Hdl Hauth Hrem
                 | i w authed_url d response r w' Hdl Hauth Hrem Hretry _ IH
                 | i w authed_url d response result Hdl Hauth Hrem Hretry Hex
                 | i w authed_url d response e Hdl Hauth Hrem Hretry Hex Hre
                 | i w authed_url d response e r w' Hdl Hauth Hrem Hretry Hex Hre
                     _ IH];
    intros Hwb Hw.
  - exists []. apply advances_refl, Hw.
  - destruct (backoff_advances rq i Hwb Hw) as (tr & Hadv & _). eauto.
  - rewrite (Hrq _ Hauth).
    destruct (after_send_advances base_url post_json authed_url i Hwb Hw)
      as (tr & Hadv & _). eauto.
  - rewrite (Hrq _ Hauth).
    destruct (after_send_advances base_url post_json authed_url i Hwb Hw)
      as (tr & Hadv & _). eauto.
  - destruct (after_send_advances base_url post_json authed_url i Hwb Hw)
      as (tr & Hadv & _).
    rewrite <- (Hrq _ Hauth) in Hadv.
    destruct IH as [tr' Hadv'];
      [exact (advances_well_behaved Hadv Hwb) | apply Hadv|].
    exists (tr' ++ tr)%list. exact (advances_trans Hadv Hadv').
  - destruct (after_send_advances base_url post_json authed_url i Hwb Hw)
      as (tr & Hadv & _).
    rewrite <- (Hrq _ Hauth) in Hadv.
    assert (Hw1 : window_ok (after_send base_url post_json authed_url i w))
      by apply Hadv.
    destruct (rate_limit_wait_advances rq self Hw1) as (tr2 & Hadv2 & _).
    assert (Hw2 : window_ok (rate_limit_wait self
                               (after_send base_url post_json authed_url i w)))
      by apply Hadv2.
    pose proof (record_sent_advances rq self Hw2) as Hadv3.
    eexists. exact (advances_trans (advances_trans Hadv Hadv2) Hadv3).
  - destruct (after_send_advances base_url post_json authed_url i Hwb Hw)
      as (tr & Hadv & _).
    rewrite <- (Hrq _ Hauth) in Hadv.
    assert (Hw1 : window_ok (after_send base_url post_json authed_url i w))
      by apply Hadv.
    destruct (rate_limit_wait_advances rq self Hw1) as (tr2 & Hadv2 & _).
    eexists. exact (advances_trans Hadv Hadv2).
  - destruct (after_send_advances base_url post_json authed_url i Hwb Hw)
      as (tr & Hadv & _).
    rewrite <- (Hrq _ Hauth) in Hadv.
    assert (Hw1 : window_ok (after_send base_url post_json authed_url i w))
      by apply Hadv.
    destruct (rate_limit_wait_advances rq self Hw1) as (tr2 & Hadv2 & _).
    pose proof (advances_trans Hadv Hadv2) as Hadv12.
    destruct IH as [tr' Hadv'];
      [exact (advances_well_behaved Hadv12 Hwb) | apply Hadv12|].
    eexists. exact (advances_trans Hadv12 Hadv').
Qed.

End RunLog.

(** ** The requests of a run *)

Lemma logged_refl (rq : Request) (w : World) : logged rq w w [].
Proof. unfold logged. cbn. repeat split; [constructor | lia]. Qed.

Lemma logged_trans (rq : Request) (w1 w2 w3 : World) (tr1 tr2 : list Event) :
  logged rq w1 w2 tr1 -> logged rq w2 w3 tr2 -> logged rq w1 w3 (tr2 ++ tr1).
Proof.
  intros (Ht1 & Hr1 & Hs1) (Ht2 & Hr2 & Hs2). unfold logged.
  rewrite Ht2, Ht1, app_assoc, requests_of_app, length_app.
  repeat split; [apply Forall_app; split; assumption | lia].
Qed.

Lemma backoff_logged (rq : Request) (i : nat) (w : World) :
  exists tr, logged rq w (backoff i w) tr.
Proof.
  unfold backoff. destruct (0 <? i)%nat.
  - exists [EvBackoff (backoff_delay i) (random_random w (draws w) + (1 # 2))].
    unfold logged. cbn. repeat split; [constructor | lia].
  - exists []. apply logged_refl.
Qed.

Lemma rate_limit_wait_logged (rq : Request) (self : Client) (w : World) :
  exists tr, logged rq w (rate_limit_wait self w) tr.
Proof.
  rewrite rate_limit_wait_spec. destruct (window_hot self w).
  - exists [EvThrottle (1 - (clock w - hd 0 (sent_times w)))].
    unfold logged. cbn. repeat split; [constructor | lia].
  - exists []. apply logged_refl.
Qed.

Lemma record_sent_logged (rq : Request) (self : Client) (w : World) :
  logged rq w (record_sent self w) [EvRecord (clock w)].
Proof. unfold logged. cbn. repeat split; [constructor | lia]. Qed.

Lemma after_send_logged (base_url : string) (post_json : option Json)
    (authed_url : string) (i : nat) (w : World) :
  exists tr,
    logged (request_of base_url authed_url post_json) w
           (after_send base_url post_json authed_url i w) tr.
Proof.
  set (rq := request_of base_url authed_url post_json).
  destruct (backoff_logged rq i w) as [tr Hlog].
  exists ([EvSend (clock (backoff i w)) rq
                  (remote (backoff i w) (sends (backoff i w)) rq)] ++ tr)%list.
  apply (logged_trans Hlog). unfold logged, after_send, send. fold rq.
  cbn. repeat split; [repeat constructor | lia].
Qed.

Section RunRequests.

Variables (self : Client) (url : string) (params : Params) (base_url : string)
          (accepts_clientid : bool)
          (extract_body : option (Response -> Result Json))
          (post_json : option Json) (t0 : Q).

(** What a run logs and sends, whatever the world. *)
Lemma Run_logged (rq : Request) (i : nat) (w : World) (r : Result Json)
    (w' : World) :
  (forall authed_url,
     _generate_auth_url self url params accepts_clientid = Return authed_url ->
     rq = request_of base_url authed_url post_json) ->
  Run self url params base_url accepts_clientid extract_body post_json t0
      i w r w' ->
  exists tr, logged rq w w' tr.
Proof.
  intros Hrq Hrun.
  induction Hrun as [i w Hlate | i w e Hdl Hauth | i w authed_url d Hdl Hauth Hrem
                 | i w authed_url d descr Hdl Hauth Hrem
                 | i w authed_url d response r w' Hdl Hauth Hrem Hretry _ IH
                 | i w authed_url d response result Hdl Hauth Hrem Hretry Hex
                 | i w authed_url d response e Hdl Hauth Hrem Hretry Hex Hre
                 | i w authed_url d response e r w' Hdl Hauth Hrem Hretry Hex Hre
                     _ IH].
  - exists []. apply logged_refl.
  - apply backoff_logged.
  - rewrite (Hrq _ Hauth). apply after_send_logged.
  - rewrite (Hrq _ Hauth). apply after_send_logged.
  - destruct (after_send_logged base_url post_json authed_url i w) as [tr Hlog].
    rewrite <- (Hrq _ Hauth) in Hlog. destruct IH as [tr' Hlog'].
    eexists. exact (logged_trans Hlog Hlog').
  - destruct (after_send_logged base_url post_json authed_url i w) as [tr Hlog].
    rewrite <- (Hrq _ Hauth) in Hlog.
    destruct (rate_limit_wait_logged rq self
                (after_send base_url post_json authed_url i w)) as [tr2 Hlog2].
    eexists.
    exact (logged_trans (logged_trans Hlog Hlog2) (record_sent_logged rq self _)).
  - destruct (after_send_logged base_url post_json authed_url i w) as [tr Hlog].
    rewrite <- (Hrq _ Hauth) in Hlog.
    destruct (rate_limit_wait_logged rq self
                (after_send base_url post_json authed_url i w)) as [tr2 Hlog2].
    eexists. exact (logged_trans Hlog Hlog2).
  - destruct (after_send_logged base_url post_json authed_url i w) as [tr Hlog].
    rewrite <- (Hrq _ Hauth) in Hlog.
    destruct (rate_limit_wait_logged rq self
                (after_send base_url post_json authed_url i w)) as [tr2 Hlog2].
    destruct IH as [tr' Hlog'].
    eexists. exact (logged_trans (logged_trans Hlog Hlog2) Hlog').
Qed.

(** The log of a call goes on from the log of its first request. *)
Lemma _request_after_send (fuel : nat) (i : nat) (w : World) (authed_url : string)
    (r : Result Json) (w' : World) :
  clock w - t0 <= retry_timeout self ->
  _generate_auth_url self url params accepts_clientid = Return authed_url ->
  _request (S fuel) self url params (Some t0) i base_url accepts_clientid
           extract_body post_json w = Some (r, w') ->
  exists tr,
    trace w' = (tr ++ trace (after_send base_url post_json authed_url i w))%list.
Proof.
  intros Hdl Hauth. rewrite _request_unfold.
  apply Qltb_false in Hdl. rewrite Hdl, Hauth. cbv zeta.
  set (rq := request_of base_url authed_url post_json).
  set (w1 := after_send base_url post_json authed_url i w).
  assert (Hrq : forall a,
             _generate_auth_url self url params accepts_clientid = Return a ->
             rq = request_of base_url a post_json)
    by (intros a Ha; rewrite Hauth in Ha; now injection Ha as <-).
  assert (Hfrom : forall w2 tr2, trace w2 = (tr2 ++ trace w1)%list ->
            forall fuel' j,
              _request fuel' self url params (Some t0) j base_url accepts_clientid
                       extract_body post_json w2 = Some (r, w') ->
              exists tr, trace w' = (tr ++ trace w1)%list).
  { intros w2 tr2 Hw2 fuel' j Hrun. apply _request_Run in Hrun.
    destruct (Run_logged Hrq Hrun) as (tr & Htr & _).
    exists (tr ++ tr2)%list. now rewrite Htr, Hw2, app_assoc. }
  destruct (rate_limit_wait_logged rq self w1) as (tr2 & Htr2 & _).
  destruct (remote w (sends w) rq) as [d response|d|d descr].
  - destruct (is_retriable (status_code response)).
    + apply (Hfrom w1 []). reflexivity.
    + destruct (extracted extract_body response) as [result|e].
      * intros [= <- <-]. exists (EvRecord (clock (rate_limit_wait self w1)) :: tr2).
        cbn [record_sent trace]. now rewrite Htr2.
      * destruct (retried self e).
        -- apply (Hfrom _ tr2 Htr2).
        -- intros [= <- <-]. exists tr2. exact Htr2.
  - intros [= <- <-]. now exists [].
  - intros [= <- <-]. now exists [].
Qed.

End RunRequests.

(** The world after the sleep and the request of a retry. *)
Lemma after_send_retry (base_url : string) (post_json : option Json)
    (authed_url : string) (i : nat) (w : World) :
  (1 <= i)%nat ->
  let rq := request_of base_url authed_url post_json in
  let f := random_random w (draws w) + (1 # 2) in
  let out := remote w (sends w) rq in
  after_send base_url post_json authed_url i w
  = {| clock := clock w + backoff_delay i * f + took out;
       sent_times := sent_times w; remote := remote w; sends := S (sends w);
       random_random := random_random w; draws := S (draws w);
       trace := EvSend (clock w + backoff_delay i * f) rq out
                :: EvBackoff (backoff_delay i) f :: trace w |}.
Proof.
  intro Hi. cbv zeta. unfold after_send. rewrite (backoff_retry w Hi).
  reflexivity.
Qed.

(** A call whose deadline has passed. *)
Lemma _request_late (fuel : nat) (self : Client) (url : string) (params : Params)
    (t0 : Q) (i : nat) (base_url : string) (accepts_clientid : bool)
    (extract_body : option (Response -> Result Json)) (post_json : option Json)
    (w : World) :
  Qltb (retry_timeout self) (clock w - t0) = true ->
  _request (S fuel) self url params (Some t0) i base_url accepts_clientid
           extract_body post_json w = Some (Raise Timeout, w).
Proof. intro H. cbn [_request started]. now rewrite H. Qed.

(** An attempt within the deadline that is answered with status 500. *)
Lemma _request_500 (fuel : nat) (self : Client) (url : string) (params : Params)
    (t0 : Q) (i : nat) (base_url : string) (accepts_clientid : bool)
    (extract_body : option (Response -> Result Json)) (post_json : option Json)
    (w : World) (authed_url : string) (d : Q) (body : option Json) :
  Qltb (retry_timeout self) (clock w - t0) = false ->
  _generate_auth_url self url params accepts_clientid = Return authed_url ->
  remote w (sends w) (request_of base_url authed_url post_json)
  = Responded d (http 500 body) ->
  _request (S fuel) self url params (Some t0) i base_url accepts_clientid
           extract_body post_json w
  = _request fuel self url params (Some t0) (S i) base_url accepts_clientid
             extract_body post_json
             (after_send base_url post_json authed_url i w).
Proof.
  intros Hdl Hauth Hrem. rewrite _request_unfold, Hdl, Hauth. cbv zeta.
  rewrite Hrem. reflexivity.
Qed.

(** ** The backoff schedule *)

(** C4.  The first attempt is not delayed: unless it raises [Timeout] at
    once, its request is dispatched at the time of the call.  Retry [i],
    for [i] from 1 to 34, raises [Timeout] without sleeping when the
    deadline has passed; otherwise it sleeps [0.5 * 1.5 ^ (i - 1)] seconds
    times the factor [random.random() + 0.5], which is in [0.5, 1.5), and
    dispatches its request right after the sleep.  The base delays are
    strictly increasing.  When the remote answers 500 three times and then
    200 with status OK, the engine returns that body exactly when the time
    elapsed at the start of the third retry is within the deadline: it
    has then sent four requests and slept three times, with base delays
    0.5, 0.75 and 1.125 seconds, each request leaving right after its
    sleep.  When that time is beyond the deadline, the engine raises
    [Timeout] after two backoff sleeps at most. *)
Theorem backoff_schedule :
  (forall fuel self url params o base_url accepts_clientid extract_body post_json
          w authed_url r w',
     _generate_auth_url self url params accepts_clientid = Return authed_url ->
     _request (S fuel) self url params o 0 base_url accepts_clientid extract_body
              post_json w = Some (r, w') ->
     let rq := request_of base_url authed_url post_json in
     (r = Raise Timeout /\ w' = w) \/
     (exists tr,
        trace w' = (tr ++ EvSend (clock w) rq (remote w (sends w) rq)
                       :: trace w)%list)) /\
  (forall fuel self url params t0 i base_url accepts_clientid extract_body
          post_json w authed_url r w',
     (1 <= i <= 34)%nat -> well_behaved w ->
     _generate_auth_url self url params accepts_clientid = Return authed_url ->
     _request (S fuel) self url params (Some t0) i base_url accepts_clientid
              extract_body post_json w = Some (r, w') ->
     let rq := request_of base_url authed_url post_json in
     let f := random_random w (draws w) + (1 # 2) in
     let delay_seconds := (1 # 2) * (3 # 2) ^ (Z.of_nat i - 1) in
     (retry_timeout self < clock w - t0 /\ r = Raise Timeout /\ w' = w) \/
     (clock w - t0 <= retry_timeout self /\
      1 # 2 <= f /\ f < 3 # 2 /\
      exists tr d t,
        trace w' = (tr ++ EvSend t rq (remote w (sends w) rq)
                       :: EvBackoff d f :: trace w)%list /\
        d == delay_seconds /\ t == clock w + delay_seconds * f)) /\
  (forall i, (1 <= i < 34)%nat -> backoff_delay i < backoff_delay (S i)) /\
  (forall self url params w authed_url d0 d1 d2 d3 b0 b1 b2 items,
     well_behaved w ->
     _generate_auth_url self url params true = Return authed_url ->
     let rq := request_of _DEFAULT_BASE_URL authed_url None in
     remote w (sends w) rq = Responded d0 (http 500 b0) ->
     remote w (S (sends w)) rq = Responded d1 (http 500 b1) ->
     remote w (S (S (sends w))) rq = Responded d2 (http 500 b2) ->
     remote w (S (S (S (sends w)))) rq
     = Responded d3 (http 200 (Some (JObj items))) ->
     lookup "status" items = Some (JStr "OK") ->
     let f0 := random_random w (draws w) + (1 # 2) in
     let f1 := random_random w (S (draws w)) + (1 # 2) in
     let f2 := random_random w (S (S (draws w))) + (1 # 2) in
     let t1 := clock w + d0 + (1 # 2) * f0 in
     let t2 := t1 + d1 + (3 # 4) * f1 in
     let t3 := t2 + d2 + (9 # 8) * f2 in
     exists r w' tr,
       request 4 self url params w = Some (r, w') /\
       trace w' = (tr ++ trace w)%list /\
       (t2 + d2 - clock w <= retry_timeout self ->
        r = Return (JObj items) /\
        backoffs tr = [(1 # 2, f0); (3 # 4, f1); (9 # 8, f2)] /\
        Forall (fun f => 1 # 2 <= f /\ f < 3 # 2) [f0; f1; f2] /\
        dispatch_times tr = [clock w; t1; t2; t3] /\
        sends w' = (sends w + 4)%nat /\
        clock w' == t3 + d3 + total (throttles tr)) /\
       (retry_timeout self < t2 + d2 - clock w ->
        r = Raise Timeout /\
        (length (backoffs tr) <= 2)%nat /\
        (sends w' <= sends w + 3)%nat)).
Proof.
  split; [|split; [|split]].
  - intros fuel self url params o base_url accepts_clientid extract_body post_json
           w authed_url r w' Hauth Hrun rq.
    rewrite _request_started in Hrun.
    destruct (Qltb (retry_timeout self) (clock w - started o w)) eqn:Hdl.
    + rewrite (@_request_late _ _ _ _ _ _ _ _ _ _ _ Hdl) in Hrun.
      injection Hrun as <- <-. now left.
    + apply Qltb_false in Hdl. right.
      exact (@_request_after_send _ _ _ _ _ _ _ _ _ _ _ _ _ _ Hdl Hauth Hrun).
  - intros fuel self url params t0 i base_url accepts_clientid extract_body
           post_json w authed_url r w' Hi [_ Hrand] Hauth Hrun rq f delay_seconds.
    destruct (Qltb (retry_timeout self) (clock w - t0)) eqn:Hdl.
    + rewrite (@_request_late _ _ _ _ _ _ _ _ _ _ _ Hdl) in Hrun.
      injection Hrun as <- <-. left. apply Qltb_true in Hdl. auto.
    + apply Qltb_false in Hdl. right.
      destruct (Hrand (draws w)) as [Hr0 Hr1].
      split; [exact Hdl|]. split; [unfold f; lra|]. split; [unfold f; lra|].
      destruct (@_request_after_send _ _ _ _ _ _ _ _ _ _ _ _ _ _ Hdl Hauth Hrun) as [tr Htr].
      rewrite after_send_retry in Htr by lia. cbn [trace] in Htr.
      exists tr, (backoff_delay i), (clock w + backoff_delay i * f).
      assert (Hd : backoff_delay i == delay_seconds)
        by (apply backoff_delay_formula; lia).
      split; [exact Htr|]. split; [exact Hd|]. now rewrite Hd.
  - intros [|i] Hi; [lia|]. apply backoff_delay_increasing.
  - intros self url params w authed_url d0 d1 d2 d3 b0 b1 b2 items
           Hwb Hauth rq H0 H1 H2 H3 Hstatus f0 f1 f2 t1 t2 t3.
    pose proof Hwb as [Htook Hrand].
    assert (Hd0 : 0 <= d0) by (generalize (Htook (sends w) rq); rewrite H0; auto).
    assert (Hd1 : 0 <= d1) by (generalize (Htook (S (sends w)) rq); rewrite H1; auto).
    assert (Hd2 : 0 <= d2) by (generalize (Htook (S (S (sends w))) rq); rewrite H2; auto).
    destruct (Hrand (draws w)) as [Hr0 Hr0'].
    destruct (Hrand (S (draws w))) as [Hr1 Hr1'].
    destruct (Hrand (S (S (draws w)))) as [Hr2 Hr2'].
    set (r0 := Responded d0 (http 500 b0)) in *.
    set (r1 := Responded d1 (http 500 b1)) in *.
    set (r2 := Responded d2 (http 500 b2)) in *.
    set (r3 := Responded d3 (http 200 (Some (JObj items)))) in *.
    set (tr1 := EvSend (clock w) rq r0 :: trace w).
    set (tr2 := EvSend t1 rq r1 :: EvBackoff (1 # 2) f0 :: tr1).
    set (tr3 := EvSend t2 rq r2 :: EvBackoff (3 # 4) f1 :: tr2).
    set (tr4 := EvSend t3 rq r3 :: EvBackoff (9 # 8) f2 :: tr3).
    pose (mk := fun t n k tr =>
            {| clock := t; sent_times := sent_times w; remote := remote w;
               sends := n; random_random := random_random w; draws := k;
               trace := tr |}).
    set (w1 := mk (clock w + d0) (S (sends w)) (draws w) tr1).
    set (w2 := mk (t1 + d1) (S (S (sends w))) (S (draws w)) tr2).
    set (w3 := mk (t2 + d2) (S (S (S (sends w)))) (S (S (draws w))) tr3).
    set (w4 := mk (t3 + d3) (S (S (S (S (sends w))))) (S (S (S (draws w)))) tr4).
    assert (E1 : after_send _DEFAULT_BASE_URL None authed_url 0 w = w1).
    { unfold after_send, send, backoff. fold rq. cbn [Nat.ltb Nat.leb snd].
      rewrite H0. reflexivity. }
    assert (E2 : after_send _DEFAULT_BASE_URL None authed_url 1 w1 = w2).
    { rewrite after_send_retry by lia. fold rq. unfold w1, mk.
      cbn [clock sent_times remote sends random_random draws trace].
      rewrite H1, backoff_delay_1. reflexivity. }
    assert (E3 : after_send _DEFAULT_BASE_URL None authed_url 2 w2 = w3).
    { rewrite after_send_retry by lia. fold rq. unfold w2, mk.
      cbn [clock sent_times remote sends random_random draws trace].
      rewrite H2, backoff_delay_2. reflexivity. }
    assert (E4 : after_send _DEFAULT_BASE_URL None authed_url 3 w3 = w4).
    { rewrite after_send_retry by lia. fold rq. unfold w3, mk.
      cbn [clock sent_times remote sends random_random draws trace].
      rewrite H3, backoff_delay_3. reflexivity. }
    assert (Hfs : Forall (fun f => 1 # 2 <= f /\ f < 3 # 2) [f0; f1; f2]).
    { repeat constructor; unfold f0, f1, f2; lra. }
    unfold request. rewrite _request_started. cbn [started].
    (* the first attempt *)
    destruct (Qltb (retry_timeout self) (clock w - clock w)) eqn:L0.
    { rewrite (@_request_late _ _ _ _ _ _ _ _ _ _ _ L0). apply Qltb_true in L0.
      exists (Raise Timeout), w, []. split; [reflexivity|]. split; [reflexivity|].
      split; [intro Hin; exfalso; unfold t2, t1, f0, f1 in *; lra|].
      intros _. split; [reflexivity|]. cbn. split; lia. }
    rewrite (@_request_500 _ _ _ _ _ _ _ _ _ _ _ _ _ _ L0 Hauth H0), E1.
    (* the first retry *)
    destruct (Qltb (retry_timeout self) (clock w1 - clock w)) eqn:L1.
    { rewrite (@_request_late _ _ _ _ _ _ _ _ _ _ _ L1). apply Qltb_true in L1.
      cbn [clock w1 mk] in L1.
      exists (Raise Timeout), w1, [EvSend (clock w) rq r0].
      split; [reflexivity|]. split; [reflexivity|].
      split; [intro Hin; exfalso; unfold t2, t1, f0, f1 in *; lra|].
      intros _. split; [reflexivity|]. cbn. split; lia. }
    rewrite (@_request_500 _ _ _ _ _ _ _ _ _ _ _ _ _ _ L1 Hauth H1), E2.
    (* the second retry *)
    destruct (Qltb (retry_timeout self) (clock w2 - clock w)) eqn:L2.
    { rewrite (@_request_late _ _ _ _ _ _ _ _ _ _ _ L2). apply Qltb_true in L2.
      cbn [clock w2 mk] in L2.
      exists (Raise Timeout), w2,
        [EvSend t1 rq r1; EvBackoff (1 # 2) f0; EvSend (clock w) rq r0].
      split; [reflexivity|]. split; [reflexivity|].
      split; [intro Hin; exfalso; unfold t2, t1, f0, f1 in *; lra|].
      intros _. split; [reflexivity|]. cbn. split; lia. }
    rewrite (@_request_500 _ _ _ _ _ _ _ _ _ _ _ _ _ _ L2 Hauth H2), E3.
    (* the third retry *)
    destruct (Qltb (retry_timeout self) (clock w3 - clock w)) eqn:L3.
    { rewrite (@_request_late _ _ _ _ _ _ _ _ _ _ _ L3). apply Qltb_true in L3.
      cbn [clock w3 mk] in L3.
      exists (Raise Timeout), w3,
        [EvSend t2 rq r2; EvBackoff (3 # 4) f1;
         EvSend t1 rq r1; EvBackoff (1 # 2) f0; EvSend (clock w) rq r0].
      split; [reflexivity|]. split; [reflexivity|].
      split; [intro Hin; exfalso; lra|].
      intros _. split; [reflexivity|]. cbn. split; lia. }
    assert (Hbody : _get_body (http 200 (Some (JObj items))) = Return (JObj items)).
    { destruct (_get_body_cases (http 200 (Some (JObj items)))) as [_ Hc].
      destruct (Hc eq_refl) as (_ & _ & Hc').
      destruct (Hc' _ eq_refl) as [_ Hc''].
      destruct (Hc'' _ Hstatus) as [Hok _]. apply Hok. now left. }
    rewrite _request_unfold, L3, Hauth. cbv zeta. fold rq.
    change (remote w3 (sends w3) rq) with (remote w (S (S (S (sends w)))) rq).
    rewrite H3. unfold r3 at 1.
    change (is_retriable (status_code (http 200 (Some (JObj items))))) with false.
    cbv iota. unfold extracted. rewrite Hbody, E4, rate_limit_wait_spec. cbv zeta.
    apply Qltb_false in L3. cbn [clock w3 mk] in L3.
    destruct (window_hot self w4).
    + eexists. eexists.
      exists (EvRecord (clock w4 + (1 - (clock w4 - hd 0 (sent_times w4))))
              :: EvThrottle (1 - (clock w4 - hd 0 (sent_times w4)))
              :: EvSend t3 rq r3 :: EvBackoff (9 # 8) f2
              :: EvSend t2 rq r2 :: EvBackoff (3 # 4) f1
              :: EvSend t1 rq r1 :: EvBackoff (1 # 2) f0
              :: [EvSend (clock w) rq r0]).
      split; [reflexivity|]. split; [reflexivity|]. split.
      * intros _. split; [reflexivity|]. split; [reflexivity|].
        split; [exact Hfs|]. split; [reflexivity|].
        split; [cbn [record_sent sleep sends w4 mk]; lia|].
        cbn [record_sent sleep clock w4 mk throttles fold_left total fold_right].
        ring.
      * intro Hout. exfalso. lra.
    + eexists. eexists.
      exists (EvRecord (clock w4)
              :: EvSend t3 rq r3 :: EvBackoff (9 # 8) f2
              :: EvSend t2 rq r2 :: EvBackoff (3 # 4) f1
              :: EvSend t1 rq r1 :: EvBackoff (1 # 2) f0
              :: [EvSend (clock w) rq r0]).
      split; [reflexivity|]. split; [reflexivity|]. split.
      * intros _. split; [reflexivity|]. split; [reflexivity|].
        split; [exact Hfs|]. split; [reflexivity|].
        split; [cbn [record_sent sleep sends w4 mk]; lia|].
        cbn [record_sent sleep clock w4 mk throttles fold_left total fold_right].
        ring.
      * intro Hout. exfalso. lra.
Qed.

Lemma backoff_schedule_witness :
  exists w' tr,
    request 4 api_client geocode_path geocode_params
            (world 0 [] three_500_then_ok (1 # 2)) = Some (Return ok_body, w') /\
    trace w' = (tr ++ [])%list /\
    map fst (backoffs tr) = [1 # 2; 3 # 4; 9 # 8] /\
    Forall2 Qeq (dispatch_times tr) [0; 3 # 5; 29 # 20; 107 # 40] /\
    sends w' = 4%nat.
Proof.
  destruct backoff_schedule as (_ & _ & _ & H).
  destruct (H api_client geocode_path geocode_params
              (world 0 [] three_500_then_ok (1 # 2)) geocode_url
              (1 # 10) (1 # 10) (1 # 10) (1 # 10) None None None
              [("status", JStr "OK"); ("results", JArr [])])
    as (r & w' & tr & Hrun & Htr & Hin & _).
  - apply fixture_well_behaved; [|lra|lra].
    apply scripted_took; [repeat constructor; cbn; lra | cbn; lra].
  - vm_compute. reflexivity.
  - reflexivity.
  - reflexivity.
  - reflexivity.
  - reflexivity.
  - reflexivity.
  - destruct Hin as (Hr & Hb & _ & Hd & Hs & _); [vm_compute; discriminate|].
    exists w', tr. rewrite Hr in Hrun.
    split; [exact Hrun|]. split; [exact Htr|].
    split; [rewrite Hb; reflexivity|].
    split; [rewrite Hd; repeat constructor; reflexivity | exact Hs].
Defined.

(** The claim as the specification words it fails: the remote answers 500
    three times and then 200 with status OK, but each answer takes 20
    seconds; with the default deadline of 60 seconds the third retry
    finds 61.25 seconds elapsed, and the engine raises [Timeout] after two
    backoff sleeps and three requests, without the final body. *)
Lemma backoff_schedule_cut_by_deadline :
  exists w',
    request 4 api_client geocode_path geocode_params
            (world 0 [] slow_500_then_ok (1 # 2)) = Some (Raise Timeout, w') /\
    map fst (backoffs (trace w')) = [1 # 2; 3 # 4] /\
    sends w' = 3%nat /\
    clock w' == 245 # 4.
Proof.
  eexists. split; [vm_compute; reflexivity|].
  split; [reflexivity|]. split; reflexivity.
Qed.

(** ** The exceptions of the URL builder *)

Lemma a2b_loop_raises (s : list byte) :
  forall st e, base64.a2b_loop s st = Raise e -> e = binascii_Error.
Proof.
  induction s as [|c s IH]; intros st e; cbn [base64.a2b_loop].
  - destruct (base64.quad_pos st =? 0)%Z; [discriminate | congruence].
  - destruct (Z_of_byte c =? 61)%Z.
    + destruct (2 <=? base64.quad_pos st)%Z; [|apply IH].
      destruct (4 <=? base64.quad_pos st + (base64.pads st + 1))%Z;
        [discriminate | apply IH].
    + destruct (base64.sextet_of c); [|apply IH].
      destruct (base64.quad_pos st =? 0)%Z; [apply IH|].
      destruct (base64.quad_pos st =? 1)%Z; [apply IH|].
      destruct (base64.quad_pos st =? 2)%Z; apply IH.
Qed.

Lemma sign_hmac_returns_or_raises (secret payload : string) :
  match sign_hmac secret payload with
  | Return sig =>
      all_ascii payload = true /\ all_ascii secret = true /\
      exists k,
        base64.urlsafe_b64decode (list_byte_of_string secret) = Return k /\
        sig = string_of_list_byte
                (base64.urlsafe_b64encode
                   (hmac.hmac_sha1 k (list_byte_of_string payload)))
  | Raise e =>
      (e = UnicodeEncodeError /\
       (all_ascii payload = false \/ all_ascii secret = false)) \/
      (e = binascii_Error /\ all_ascii payload = true /\ all_ascii secret = true /\
       base64.urlsafe_b64decode (list_byte_of_string secret) = Raise binascii_Error)
  end.
Proof.
  unfold sign_hmac. rewrite !encode_ascii_spec.
  destruct (all_ascii payload); cbn [rbind]; [|left; auto].
  destruct (all_ascii secret); cbn [rbind]; [|left; auto].
  destruct (base64.urlsafe_b64decode (list_byte_of_string secret)) as [k|e] eqn:Hk;
    cbn [rbind].
  - rewrite decode_utf8_ascii by apply urlsafe_b64encode_ascii. eauto.
  - apply a2b_loop_raises in Hk. subst e. right. auto.
Qed.

Lemma _generate_auth_url_raises (self : Client) (path : string) (params : Params)
    (accepts_clientid : bool) (e : Exn) :
  _generate_auth_url self path params accepts_clientid = Raise e ->
  e = UnicodeEncodeError \/ e = binascii_Error \/ exists msg, e = ValueError msg.
Proof.
  rewrite _generate_auth_url_spec. cbv zeta.
  destruct (accepts_clientid && truthy (client_id self) && truthy (client_secret self)).
  - match goal with
    | |- context [sign_hmac ?s ?p] =>
        pose proof (sign_hmac_returns_or_raises s p) as Hs;
        destruct (sign_hmac s p) as [sig|e']
    end; cbn [rbind]; [discriminate|].
    intros [= <-]. destruct Hs as [[-> _] | [-> _]]; auto.
  - destruct (truthy (key self)); [discriminate|].
    intros [= <-]. eauto.
Qed.

(** ** More on the engine *)

Lemma after_send_frame (base_url : string) (post_json : option Json)
    (authed_url : string) (i : nat) (w : World) :
  let w1 := after_send base_url post_json authed_url i w in
  remote w1 = remote w /\ random_random w1 = random_random w /\
  sends w1 = S (sends w) /\ sent_times w1 = sent_times w.
Proof.
  cbv zeta. unfold after_send.
  destruct (sent_frame (request_of base_url authed_url post_json) (backoff i w))
    as (Hr & Hd & Hs & _ & Ht & _).
  destruct (backoff_frame i w) as (Hr' & Hs' & Hd' & Ht').
  repeat split; congruence.
Qed.

Lemma rate_limit_wait_clock (self : Client) (w : World) :
  clock w <= clock (rate_limit_wait self w).
Proof.
  rewrite rate_limit_wait_spec. unfold window_hot.
  destruct (sent_times w) as [|earliest rest]; [apply Qle_refl|].
  destruct (_ =? _)%nat; cbn [andb]; [|apply Qle_refl].
  destruct (Qltb (clock w - earliest) 1) eqn:E; [|apply Qle_refl].
  apply Qltb_true in E. cbn [hd sleep clock]. lra.
Qed.

Section Engine.

Variables (self : Client) (url : string) (params : Params) (base_url : string)
          (accepts_clientid : bool)
          (extract_body : option (Response -> Result Json))
          (post_json : option Json).

(** Every retry sleeps a quarter of a second at least, so the attempts
    left are bounded by the time left. *)
Lemma attempts_bounded (t0 : Q) (n : nat) :
  forall i w,
    (1 <= i)%nat -> well_behaved w ->
    retry_timeout self - (clock w - t0) < inject_Z (Z.of_nat n) * (1 # 4) ->
    exists r w',
      _request (S n) self url params (Some t0) i base_url accepts_clientid
               extract_body post_json w = Some (r, w').
Proof.
  induction n as [|n IH]; intros i w Hi Hwb Hleft; rewrite _request_unfold;
    destruct (Qltb (retry_timeout self) (clock w - t0)) eqn:Hdl; eauto.
  - apply Qltb_false in Hdl. change (inject_Z (Z.of_nat 0)) with 0 in Hleft. lra.
  - apply Qltb_false in Hdl.
    destruct (_generate_auth_url self url params accepts_clientid)
      as [authed_url|e]; eauto.
    cbv zeta.
    set (rq := request_of base_url authed_url post_json).
    set (w1 := after_send base_url post_json authed_url i w).
    assert (Hw1 : well_behaved w1 /\ clock w + (1 # 4) <= clock w1).
    { destruct (after_send_frame base_url post_json authed_url i w)
        as (Hr & Hd & _ & _).
      split; [now apply (@well_behaved_frame w w1)|].
      unfold w1, after_send.
      destruct (sent_frame rq (backoff i w)) as (_ & _ & _ & _ & _ & Hc & _).
      fold rq. rewrite Hc.
      pose proof (backoff_sleeps Hi Hwb) as Hsleep.
      destruct (backoff_frame i w) as (Hbr & Hbs & _ & _).
      destruct Hwb as [Htook _]. specialize (Htook (sends w) rq).
      rewrite Hbr, Hbs. lra. }
    destruct Hw1 as [Hwb1 Hc1].
    rewrite inject_nat_succ in Hleft.
    destruct (remote w (sends w) rq) as [d response|d|d descr]; eauto.
    destruct (is_retriable (status_code response)).
    + apply IH; [lia | exact Hwb1 | lra].
    + destruct (extracted extract_body response) as [result|e]; eauto.
      destruct (retried self e); eauto.
      apply IH; [lia | |].
      * destruct (rate_limit_wait_frame self w1) as (Hr & _ & Hd & _).
        now apply (@well_behaved_frame w1).
      * pose proof (rate_limit_wait_clock self w1). lra.
Qed.

Lemma _request_sends (fuel : nat) :
  forall o i w r w',
    _request fuel self url params o i base_url accepts_clientid extract_body
             post_json w = Some (r, w') ->
    (sends w' <= sends w + fuel)%nat.
Proof.
  induction fuel as [|fuel IH]; intros o i w r w' Hrun; [discriminate|].
  rewrite _request_started, _request_unfold in Hrun.
  destruct (Qltb _ _); [injection Hrun as <- <-; lia|].
  destruct (_generate_auth_url _ _ _ _) as [authed_url|e].
  2:{ injection Hrun as <- <-. destruct (backoff_frame i w) as (_ & -> & _). lia. }
  cbv zeta in Hrun.
  destruct (after_send_frame base_url post_json authed_url i w)
    as (_ & _ & Hs & _).
  match type of Hrun with
  | context [rate_limit_wait self ?w1] =>
      destruct (rate_limit_wait_frame self w1) as (_ & Hs2 & _ & _)
  end.
  destruct (remote w (sends w) _) as [d response|d|d descr];
    try (injection Hrun as <- <-; lia).
  destruct (is_retriable (status_code response)).
  - apply IH in Hrun. lia.
  - destruct (extracted extract_body response) as [result|e].
    + injection Hrun as <- <-. cbn [record_sent sends]. lia.
    + destruct (retried self e); [apply IH in Hrun; lia|].
      injection Hrun as <- <-. lia.
Qed.

(** X3.  A call always comes to an end: in a world where requests take
    no negative time and the random factor is in [0, 1), [_request] needs
    no more than [floor (4 * retry_timeout) + 3] nested calls (two, when
    the deadline is negative), whatever the remote answers, and sends at
    most that many requests. *)
Theorem request_terminates (w : World) :
  well_behaved w ->
  let fuel := S (S (Z.to_nat (Qfloor (4 * retry_timeout self) + 1))) in
  exists r w',
    _request fuel self url params None 0 base_url accepts_clientid extract_body
             post_json w = Some (r, w') /\
    (sends w' <= sends w + fuel)%nat.
Proof.
  intros Hwb fuel.
  enough (H : exists r w',
             _request fuel self url params None 0 base_url accepts_clientid
                      extract_body post_json w = Some (r, w')).
  { destruct H as (r & w' & Hrun). exists r, w'. split; [exact Hrun|].
    exact (_request_sends _ _ _ _ Hrun). }
  unfold fuel. rewrite _request_started, _request_unfold. cbn [started].
  destruct (Qltb (retry_timeout self) (clock w - clock w)) eqn:Hdl; eauto.
  apply Qltb_false in Hdl.
  assert (HT : 0 <= retry_timeout self) by lra.
  destruct (_generate_auth_url self url params accepts_clientid)
    as [authed_url|e]; eauto.
  cbv zeta.
  set (rq := request_of base_url authed_url post_json).
  set (w1 := after_send base_url post_json authed_url 0 w).
  set (n := Z.to_nat (Qfloor (4 * retry_timeout self) + 1)).
  assert (Hn : 4 * retry_timeout self < inject_Z (Z.of_nat n)).
  { unfold n. rewrite Z2Nat.id; [apply Qlt_floor|].
    assert (0 <= Qfloor (4 * retry_timeout self))%Z; [|lia].
    change 0%Z with (Qfloor 0). apply Qfloor_resp_le. lra. }
  assert (Hw1 : well_behaved w1 /\ clock w <= clock w1).
  { destruct (after_send_frame base_url post_json authed_url 0 w)
      as (Hr & Hd & _ & _).
    split; [now apply (@well_behaved_frame w w1)|].
    unfold w1, after_send.
    destruct (sent_frame rq (backoff 0 w)) as (_ & _ & _ & _ & _ & Hc & _).
    fold rq. rewrite Hc. change (backoff 0 w) with w.
    destruct Hwb as [Htook _]. specialize (Htook (sends w) rq). lra. }
  destruct Hw1 as [Hwb1 Hc1].
  destruct (remote w (sends w) rq) as [d response|d|d descr]; eauto.
  destruct (is_retriable (status_code response)).
  - apply attempts_bounded; [lia | exact Hwb1 | lra].
  - destruct (extracted extract_body response) as [result|e]; eauto.
    destruct (retried self e); eauto.
    apply attempts_bounded; [lia | |].
    + destruct (rate_limit_wait_frame self w1) as (Hr & _ & Hd & _).
      now apply (@well_behaved_frame w1).
    + pose proof (rate_limit_wait_clock self w1). lra.
Qed.

End Engine.

Section EngineRuns.

Variables (self : Client) (url : string) (params : Params) (base_url : string)
          (accepts_clientid : bool)
          (extract_body : option (Response -> Result Json))
          (post_json : option Json).

Lemma Run_returns_ok (t0 : Q) (i : nat) (w : World) (r : Result Json) (w' : World) :
  Run self url params base_url accepts_clientid None post_json t0 i w r w' ->
  forall body, r = Return body ->
    exists items,
      body = JObj items /\
      (lookup "status" items = Some (JStr "OK") \/
       lookup "status" items = Some (JStr "ZERO_RESULTS")).
Proof.
  induction 1 as [i w Hlate | i w e Hdl Hauth' | i w authed_url' d Hdl Hauth' Hrem
                 | i w authed_url' d descr Hdl Hauth' Hrem
                 | i w authed_url' d response r w' Hdl Hauth' Hrem Hretry' _ IH
                 | i w authed_url' d response result Hdl Hauth' Hrem Hretry' Hex
                 | i w authed_url' d response e Hdl Hauth' Hrem Hretry' Hex Hre
                 | i w authed_url' d response e r w' Hdl Hauth' Hrem Hretry' Hex Hre
                     _ IH];
    intros body Hr; try discriminate; auto.
  injection Hr as ->.
  apply _get_body_returns in Hex. destruct Hex as (_ & _ & Hex). exact Hex.
Qed.

Lemma Run_not_retriable (t0 : Q) (i : nat) (w : World) (r : Result Json)
    (w' : World) :
  retry_over_query_limit self = true ->
  Run self url params base_url accepts_clientid extract_body post_json t0
      i w r w' ->
  forall e, r = Raise e -> isinstance e C__RetriableRequest = false.
Proof.
  intros Hretry.
  induction 1 as [i w Hlate | i w e Hdl Hauth' | i w authed_url' d Hdl Hauth' Hrem
                 | i w authed_url' d descr Hdl Hauth' Hrem
                 | i w authed_url' d response r w' Hdl Hauth' Hrem Hretry' _ IH
                 | i w authed_url' d response result Hdl Hauth' Hrem Hretry' Hex
                 | i w authed_url' d response e Hdl Hauth' Hrem Hretry' Hex Hre
                 | i w authed_url' d response e r w' Hdl Hauth' Hrem Hretry' Hex Hre
                     _ IH];
    intros e' Hr; try discriminate; auto; injection Hr as <-; try reflexivity.
  - apply _generate_auth_url_raises in Hauth'.
    destruct Hauth' as [-> | [-> | [msg ->]]]; reflexivity.
  - unfold retried in Hre. rewrite Hretry in Hre.
    cbn [negb] in Hre. rewrite andb_false_r in Hre. cbn [negb] in Hre.
    now rewrite andb_true_r in Hre.
Qed.

Lemma Run_errors (t0 : Q) (i : nat) (w : World) (r : Result Json) (w' : World)
    (authed_url : string) :
  _generate_auth_url self url params accepts_clientid = Return authed_url ->
  Run self url params base_url accepts_clientid None post_json t0 i w r w' ->
  forall e, r = Raise e -> engine_error self e.
Proof.
  intros Hauth.
  induction 1 as [i w Hlate | i w e Hdl Hauth' | i w authed_url' d Hdl Hauth' Hrem
                 | i w authed_url' d descr Hdl Hauth' Hrem
                 | i w authed_url' d response r w' Hdl Hauth' Hrem Hretry' _ IH
                 | i w authed_url' d response result Hdl Hauth' Hrem Hretry' Hex
                 | i w authed_url' d response e Hdl Hauth' Hrem Hretry' Hex Hre
                 | i w authed_url' d response e r w' Hdl Hauth' Hrem Hretry' Hex Hre
                     _ IH];
    intros e' Hr; try discriminate; auto; injection Hr as <-; try exact I.
  - congruence.
  - destruct (_get_body_raises response Hex)
      as [[Hne ->] | [H200 [-> | [-> | [-> | [[m ->] | (st & m & -> & H1 & H2 & H3)]]]]]];
      cbn [engine_error]; auto.
    unfold retried in Hre.
    change (isinstance (_OverQueryLimit (JStr "OVER_QUERY_LIMIT") m)
                       C__RetriableRequest) with true in Hre.
    change (isinstance (_OverQueryLimit (JStr "OVER_QUERY_LIMIT") m)
                       C__OverQueryLimit) with true in Hre.
    cbn [andb] in Hre.
    split; [reflexivity|].
    destruct (retry_over_query_limit self); [discriminate | reflexivity].
Qed.

Lemma Run_spacing (t0 : Q) (i : nat) (w : World) (r : Result Json) (w' : World) :
  Run self url params base_url accepts_clientid extract_body post_json t0
      i w r w' ->
  forall result earliest rest,
    r = Return result ->
    sent_times w = earliest :: rest ->
    length (sent_times w) = queries_per_second self ->
    earliest + 1 <= clock w' /\ sent_times w' = (rest ++ [clock w'])%list.
Proof.
  induction 1 as [i w Hlate | i w e Hdl Hauth | i w authed_url d Hdl Hauth Hrem
                 | i w authed_url d descr Hdl Hauth Hrem
                 | i w authed_url d response r w' Hdl Hauth Hrem Hretry _ IH
                 | i w authed_url d response result Hdl Hauth Hrem Hretry Hex
                 | i w authed_url d response e Hdl Hauth Hrem Hretry Hex Hre
                 | i w authed_url d response e r w' Hdl Hauth Hrem Hretry Hex Hre
                     _ IH];
    intros res earliest rest Hr Hst Hlen; try discriminate.
  - destruct (after_send_frame base_url post_json authed_url i w)
      as (_ & _ & _ & Ht).
    apply (IH res); [exact Hr | congruence | congruence].
  - destruct (after_send_frame base_url post_json authed_url i w)
      as (_ & _ & _ & Ht).
    set (w1 := after_send base_url post_json authed_url i w) in *.
    destruct (rate_limit_wait_frame self w1) as (_ & _ & _ & Ht2).
    assert (Hc : earliest + 1 <= clock (rate_limit_wait self w1)).
    { rewrite rate_limit_wait_spec. unfold window_hot.
      rewrite Ht, Hst. rewrite Hst in Hlen. rewrite Hlen, Nat.eqb_refl.
      cbn [andb hd].
      destruct (Qltb (clock w1 - earliest) 1) eqn:E.
      - cbn [sleep clock]. lra.
      - apply Qltb_false in E. lra. }
    cbn [record_sent clock sent_times]. split; [exact Hc|].
    rewrite Ht2, Ht, Hst.
    rewrite Hst in Hlen.
    apply deque_append_spec.
    + rewrite <- Hlen. lia.
    + exact Hlen.
    + rewrite <- Hlen. cbn. lia.
  - destruct (after_send_frame base_url post_json authed_url i w)
      as (_ & _ & _ & Ht).
    destruct (rate_limit_wait_frame self
                (after_send base_url post_json authed_url i w))
      as (_ & _ & _ & Ht2).
    apply (IH res); [exact Hr | congruence | congruence].
Qed.

Lemma request_returns_ok_body_aux (fuel : nat) (o : option Q) (i : nat)
    (w : World) (body : Json) (w' : World) :
  _request fuel self url params o i base_url accepts_clientid None post_json w
  = Some (Return body, w') ->
  exists items,
    body = JObj items /\
    (lookup "status" items = Some (JStr "OK") \/
     lookup "status" items = Some (JStr "ZERO_RESULTS")).
Proof.
  rewrite _request_started. intro Hrun.
  apply _request_Run in Hrun. exact (Run_returns_ok Hrun eq_refl).
Qed.

(** X4.  With the default extraction, the body that a call returns is a
    JSON object whose [status] field is "OK" or "ZERO_RESULTS". *)
Theorem request_returns_ok_body (fuel : nat) (o : option Q) (i : nat)
    (w : World) (body : Json) (w' : World) :
  _request fuel self url params o i base_url accepts_clientid None post_json w
  = Some (Return body, w') ->
  exists items,
    body = JObj items /\
    (lookup "status" items = Some (JStr "OK") \/
     lookup "status" items = Some (JStr "ZERO_RESULTS")).
Proof. apply request_returns_ok_body_aux. Qed.

(** X5.  A client that retries on over-quota responses lets no retriable
    exception out of [_request]: whatever the extraction, an exception
    that a call raises is not a [_RetriableRequest]. *)
Theorem retriable_never_escapes (fuel : nat) (o : option Q) (i : nat)
    (w : World) (e : Exn) (w' : World) :
  retry_over_query_limit self = true ->
  _request fuel self url params o i base_url accepts_clientid extract_body
           post_json w = Some (Raise e, w') ->
  isinstance e C__RetriableRequest = false.
Proof.
  intro Hretry. rewrite _request_started. intro Hrun.
  apply _request_Run in Hrun. exact (Run_not_retriable Hretry Hrun eq_refl).
Qed.

(** X6.  With the default extraction and a URL that builds, a call raises
    nothing but: [Timeout]; [TransportError] around a failure of the HTTP
    library; [HTTPError] with a status that is neither 200 nor retriable;
    the failures to read the body; [_OverQueryLimit], and then only when
    the client does not retry on over-quota responses; or [ApiError] with
    a status other than "OK", "ZERO_RESULTS" and "OVER_QUERY_LIMIT". *)
Theorem request_errors (fuel : nat) (o : option Q) (i : nat) (w : World)
    (e : Exn) (w' : World) (authed_url : string) :
  _generate_auth_url self url params accepts_clientid = Return authed_url ->
  _request fuel self url params o i base_url accepts_clientid None post_json w
  = Some (Raise e, w') ->
  engine_error self e.
Proof.
  intro Hauth. rewrite _request_started. intro Hrun.
  apply _request_Run in Hrun. exact (Run_errors Hauth Hrun eq_refl).
Qed.

(** X7.  The rate limit, as the code keeps it: when the window is full
    at the start of a call that returns a result, the timestamp that the
    call appends is at least a second later than the oldest entry, which
    is the one evicted. *)
Theorem rate_limit_spacing (fuel : nat) (o : option Q) (i : nat) (w : World)
    (result : Json) (w' : World) (earliest : Q) (rest : list Q) :
  _request fuel self url params o i base_url accepts_clientid extract_body
           post_json w = Some (Return result, w') ->
  sent_times w = earliest :: rest ->
  length (sent_times w) = queries_per_second self ->
  earliest + 1 <= clock w' /\ sent_times w' = (rest ++ [clock w'])%list.
Proof.
  rewrite _request_started. intros Hrun Hst Hlen.
  apply _request_Run in Hrun. exact (Run_spacing Hrun eq_refl Hst Hlen).
Qed.

(** X8.  In a well-behaved world with a window in order, every duration
    that a call hands to [time.sleep] is positive: a backoff sleep has a
    base delay of half a second at least and a factor in [0.5, 1.5), and a
    rate-limit sleep lasts more than nothing and at most one second. *)
Theorem request_sleeps_sane (fuel : nat) (o : option Q) (i : nat) (w : World)
    (r : Result Json) (w' : World) :
  _request fuel self url params o i base_url accepts_clientid extract_body
           post_json w = Some (r, w') ->
  well_behaved w -> window_ok w ->
  exists tr,
    trace w' = (tr ++ trace w)%list /\
    Forall sane_event tr /\
    Forall (fun seconds => 0 < seconds) (sleeps_of tr).
Proof.
  rewrite _request_started. intros Hrun Hwb Hw.
  apply _request_Run in Hrun.
  destruct (@Run_advances self url params base_url accepts_clientid extract_body
              post_json (started o w)
              (match _generate_auth_url self url params accepts_clientid with
               | Return a => request_of base_url a post_json
               | Raise _ => request_of base_url "" post_json
               end) i w r w') as (tr & Htr & Hsane & _); auto.
  { intros a Ha. now rewrite Ha. }
  exists tr. split; [exact Htr|]. split; [exact Hsane|].
  clear Htr. induction Hsane as [|ev tr Hev _ IH]; [constructor|].
  destruct ev; cbn [sleeps_of]; auto; constructor; auto; cbn in Hev.
  - destruct Hev as (Hd & Hf & _).
    apply Qlt_le_trans with ((1 # 2) * (1 # 2)); [reflexivity|].
    apply Qmult_le_compat_nonneg; split; lra.
  - apply Hev.
Qed.

(** X9.  A call keeps the window in chronological order and free of
    times of the future, and the clock never goes back. *)
Theorem window_stays_chronological (fuel : nat) (o : option Q) (i : nat)
    (w : World) (r : Result Json) (w' : World) :
  _request fuel self url params o i base_url accepts_clientid extract_body
           post_json w = Some (r, w') ->
  well_behaved w -> window_ok w ->
  window_ok w' /\ clock w <= clock w'.
Proof.
  rewrite _request_started. intros Hrun Hwb Hw.
  apply _request_Run in Hrun.
  destruct (@Run_advances self url params base_url accepts_clientid extract_body
              post_json (started o w)
              (match _generate_auth_url self url params accepts_clientid with
               | Return a => request_of base_url a post_json
               | Raise _ => request_of base_url "" post_json
               end) i w r w') as (tr & Hadv); auto.
  { intros a Ha. now rewrite Ha. }
  split; apply Hadv.
Qed.

(** X10.  All the attempts of a call send the same request: the URL
    built for the call and the same payload; and each request of the log
    is one send of the HTTP library.  This holds whatever the remote
    answers and whatever the clock and the window are. *)
Theorem same_request_every_attempt (fuel : nat) (o : option Q) (i : nat)
    (w : World) (r : Result Json) (w' : World) (authed_url : string) :
  _generate_auth_url self url params accepts_clientid = Return authed_url ->
  _request fuel self url params o i base_url accepts_clientid extract_body
           post_json w = Some (r, w') ->
  exists tr,
    trace w' = (tr ++ trace w)%list /\
    Forall (eq (request_of base_url authed_url post_json)) (requests_of tr) /\
    sends w' = (sends w + length (requests_of tr))%nat.
Proof.
  intro Hauth. rewrite _request_started. intro Hrun.
  apply _request_Run in Hrun.
  apply (@Run_logged self url params base_url accepts_clientid extract_body
           post_json (started o w) (request_of base_url authed_url post_json)
           i w r w'); [|exact Hrun].
  intros a Ha. congruence.
Qed.

(** X11.  When the URL cannot be built, a call with retry counter 0
    sends nothing and leaves the world as it was: nothing is slept, the
    window is untouched.  It raises [Timeout] when its deadline check
    fails, and the exception of the builder otherwise; with a first
    request time given, the check fails exactly when more than
    [retry_timeout] has passed since.  The exception of the builder is the
    encoding error or the base64 error of the signer, or the [ValueError]
    of the builder itself. *)
Theorem auth_failure_sends_nothing (fuel : nat) (o : option Q) (w : World)
    (e : Exn) :
  _generate_auth_url self url params accepts_clientid = Raise e ->
  (exists e',
     _request (S fuel) self url params o 0 base_url accepts_clientid
              extract_body post_json w = Some (Raise e', w) /\
     (e' = Timeout \/ e' = e) /\
     forall t0, o = Some t0 ->
       (clock w - t0 <= retry_timeout self -> e' = e) /\
       (retry_timeout self < clock w - t0 -> e' = Timeout)) /\
  (e = UnicodeEncodeError \/ e = binascii_Error \/ exists msg, e = ValueError msg).
Proof.
  intros Hauth. split; [|exact (_generate_auth_url_raises _ _ _ _ Hauth)].
  rewrite _request_started, _request_unfold.
  destruct (Qltb (retry_timeout self) (clock w - started o w)) eqn:Hdl.
  - exists Timeout. split; [reflexivity|]. split; [now left|].
    intros t0 ->. cbn [started] in Hdl. apply Qltb_true in Hdl.
    split; [intro Hle; exfalso; lra | reflexivity].
  - rewrite Hauth. exists e. split; [reflexivity|]. split; [now right|].
    intros t0 ->. cbn [started] in Hdl. apply Qltb_false in Hdl.
    split; [reflexivity | intro Hlt; exfalso; lra].
Qed.

End EngineRuns.

(** ** The constructor *)

(** [round] is within a half of its argument. *)
Lemma round_half_even_near (x : Q) :
  inject_Z (round_half_even x) - (1 # 2) <= x /\
  x <= inject_Z (round_half_even x) + (1 # 2).
Proof.
  unfold round_half_even.
  pose proof (Qfloor_le x) as Hlo. pose proof (Qlt_floor x) as Hhi.
  rewrite inject_Z_plus in Hhi. change (inject_Z 1) with 1 in Hhi.
  destruct (Qltb (x - inject_Z (Qfloor x)) (1 # 2)) eqn:E1.
  { apply Qltb_true in E1. split; lra. }
  apply Qltb_false in E1.
  destruct (Qltb (1 # 2) (x - inject_Z (Qfloor x))) eqn:E2.
  { rewrite inject_Z_plus. change (inject_Z 1) with 1. split; lra. }
  apply Qltb_false in E2.
  destruct (Z.even (Qfloor x)).
  - split; lra.
  - rewrite inject_Z_plus. change (inject_Z 1) with 1. split; lra.
Qed.

(** [round] reaches an even integer from half a unit below it on. *)
Lemma round_half_even_ge (m : Z) (x : Q) :
  Z.even m = true ->
  (m <= round_half_even x)%Z <-> inject_Z m - (1 # 2) <= x.
Proof.
  intro Hm. unfold round_half_even.
  pose proof (Qfloor_le x) as Hlo. pose proof (Qlt_floor x) as Hhi.
  set (n := Qfloor x) in *.
  rewrite inject_Z_plus in Hhi. change (inject_Z 1) with 1 in Hhi.
  assert (Hz : forall a b : Z, inject_Z a < inject_Z b + 1 -> (a <= b)%Z).
  { intros a b H. change 1 with (inject_Z 1) in H. rewrite <- inject_Z_plus in H.
    rewrite <- Zlt_Qlt in H. lia. }
  assert (Hq : forall a b : Z, (a <= b)%Z -> inject_Z a <= inject_Z b).
  { intros a b H. now rewrite <- Zle_Qle. }
  assert (Hm1 : inject_Z (m - 1) == inject_Z m - 1).
  { replace (m - 1)%Z with (m + -1)%Z by lia. rewrite inject_Z_plus.
    change (inject_Z (-1)) with (-1). ring. }
  destruct (Qltb (x - inject_Z n) (1 # 2)) eqn:E1.
  { apply Qltb_true in E1. split.
    - intro H. apply Hq in H. lra.
    - intro H. apply Hz. lra. }
  apply Qltb_false in E1.
  destruct (Qltb (1 # 2) (x - inject_Z n)) eqn:E2.
  { apply Qltb_true in E2. split.
    - intro H. apply Hq in H. rewrite inject_Z_plus in H.
      change (inject_Z 1) with 1 in H. lra.
    - intro H. assert (H1 : (m - 1 <= n)%Z); [|lia].
      apply Hz. rewrite Hm1. lra. }
  apply Qltb_false in E2.
  destruct (Z.even n) eqn:En.
  - split.
    + intro H. apply Hq in H. lra.
    + intro H. assert (H1 : (m - 1 <= n)%Z) by (apply Hz; rewrite Hm1; lra).
      assert (Hne : m <> (n + 1)%Z).
      { intros ->. rewrite Z.even_add, En in Hm. discriminate Hm. }
      lia.
  - split.
    + intro H. apply Hq in H. rewrite inject_Z_plus in H.
      change (inject_Z 1) with 1 in H. lra.
    + intro H. assert (H1 : (m - 1 <= n)%Z); [|lia].
      apply Hz. rewrite Hm1. lra.
Qed.

(** [timedelta(seconds=...)]: the range it accepts and what it stores. *)
Lemma timedelta_cases (seconds : Q) :
  let lo := -86399999913600 - (1 # 2000000) in
  let hi := 86400000000000 - (1 # 2000000) in
  (lo <= seconds /\ seconds < hi ->
   exists d n,
     timedelta seconds = Return d /\
     d == inject_Z n / 1000000 /\
     seconds - (1 # 2000000) <= d /\ d <= seconds + (1 # 2000000)) /\
  (seconds < lo \/ hi <= seconds ->
   timedelta seconds = Raise (OtherException "OverflowError")).
Proof.
  cbv zeta. unfold timedelta.
  set (us := round_half_even (seconds * 1000000)).
  pose proof (round_half_even_near (seconds * 1000000)) as [Hn1 Hn2].
  fold us in Hn1, Hn2.
  pose proof (@round_half_even_ge (-86399999913600000000) (seconds * 1000000) eq_refl)
    as Hlo. fold us in Hlo.
  pose proof (@round_half_even_ge 86400000000000000000 (seconds * 1000000) eq_refl)
    as Hhi. fold us in Hhi.
  change (inject_Z (-86399999913600000000)) with (-86399999913600000000) in Hlo.
  change (inject_Z 86400000000000000000) with 86400000000000000000 in Hhi.
  pose proof (Z_div_mod_eq_full us 86400000000) as Hdiv.
  pose proof (Z.mod_pos_bound us 86400000000 eq_refl) as Hmod.
  set (days := (us / 86400000000)%Z) in *.
  split.
  - intros [H1 H2].
    assert (Hl : (-86399999913600000000 <= us)%Z) by (apply Hlo; lra).
    assert (Hh : ~ (86400000000000000000 <= us)%Z) by (intro H; apply Hhi in H; lra).
    assert (Hd1 : (-999999999 <=? days)%Z = true) by (apply Z.leb_le; lia).
    assert (Hd2 : (days <=? 999999999)%Z = true) by (apply Z.leb_le; lia).
    rewrite Hd1, Hd2. cbn [andb].
    exists (Qred (inject_Z us / 1000000)), us.
    split; [reflexivity|]. split; [apply Qred_correct|].
    rewrite Qred_correct.
    assert (He : inject_Z us / 1000000 == inject_Z us * (1 # 1000000))
      by reflexivity.
    rewrite He. split; lra.
  - intros [H | H].
    + assert (Hl : ~ (-86399999913600000000 <= us)%Z)
        by (intro H'; apply Hlo in H'; lra).
      assert (Hd1 : (-999999999 <=? days)%Z = false) by (apply Z.leb_gt; lia).
      rewrite Hd1. reflexivity.
    + assert (Hh : (86400000000000000000 <= us)%Z) by (apply Hhi; lra).
      assert (Hd2 : (days <=? 999999999)%Z = false) by (apply Z.leb_gt; lia).
      rewrite Hd2, andb_false_r. reflexivity.
Qed.

(** The checks of the constructor that come before the deadline is
    stored. *)
Lemma Client_init_checks (api_key id secret : option string)
    (timeout connect_timeout read_timeout : option Q) (deadline : Q) (qps : nat)
    (chan : option string) (retry_quota : bool) :
  (acceptable api_key id secret timeout connect_timeout read_timeout chan = true ->
   Client_init api_key id secret timeout connect_timeout read_timeout deadline
               qps chan retry_quota
   = rbind (timedelta deadline)
       (fun d => Return ({| key := api_key; client_id := id;
                            client_secret := secret; channel := chan;
                            retry_timeout := d; queries_per_second := qps;
                            retry_over_query_limit := retry_quota;
                            _extra_params := None |}, []))) /\
  (acceptable api_key id secret timeout connect_timeout read_timeout chan = false ->
   exists msg,
     Client_init api_key id secret timeout connect_timeout read_timeout deadline
                 qps chan retry_quota = Raise (ValueError msg)).
Proof.
  unfold acceptable, Client_init.
  destruct (truthy api_key), (truthy secret), (truthy id),
    (startswith (str_of api_key) "AIza"), (truthy chan),
    (channel_match (str_of chan)), (nonzero timeout),
    (nonzero connect_timeout), (nonzero read_timeout);
    cbn [andb orb negb]; split; intro H;
    first [discriminate H | reflexivity | eexists; reflexivity].
Qed.

(** A client that the constructor returned. *)
Lemma Client_init_returns (api_key id secret : option string)
    (timeout connect_timeout read_timeout : option Q) (deadline : Q) (qps : nat)
    (chan : option string) (retry_quota : bool) (self : Client) (window : list Q) :
  Client_init api_key id secret timeout connect_timeout read_timeout deadline
              qps chan retry_quota = Return (self, window) ->
  acceptable api_key id secret timeout connect_timeout read_timeout chan = true /\
  key self = api_key /\ client_id self = id /\ client_secret self = secret /\
  channel self = chan /\ timedelta deadline = Return (retry_timeout self).
Proof.
  intro Hinit.
  destruct (Client_init_checks api_key id secret timeout connect_timeout
              read_timeout deadline qps chan retry_quota) as [Hyes Hno].
  destruct (acceptable api_key id secret timeout connect_timeout read_timeout chan).
  - rewrite (Hyes eq_refl) in Hinit.
    destruct (timedelta deadline) as [d|e]; cbn [rbind] in Hinit; [|discriminate].
    injection Hinit as <- _. repeat split.
  - destruct (Hno eq_refl) as [msg Hmsg]. congruence.
Qed.

(** X12.  [Client.__init__] raises [ValueError] exactly when its
    arguments fail one of these: there is an API key or a client ID with
    its secret; the key, if any, starts with "AIza"; the channel, if any,
    comes with a client ID and matches the channel pattern; [timeout] is
    not combined with a connect or read timeout.  Otherwise the deadline
    decides: [timedelta] raises [OverflowError] when [retry_timeout],
    rounded to microseconds, is below -999999999 days or not below
    1000000000 days; else the constructor returns the client with the
    arguments as given, an empty window, and a deadline that is a whole
    number of microseconds less than a microsecond from [retry_timeout]:
    [retry_timeout] itself when it is a whole number of microseconds. *)
Theorem Client_init_accepts_iff (api_key id secret : option string)
    (timeout connect_timeout read_timeout : option Q) (deadline : Q) (qps : nat)
    (chan : option string) (retry_quota : bool) :
  let lo := -86399999913600 - (1 # 2000000) in
  let hi := 86400000000000 - (1 # 2000000) in
  (acceptable api_key id secret timeout connect_timeout read_timeout chan = false ->
   exists msg,
     Client_init api_key id secret timeout connect_timeout read_timeout deadline
                 qps chan retry_quota = Raise (ValueError msg)) /\
  (acceptable api_key id secret timeout connect_timeout read_timeout chan = true ->
   deadline < lo \/ hi <= deadline ->
   Client_init api_key id secret timeout connect_timeout read_timeout deadline
               qps chan retry_quota = Raise (OtherException "OverflowError")) /\
  (acceptable api_key id secret timeout connect_timeout read_timeout chan = true ->
   lo <= deadline /\ deadline < hi ->
   exists d n,
     Client_init api_key id secret timeout connect_timeout read_timeout deadline
                 qps chan retry_quota
     = Return ({| key := api_key; client_id := id; client_secret := secret;
                  channel := chan; retry_timeout := d;
                  queries_per_second := qps;
                  retry_over_query_limit := retry_quota;
                  _extra_params := None |}, []) /\
     d == inject_Z n / 1000000 /\
     deadline - (1 # 1000000) < d /\ d < deadline + (1 # 1000000) /\
     (forall m, deadline == inject_Z m / 1000000 -> d == deadline)).
Proof.
  cbv zeta.
  destruct (Client_init_checks api_key id secret timeout connect_timeout
              read_timeout deadline qps chan retry_quota) as [Hyes Hno].
  destruct (timedelta_cases deadline) as [Hin Hout].
  split; [exact Hno|]. split.
  - intros Hacc Hrange. rewrite (Hyes Hacc), (Hout Hrange). reflexivity.
  - intros Hacc Hrange. destruct (Hin Hrange) as (d & n & Hd & Hn & Hlo & Hhi).
    exists d, n. rewrite (Hyes Hacc), Hd. split; [reflexivity|].
    split; [exact Hn|]. split; [lra|]. split; [lra|].
    intros m Hm. rewrite Hn, Hm.
    assert (Hdiv : forall z, inject_Z z / 1000000 == inject_Z z * (1 # 1000000))
      by (intro z; reflexivity).
    rewrite Hn, Hm, !Hdiv in Hlo, Hhi.
    assert (Hz : forall a b : Z, inject_Z a < inject_Z b + 1 -> (a <= b)%Z).
    { intros a b H. change 1 with (inject_Z 1) in H.
      rewrite <- inject_Z_plus, <- Zlt_Qlt in H. lia. }
    assert (Hnm : n = m).
    { apply Z.le_antisymm; apply Hz; lra. }
    now rewrite Hnm.
Qed.

Lemma Client_init_accepts_iff_witness :
  (exists msg,
     Client_init (Some "Invalid-key") None None None None None 60 50 None true
     = Raise (ValueError msg)) /\
  Client_init (Some "AIzaasdf") None None None None None 1000000000000000000 50
              None true
  = Raise (OtherException "OverflowError") /\
  (exists d,
     Client_init (Some "AIzaasdf") None None None None None 60 50 None true
     = Return (with_deadline d api_client, []) /\
     d == 60).
Proof.
  split; [|split].
  - apply (proj1 (Client_init_accepts_iff (Some "Invalid-key") None None None None
                    None 60 50 None true)). reflexivity.
  - apply (proj1 (proj2 (Client_init_accepts_iff (Some "AIzaasdf") None None None
                           None None 1000000000000000000 50 None true)));
      [reflexivity | right; vm_compute; discriminate].
  - destruct (proj2 (proj2 (Client_init_accepts_iff (Some "AIzaasdf") None None None
                              None None 60 50 None true)))
      as (d & n & Hinit & _ & _ & _ & Hexact);
      [reflexivity | split; vm_compute; [discriminate | reflexivity] |].
    exists d. split; [exact Hinit | apply (Hexact 60000000%Z); reflexivity].
Defined.

Lemma all_chars_String (p : ascii -> bool) (c : ascii) (s : string) :
  all_chars p (String c s) = p c && all_chars p s.
Proof. reflexivity. Qed.

Lemma all_chars_app (p : ascii -> bool) (s1 s2 : string) :
  all_chars p (s1 ++ s2) = all_chars p s1 && all_chars p s2.
Proof.
  induction s1 as [|c s1 IH]; [reflexivity|].
  cbn [append]. rewrite !all_chars_String, IH. apply andb_assoc.
Qed.

(** X13.  The channel pattern of the constructor: a channel matches when
    all its characters are letters, digits, [.], [_] or [-], and also when
    such a string is followed by one final newline. *)
Theorem channel_match_chars (s : string) :
  channel_match s = true <->
  all_chars channel_char s = true \/
  exists s', s = (s' ++ String (ascii_of_nat 10) "")%string /\
             all_chars channel_char s' = true.
Proof.
  induction s as [|c s IH].
  - split; [now left | reflexivity].
  - cbn [channel_match]. rewrite all_chars_String.
    unfold channel_char at 1. unfold code.
    destruct (urllib.is_ascii_alnum (Z.of_N (N_of_ascii c))
              || (Z.of_N (N_of_ascii c) =? 46)%Z
              || (Z.of_N (N_of_ascii c) =? 95)%Z
              || (Z.of_N (N_of_ascii c) =? 45)%Z) eqn:Hc.
    + rewrite IH. cbn [andb]. split.
      * intros [H | (s' & -> & H)]; [now left|].
        right. exists (String c s'). split; [reflexivity|].
        rewrite all_chars_String. unfold channel_char at 1. unfold code.
        now rewrite Hc.
      * intros [H | (s' & Hs & H)]; [now left|].
        destruct s' as [|c' s'].
        -- cbn in Hs. injection Hs as -> ->. discriminate Hc.
        -- cbn in Hs. injection Hs as -> ->.
           rewrite all_chars_String in H. apply andb_prop in H.
           right. exists s'. split; [reflexivity | apply H].
    + cbn [andb]. split.
      * intro H. apply andb_prop in H. destruct H as [Hnl Hempty].
        apply Z.eqb_eq in Hnl. apply String.eqb_eq in Hempty. subst s.
        right. exists ""%string. split; [|reflexivity].
        cbn. f_equal.
        assert (Hn : N_of_ascii c = 10%N) by lia.
        rewrite <- (ascii_N_embedding c), Hn. reflexivity.
      * intros [H | (s' & Hs & H)]; [discriminate|].
        destruct s' as [|c' s'].
        -- cbn in Hs. injection Hs as -> ->. reflexivity.
        -- cbn in Hs. injection Hs as -> ->.
           rewrite all_chars_String in H. unfold channel_char at 1 in H.
           unfold code in H. rewrite Hc in H. discriminate.
Qed.

Lemma channel_match_chars_witness :
  channel_match "MyChannel_1" = true /\
  channel_match (String.append "abc" (String (ascii_of_nat 10) "")) = true.
Proof.
  split.
  - apply (proj2 (channel_match_chars "MyChannel_1")). left. reflexivity.
  - apply (proj2 (channel_match_chars _)). right.
    exists "abc"%string. split; reflexivity.
Defined.

(** X14.  A client that the constructor returned never gets the
    [ValueError] of the builder on an endpoint that accepts client IDs:
    there the builder can raise the encoding error, or the base64 error
    of the signer, and this one only with enterprise credentials.  On an
    endpoint that takes API keys only, the builder raises its [ValueError]
    exactly when the client has no key, and then whatever the parameters
    are. *)
Theorem constructed_client_authenticates (api_key id secret : option string)
    (timeout connect_timeout read_timeout : option Q) (deadline : Q) (qps : nat)
    (chan : option string) (retry_quota : bool) (self : Client)
    (window : list Q) (path : string) (params : Params) :
  Client_init api_key id secret timeout connect_timeout read_timeout deadline
              qps chan retry_quota = Return (self, window) ->
  (forall e, _generate_auth_url self path params true = Raise e ->
     e = UnicodeEncodeError \/
     (e = binascii_Error /\
      truthy (client_id self) = true /\ truthy (client_secret self) = true)) /\
  (truthy (key self) = false ->
   exists msg, _generate_auth_url self path params false = Raise (ValueError msg)) /\
  (forall msg, _generate_auth_url self path params false = Raise (ValueError msg) ->
     truthy (key self) = false).
Proof.
  intro Hinit.
  destruct (Client_init_returns _ _ _ _ _ _ _ _ _ _ Hinit)
    as (Hacc & Hkey & Hid & Hsec & _).
  unfold acceptable in Hacc.
  apply andb_prop in Hacc. destruct Hacc as [Hacc _].
  apply andb_prop in Hacc. destruct Hacc as [Hacc _].
  apply andb_prop in Hacc. destruct Hacc as [Hcred _].
  rewrite <- Hkey, <- Hid, <- Hsec in Hcred.
  split; [|split].
  - intros e. rewrite _generate_auth_url_spec. cbv zeta. cbn [andb].
    destruct (truthy (client_id self)) eqn:Hi, (truthy (client_secret self)) eqn:Hs;
      cbn [andb] in *.
    + match goal with
      | |- context [sign_hmac ?s ?p] =>
          pose proof (sign_hmac_returns_or_raises s p) as Hsig;
          destruct (sign_hmac s p) as [sig|e']
      end; cbn [rbind]; [discriminate|].
      intros [= <-]. destruct Hsig as [[-> _] | [-> _]]; auto.
    + rewrite orb_false_r in Hcred. rewrite Hcred. discriminate.
    + rewrite orb_false_r in Hcred. rewrite Hcred. discriminate.
    + rewrite orb_false_r in Hcred. rewrite Hcred. discriminate.
  - intro Hk. rewrite _generate_auth_url_spec. cbv zeta. cbn [andb].
    rewrite Hk. eauto.
  - intros msg. rewrite _generate_auth_url_spec. cbv zeta. cbn [andb].
    destruct (truthy (key self)); [discriminate | reflexivity].
Qed.

Lemma constructed_client_authenticates_witness :
  exists msg,
    _generate_auth_url enterprise_client geocode_path geocode_params false
    = Raise (ValueError msg).
Proof.
  destruct (@constructed_client_authenticates None (Some "foo") (Some "a2V5") None
              None None 60 50 (Some "abc") true enterprise_client []
              geocode_path geocode_params eq_refl) as (_ & H & _).
  apply H. reflexivity.
Defined.

(** ** The exception classes, again *)

Lemma all_classes_complete (c : ExcClass) : In c all_classes.
Proof. destruct c; cbn; tauto. Qed.

Lemma for_all_classes (P : ExcClass -> bool) :
  forallb P all_classes = true -> forall c, P c = true.
Proof.
  intros H c. rewrite forallb_forall in H. apply H, all_classes_complete.
Qed.

Lemma ExcClass_eqb_eq (c d : ExcClass) : ExcClass_eqb c d = true <-> c = d.
Proof. destruct c, d; cbn; split; intro H; try reflexivity; discriminate H. Qed.

(** X15.  [issubclass] on the exception classes is a partial order with
    [Exception] on top.  A handler for [TransportError] catches
    [TransportError] and [HTTPError] and nothing else; one for [ApiError]
    catches [ApiError] and [_OverQueryLimit]; and the only classes that
    the engine takes for retriable are [_RetriableRequest] and
    [_OverQueryLimit]. *)
Theorem issubclass_order :
  (forall c, issubclass c c = true) /\
  (forall c d e, issubclass c d = true -> issubclass d e = true ->
                 issubclass c e = true) /\
  (forall c d, issubclass c d = true -> issubclass d c = true -> c = d) /\
  (forall c, issubclass c C_Exception = true) /\
  (forall c, issubclass c C_TransportError = true <->
             c = C_TransportError \/ c = C_HTTPError) /\
  (forall c, issubclass c C_ApiError = true <->
             c = C_ApiError \/ c = C__OverQueryLimit) /\
  (forall c, issubclass c C__RetriableRequest = true <->
             c = C__RetriableRequest \/ c = C__OverQueryLimit).
Proof.
  split; [|split; [|split; [|split; [|split; [|split]]]]].
  - apply for_all_classes. vm_compute. reflexivity.
  - intros c d e.
    assert (H : (negb (issubclass c d) || negb (issubclass d e) || issubclass c e)
                = true).
    { revert e. apply for_all_classes. revert d. apply for_all_classes.
      revert c. apply for_all_classes. vm_compute. reflexivity. }
    intros Hcd Hde. rewrite Hcd, Hde in H. exact H.
  - intros c d.
    assert (H : (negb (issubclass c d) || negb (issubclass d c) || ExcClass_eqb c d)
                = true).
    { revert d. apply for_all_classes. revert c. apply for_all_classes.
      vm_compute. reflexivity. }
    intros Hcd Hdc. apply ExcClass_eqb_eq. rewrite Hcd, Hdc in H. exact H.
  - apply for_all_classes. vm_compute. reflexivity.
  - intro c. split.
    + destruct c; cbn; intro H; try discriminate H; auto.
    + intros [-> | ->]; reflexivity.
  - intro c. split.
    + destruct c; cbn; intro H; try discriminate H; auto.
    + intros [-> | ->]; reflexivity.
  - intro c. split.
    + destruct c; cbn; intro H; try discriminate H; auto.
    + intros [-> | ->]; reflexivity.
Qed.

Lemma issubclass_order_witness :
  issubclass C_HTTPError C_Exception = true /\
  C__OverQueryLimit = C__OverQueryLimit.
Proof.
  destruct issubclass_order as (_ & Htrans & Hanti & _).
  split.
  - apply (Htrans C_HTTPError C_TransportError C_Exception); reflexivity.
  - apply (Hanti C__OverQueryLimit C__OverQueryLimit); reflexivity.
Defined.

(** ** Geocoding *)

Ltac distinct_keys :=
  unfold is_dict; cbn [keys map fst];
  repeat (constructor; [cbn [In]; intuition discriminate|]); constructor.

Section GeocodeFacts.

Variables Components Bounds : Type.
Variable convert_components : Components -> Result string.
Variable convert_bounds : Bounds -> Result string.

(** X16.  [geocode] sends one parameter for each argument that is given,
    and none for an argument that is absent or empty: the parameters are
    [address], [components], [bounds], [region], [language], in this
    order, each at most once, and the strings are passed as they are. *)
Theorem geocode_query_params (address : option string)
    (components : option Components) (bounds : option Bounds)
    (region language : option string) (params : Dict Value) :
  geocode_query convert_components convert_bounds address components bounds
                region language = Return params ->
  is_dict params /\
  keys params
  = ((if truthy address then ["address"] else [])
     ++ match components with Some _ => ["components"] | None => [] end
     ++ match bounds with Some _ => ["bounds"] | None => [] end
     ++ (if truthy region then ["region"] else [])
     ++ (if truthy language then ["language"] else []))%list /\
  lookup "address" params
  = (if truthy address then Some (VStr (str_of address)) else None) /\
  lookup "region" params
  = (if truthy region then Some (VStr (str_of region)) else None) /\
  lookup "language" params
  = (if truthy language then Some (VStr (str_of language)) else None).
Proof.
  unfold geocode_query.
  destruct (truthy address), components as [c|], bounds as [b|],
    (truthy region), (truthy language);
    try destruct (convert_components c) as [sc|ec];
    try destruct (convert_bounds b) as [sb|eb];
    cbn [rbind dict_set String.eqb Ascii.eqb Bool.eqb];
    intro H; try discriminate H; injection H as <-;
    (split; [distinct_keys | repeat split]).
Qed.

(** X17.  [geocode] gives the [results] of the body, or an empty list
    when the body has none; it raises what the conversions or the request
    raise, and nothing of its own: the body that the request returns is
    always an object. *)
Theorem geocode_outcome (fuel : nat) (client : Client) (address : option string)
    (components : option Components) (bounds : option Bounds)
    (region language : option string) (w : World) (r : Result Json) (w' : World) :
  geocode convert_components convert_bounds fuel client address components bounds
          region language w = Some (r, w') ->
  (exists e,
     geocode_query convert_components convert_bounds address components bounds
                   region language = Raise e /\ r = Raise e /\ w' = w) \/
  (exists params,
     geocode_query convert_components convert_bounds address components bounds
                   region language = Return params /\
     ((exists e,
         request fuel client "/maps/api/geocode/json" (PDict params) w
         = Some (Raise e, w') /\ r = Raise e) \/
      (exists items,
         request fuel client "/maps/api/geocode/json" (PDict params) w
         = Some (Return (JObj items), w') /\
         r = Return (match lookup "results" items with
                     | Some v => v
                     | None => JArr []
                     end)))).
Proof.
  unfold geocode.
  destruct (geocode_query _ _ _ _ _ _ _) as [params|e].
  2:{ intros [= <- <-]. left. eauto. }
  intro H. right. exists params. split; [reflexivity|].
  destruct (request fuel client "/maps/api/geocode/json" (PDict params) w)
    as [[[body|e] w1]|] eqn:Hrun; cbn [with_results] in H; try discriminate H.
  - injection H as <- <-. right.
    pose proof Hrun as Hok. unfold request in Hok.
    apply request_returns_ok_body_aux in Hok. destruct Hok as (items & -> & _).
    exists items. split; [reflexivity|].
    cbn [get_results]. destruct (lookup "results" items); reflexivity.
  - injection H as <- <-. left. eauto.
Qed.

End GeocodeFacts.

Section ReverseGeocodeFacts.

Variables Types Point : Type.
Variable convert_join_list : string -> Types -> Result string.
Variable convert_latlng : LatLng Point -> Result string.

(** X18.  [reverse_geocode] names its first parameter [place_id] exactly
    when [latlng] is a string without a comma, and passes it as it is;
    otherwise the parameter is [latlng], converted.  [result_type],
    [location_type] and [language] follow when they are given, each at
    most once. *)
Theorem reverse_geocode_query_params (latlng : LatLng Point)
    (result_type location_type : option Types) (language : option string)
    (params : Dict Value) :
  reverse_geocode_query convert_join_list convert_latlng latlng result_type
                        location_type language = Return params ->
  is_dict params /\
  (exists first,
     keys params
     = (first :: match result_type with Some _ => ["result_type"] | None => [] end
        ++ match location_type with Some _ => ["location_type"] | None => [] end
        ++ (if truthy language then ["language"] else []))%list /\
     match latlng with
     | LatLngStr s =>
         if contains_char "," s
         then first = "latlng" /\
              exists s', convert_latlng latlng = Return s' /\
                         lookup "latlng" params = Some (VStr s')
         else first = "place_id" /\ lookup "place_id" params = Some (VStr s)
     | LatLngPoint _ =>
         first = "latlng" /\
         exists s', convert_latlng latlng = Return s' /\
                    lookup "latlng" params = Some (VStr s')
     end).
Proof.
  unfold reverse_geocode_query.
  destruct latlng as [s|p];
    [destruct (contains_char "," s)|]; cbn [negb];
    try destruct (convert_latlng _) as [s'|e']; cbn [rbind];
    try (intro H; discriminate H);
    destruct result_type as [t1|], location_type as [t2|], (truthy language);
    try destruct (convert_join_list "|" t1) as [s1|e1];
    try destruct (convert_join_list "|" t2) as [s2|e2];
    cbn [rbind dict_set String.eqb Ascii.eqb Bool.eqb];
    intro H; try discriminate H; injection H as <-;
    (split; [distinct_keys | eexists; split; [reflexivity|]; eauto]).
Qed.

End ReverseGeocodeFacts.

(** ** The characters of a URL *)

Lemma all_chars_impl (p q : ascii -> bool) (s : string) :
  (forall c, p c = true -> q c = true) ->
  all_chars p s = true -> all_chars q s = true.
Proof.
  intros Hpq. unfold all_chars. rewrite !forallb_forall. auto.
Qed.

Lemma all_ascii_chars (s : string) : all_ascii s = all_chars is_ascii s.
Proof. reflexivity. Qed.

Lemma quote_byte_chars (b : byte) :
  all_chars quoted_char (urllib.quote_byte b) = true.
Proof. destruct b; reflexivity. Qed.

Lemma quote_plus_chars (s : string) :
  all_chars quoted_char (urllib.quote_plus s) = true.
Proof.
  unfold urllib.quote_plus.
  induction (encode_utf8 s) as [|b bs IH]; [reflexivity|].
  cbn [map]. rewrite concat_empty_cons, all_chars_app, quote_byte_chars.
  exact IH.
Qed.

Lemma quoted_query_char (c : ascii) : quoted_char c = true -> query_char c = true.
Proof.
  unfold quoted_char, query_char. intro H. rewrite H. reflexivity.
Qed.

Lemma encode_item_chars (kv : string * Value) :
  all_chars query_char (encode_item kv) = true.
Proof.
  unfold encode_item. rewrite !all_chars_app.
  rewrite !(@all_chars_impl quoted_char query_char _ quoted_query_char (quote_plus_chars _)).
  reflexivity.
Qed.

Lemma urlencode_chars (query : list (string * Value)) :
  all_chars query_char (urllib.urlencode query) = true.
Proof.
  unfold urllib.urlencode. fold encode_item.
  induction query as [|kv [|kv' rest] IH]; [reflexivity | apply encode_item_chars |].
  change (String.concat "&" (map encode_item (kv :: kv' :: rest)))
    with (encode_item kv ++ String "&" (String.concat "&" (map encode_item (kv' :: rest))))%string.
  rewrite all_chars_app, encode_item_chars, all_chars_String, IH. reflexivity.
Qed.

Lemma query_char_ascii (c : ascii) : query_char c = true -> is_ascii c = true.
Proof.
  destruct c as [[] [] [] [] [] [] [] []]; intro H;
    first [reflexivity | discriminate H].
Qed.

Lemma signature_char_ascii (c : ascii) : signature_char c = true -> is_ascii c = true.
Proof.
  destruct c as [[] [] [] [] [] [] [] []]; intro H;
    first [reflexivity | discriminate H].
Qed.

(** ** The shape of a signature *)

Lemma digest_length (msg : list byte) : length (sha1.digest msg) = 20%nat.
Proof.
  unfold sha1.digest.
  destruct (sha1.blocks _ _ _) as [[[[h0 h1] h2] h3] h4]. reflexivity.
Qed.

Lemma hmac_length (k msg : list byte) : length (hmac.hmac_sha1 k msg) = 20%nat.
Proof. unfold hmac.hmac_sha1. apply digest_length. Qed.

(** The characters of the encoding of 20 bytes: 27 of the alphabet and
    one pad. *)
Lemma urlsafe_b64encode_20 (bs : list byte) :
  length bs = 20%nat ->
  exists body,
    length body = 27%nat /\
    base64.urlsafe_b64encode bs = (body ++ [base64.pad_char])%list.
Proof.
  intro H.
  do 20 (destruct bs as [|? bs]; [discriminate H|]).
  destruct bs; [|discriminate H].
  cbn [base64.urlsafe_b64encode].
  eexists (_ :: _ :: _ :: _ :: _ :: _ :: _ :: _ :: _ :: _ :: _ :: _ :: _ :: _
             :: _ :: _ :: _ :: _ :: _ :: _ :: _ :: _ :: _ :: _ :: _ :: _ :: [_]).
  split; reflexivity.
Qed.

Lemma sextet_char_signature (v : Z) :
  (0 <= v < 64)%Z ->
  signature_char (ascii_of_byte (base64.char_of_sextet v)) = true.
Proof.
  intro Hv.
  assert (H : (64 <=? v)%Z
              || signature_char (ascii_of_byte (base64.char_of_sextet v)) = true).
  { apply (below_256 (fun v => (64 <=? v)%Z
                               || signature_char
                                    (ascii_of_byte (base64.char_of_sextet v))));
      [vm_compute; reflexivity | lia]. }
  destruct (64 <=? v)%Z eqn:E; [apply Z.leb_le in E; lia | exact H].
Qed.

Lemma sextet_first_range (b0 : byte) : (0 <= Z.shiftr (Z_of_byte b0) 2 < 64)%Z.
Proof.
  pose proof (Z_of_byte_range b0) as Hb.
  pose proof (below_256 (fun n => (0 <=? Z.shiftr n 2)%Z && (Z.shiftr n 2 <? 64)%Z)
                        eq_refl Hb) as H.
  apply andb_prop in H. destruct H as [H1 H2].
  apply Z.leb_le in H1. apply Z.ltb_lt in H2. lia.
Qed.

Lemma sextet_last_range (b : byte) (k s : Z) :
  (k = 3 /\ s = 4 \/ k = 15 /\ s = 2 \/ k = 63 /\ s = 0)%Z ->
  (0 <= Z.shiftl (Z.land (Z_of_byte b) k) s < 64)%Z.
Proof.
  intros Hks. pose proof (Z_of_byte_range b) as Hb.
  assert (H : ((0 <=? Z.shiftl (Z.land (Z_of_byte b) k) s)
               && (Z.shiftl (Z.land (Z_of_byte b) k) s <? 64))%Z = true).
  { destruct Hks as [[-> ->] | [[-> ->] | [-> ->]]];
      match goal with
      | |- ((0 <=? Z.shiftl (Z.land _ ?k) ?s) && _)%Z = true =>
          exact (below_256 (fun n => ((0 <=? Z.shiftl (Z.land n k) s)
                                      && (Z.shiftl (Z.land n k) s <? 64))%Z)
                           eq_refl Hb)
      end. }
  apply andb_prop in H. destruct H as [H1 H2].
  apply Z.leb_le in H1. apply Z.ltb_lt in H2. lia.
Qed.

Lemma sextet_middle_range (b0 b1 : byte) (k s r : Z) :
  (k = 3 /\ s = 4 /\ r = 4 \/ k = 15 /\ s = 2 /\ r = 6)%Z ->
  (0 <= Z.lor (Z.shiftl (Z.land (Z_of_byte b0) k) s) (Z.shiftr (Z_of_byte b1) r)
   < 64)%Z.
Proof.
  intros Hks. pose proof (Z_of_byte_range b0) as Hb0.
  pose proof (Z_of_byte_range b1) as Hb1.
  assert (H : ((0 <=? Z.lor (Z.shiftl (Z.land (Z_of_byte b0) k) s)
                            (Z.shiftr (Z_of_byte b1) r))
               && (Z.lor (Z.shiftl (Z.land (Z_of_byte b0) k) s)
                         (Z.shiftr (Z_of_byte b1) r) <? 64))%Z = true).
  { destruct Hks as [(-> & -> & ->) | (-> & -> & ->)];
      match goal with
      | |- ((0 <=? Z.lor (Z.shiftl (Z.land _ ?k) ?s) (Z.shiftr _ ?r)) && _)%Z = true =>
          apply (below_256_2
                   (fun n0 n1 =>
                      ((0 <=? Z.lor (Z.shiftl (Z.land n0 k) s) (Z.shiftr n1 r))
                       && (Z.lor (Z.shiftl (Z.land n0 k) s) (Z.shiftr n1 r) <? 64))%Z));
          [vm_compute; reflexivity | exact Hb0 | exact Hb1]
      end. }
  apply andb_prop in H. destruct H as [H1 H2].
  apply Z.leb_le in H1. apply Z.ltb_lt in H2. lia.
Qed.

Lemma urlsafe_b64encode_chars (bs : list byte) :
  Forall (fun b => signature_char (ascii_of_byte b) = true)
         (base64.urlsafe_b64encode bs).
Proof.
  induction bs as [|a|a b|a b c rest IH] using triples_ind.
  - constructor.
  - cbn [base64.urlsafe_b64encode].
    repeat constructor;
      first [reflexivity
            | apply sextet_char_signature;
              first [apply sextet_first_range | apply sextet_last_range; tauto]].
  - cbn [base64.urlsafe_b64encode].
    repeat constructor;
      first [reflexivity
            | apply sextet_char_signature;
              first [apply sextet_first_range | apply sextet_middle_range; tauto
                    | apply sextet_last_range; tauto]].
  - cbn [base64.urlsafe_b64encode].
    repeat (constructor;
      [apply sextet_char_signature;
       first [apply sextet_first_range | apply sextet_middle_range; tauto
             | rewrite <- (Z.shiftl_0_r (Z.land (Z_of_byte c) 63));
               apply sextet_last_range; tauto]|]).
    exact IH.
Qed.

Lemma string_of_list_byte_length (bs : list byte) :
  String.length (string_of_list_byte bs) = length bs.
Proof.
  unfold string_of_list_byte. induction bs as [|b bs IH]; [reflexivity|].
  cbn [map string_of_list_ascii String.length length]. now rewrite IH.
Qed.

Lemma string_of_list_byte_app (l1 l2 : list byte) :
  string_of_list_byte (l1 ++ l2)
  = (string_of_list_byte l1 ++ string_of_list_byte l2)%string.
Proof.
  unfold string_of_list_byte. induction l1 as [|b l1 IH]; [reflexivity|].
  cbn [app map string_of_list_ascii append]. now rewrite IH.
Qed.

Lemma string_of_list_byte_chars (p : ascii -> bool) (bs : list byte) :
  Forall (fun b => p (ascii_of_byte b) = true) bs ->
  all_chars p (string_of_list_byte bs) = true.
Proof.
  induction 1 as [|b bs Hb _ IH]; [reflexivity|].
  change (string_of_list_byte (b :: bs))
    with (String (ascii_of_byte b) (string_of_list_byte bs)).
  now rewrite all_chars_String, Hb, IH.
Qed.

Lemma sign_hmac_shape (secret payload sig : string) :
  sign_hmac secret payload = Return sig ->
  String.length sig = 28%nat /\
  all_chars signature_char sig = true /\
  exists body, sig = (body ++ "=")%string.
Proof.
  intro H. pose proof (sign_hmac_returns_or_raises secret payload) as Hs.
  rewrite H in Hs. destruct Hs as (_ & _ & k & _ & ->).
  destruct (@urlsafe_b64encode_20 _ (hmac_length k (list_byte_of_string payload)))
    as (body & Hlen & Henc).
  split; [|split].
  - rewrite string_of_list_byte_length, Henc, length_app, Hlen. reflexivity.
  - apply string_of_list_byte_chars, urlsafe_b64encode_chars.
  - exists (string_of_list_byte body). rewrite Henc.
    apply string_of_list_byte_app.
Qed.

(** X19.  A signature has 28 characters, all of them letters, digits,
    [-], [_] or [=], and ends with [=]: it goes into a URL as it is. *)
Theorem signature_shape (secret payload sig : string) :
  sign_hmac secret payload = Return sig ->
  String.length sig = 28%nat /\
  all_chars signature_char sig = true /\
  exists body, sig = (body ++ "=")%string.
Proof. apply sign_hmac_shape. Qed.

Lemma signature_shape_witness :
  String.length "vcLp_U5VPRmDTSL2OUmcBo-O9dY=" = 28%nat /\
  all_chars signature_char "vcLp_U5VPRmDTSL2OUmcBo-O9dY=" = true /\
  exists body, "vcLp_U5VPRmDTSL2OUmcBo-O9dY=" = (body ++ "=")%string.
Proof.
  apply (@signature_shape "a2V5" "/path?a=1&channel=abc&client=foo").
  vm_compute. reflexivity.
Defined.

(** X20.  [sign_hmac] fails in two ways only: with the encoding error,
    exactly when the payload or the secret has a non-ASCII character, and
    with the error of the base64 decoder, when both are ASCII and the
    secret does not decode. *)
Theorem sign_hmac_failures (secret payload : string) (e : Exn) :
  sign_hmac secret payload = Raise e ->
  (e = UnicodeEncodeError /\
   (all_ascii payload = false \/ all_ascii secret = false)) \/
  (e = binascii_Error /\ all_ascii payload = true /\ all_ascii secret = true /\
   base64.urlsafe_b64decode (list_byte_of_string secret) = Raise binascii_Error).
Proof.
  intro H. pose proof (sign_hmac_returns_or_raises secret payload) as Hs.
  now rewrite H in Hs.
Qed.

Lemma sign_hmac_failures_witness :
  (binascii_Error = UnicodeEncodeError /\
   (all_ascii "/path" = false \/ all_ascii "a" = false)) \/
  (binascii_Error = binascii_Error /\ all_ascii "/path" = true /\
   all_ascii "a" = true /\
   base64.urlsafe_b64decode (list_byte_of_string "a") = Raise binascii_Error).
Proof. apply (@sign_hmac_failures "a" "/path" binascii_Error). reflexivity. Defined.

(** X21.  The query string is made of unreserved characters and of
    [+ % = &] only, whatever the parameters hold; so a URL that is built
    on an ASCII path is ASCII, signature included. *)
Theorem built_url_ascii (self : Client) (path : string) (params : Params)
    (accepts_clientid : bool) (url : string) :
  all_chars query_char
            (urllib.urlencode (merged_params self params
                               ++ auth_params self accepts_clientid)) = true /\
  (all_ascii path = true ->
   _generate_auth_url self path params accepts_clientid = Return url ->
   all_ascii url = true).
Proof.
  split; [apply urlencode_chars|].
  intros Hpath. rewrite _generate_auth_url_spec. cbv zeta.
  set (query := urllib.urlencode _).
  assert (Hq : all_chars is_ascii (path ++ "?" ++ query) = true).
  { rewrite !all_chars_app. change (all_chars is_ascii path) with (all_ascii path).
    rewrite Hpath. change (all_chars is_ascii "?") with true. cbn [andb].
    exact (@all_chars_impl query_char is_ascii _ query_char_ascii (urlencode_chars _)). }
  destruct (accepts_clientid && truthy (client_id self) && truthy (client_secret self)).
  - destruct (sign_hmac _ _) as [sig|e] eqn:Hsig; cbn [rbind]; [|discriminate].
    intros [= <-]. apply sign_hmac_shape in Hsig. destruct Hsig as (_ & Hchars & _).
    change (all_chars is_ascii ((path ++ "?" ++ query) ++ "&signature=" ++ sig) = true).
    rewrite (all_chars_app is_ascii (path ++ "?" ++ query)), Hq.
    rewrite all_chars_app.
    change (all_chars is_ascii "&signature=") with true. cbn [andb].
    exact (@all_chars_impl signature_char is_ascii _ signature_char_ascii Hchars).
  - destruct (truthy (key self)); [|discriminate].
    intros [= <-]. exact Hq.
Qed.

Lemma built_url_ascii_witness :
  all_ascii "/maps/api/geocode/json?address=%C3%89&key=AIzaasdf" = true.
Proof.
  apply (proj2 (@built_url_ascii api_client geocode_path
                  (PDict [("address", VStr (String (ascii_of_nat 201) ""))]) true _)).
  - reflexivity.
  - vm_compute. reflexivity.
Defined.

(** X22.  With enterprise credentials, an ASCII path and an ASCII secret
    that decodes, the signer cannot fail on a query string that
    [urlencode_params] wrote: whenever the parameters encode, whatever
    they hold, the builder returns the signed URL.  Their names and values
    are percent-encoded before the signer sees them. *)
Theorem enterprise_url_signed (self : Client) (path : string) (params : Params)
    (k : list byte) (query : string) :
  truthy (client_id self) = true -> truthy (client_secret self) = true ->
  all_ascii path = true -> all_ascii (str_of (client_secret self)) = true ->
  base64.urlsafe_b64decode (list_byte_of_string (str_of (client_secret self)))
  = Return k ->
  urlencode_params (merged_params self params ++ auth_params self true)
  = Return query ->
  let signed := (path ++ "?" ++ query)%string in
  exists sig,
    sign_hmac (str_of (client_secret self)) signed = Return sig /\
    _generate_auth_url self path params true
    = Return (signed ++ "&signature=" ++ sig)%string.
Proof.
  intros Hid Hsec Hpath Hsecret Hk Hquery signed.
  rewrite urlencode_params_spec in Hquery. injection Hquery as Hquery.
  change (String.concat "&" (map encode_item
            (merged_params self params ++ auth_params self true)))
    with (urllib.urlencode (merged_params self params ++ auth_params self true))
    in Hquery.
  assert (Hq : all_ascii signed = true).
  { unfold signed. rewrite <- Hquery.
    change (all_chars is_ascii
              (path ++ "?" ++ urllib.urlencode
                 (merged_params self params ++ auth_params self true))
            = true).
    rewrite !all_chars_app. change (all_chars is_ascii path) with (all_ascii path).
    rewrite Hpath. change (all_chars is_ascii "?") with true. cbn [andb].
    exact (@all_chars_impl query_char is_ascii _ query_char_ascii (urlencode_chars _)). }
  pose proof (sign_hmac_returns_or_raises (str_of (client_secret self)) signed) as Hs.
  destruct (sign_hmac (str_of (client_secret self)) signed) as [sig|e] eqn:Hsig.
  - exists sig. split; [reflexivity|].
    rewrite _generate_auth_url_spec. cbv zeta. rewrite Hid, Hsec. cbn [andb].
    rewrite Hquery. fold signed. rewrite Hsig. reflexivity.
  - exfalso. destruct Hs as [[_ [H | H]] | (_ & _ & _ & H)]; congruence.
Qed.

Lemma enterprise_url_signed_witness :
  exists sig,
    sign_hmac "a2V5" "/path?a=%C3%89&channel=abc&client=foo" = Return sig /\
    _generate_auth_url enterprise_client "/path"
                       (PDict [("a", VStr (String (ascii_of_nat 201) ""))]) true
    = Return ("/path?a=%C3%89&channel=abc&client=foo" ++ "&signature=" ++ sig)%string.
Proof.
  apply (@enterprise_url_signed enterprise_client "/path"
           (PDict [("a", VStr (String (ascii_of_nat 201) ""))])
           (list_byte_of_string "key") "a=%C3%89&channel=abc&client=foo");
    reflexivity.
Defined.

(** X23.  [requests.utils.unquote_unreserved] neither fails on nor
    changes what [urlencode] wrote: [urlencode_params] does not raise
    [InvalidURL], and a query string that it returns is the [key=value]
    items, each part quoted, joined by [&]. *)
Theorem urlencode_params_items (params : list (string * Value)) :
  urlencode_params params <> Raise InvalidURL /\
  forall query,
    urlencode_params params = Return query ->
    query = String.concat "&" (map encode_item params).
Proof.
  rewrite urlencode_params_spec. split; [discriminate|].
  now intros query [= <-].
Qed.

Lemma urlencode_params_items_witness :
  "address=Sesame+St.&key=AIzaasdf"%string
  = String.concat "&" (map encode_item [("address", VStr "Sesame St.");
                                        ("key", VStr "AIzaasdf")]).
Proof.
  apply (proj2 (urlencode_params_items [("address", VStr "Sesame St.");
                                        ("key", VStr "AIzaasdf")])).
  reflexivity.
Defined.

(** ** The parameter names of a built URL *)

Lemma contains_char_none (p : ascii -> bool) (c : ascii) (s : string) :
  all_chars p s = true -> p c = false -> contains_char c s = false.
Proof.
  intros Hs Hc. induction s as [|c' s IH]; [reflexivity|].
  rewrite all_chars_String in Hs. apply andb_prop in Hs. destruct Hs as [Hc' Hs].
  cbn [contains_char]. rewrite (IH Hs), orb_false_r.
  destruct (Ascii.eqb c' c) eqn:E; [|reflexivity].
  apply Ascii.eqb_eq in E. congruence.
Qed.

Lemma contains_char_app (c : ascii) (s1 s2 : string) :
  contains_char c (s1 ++ s2) = contains_char c s1 || contains_char c s2.
Proof.
  induction s1 as [|c' s1 IH]; [reflexivity|].
  cbn [append contains_char]. rewrite IH. apply orb_assoc.
Qed.

Lemma split_on_none (sep : ascii) (s : string) :
  contains_char sep s = false -> split_on sep s = [s].
Proof.
  induction s as [|c s IH]; [reflexivity|].
  cbn [contains_char split_on]. intro H. apply orb_false_elim in H.
  destruct H as [Hc Hs]. rewrite Hc, (IH Hs). reflexivity.
Qed.

Lemma split_on_app (sep : ascii) (s1 s2 : string) :
  contains_char sep s1 = false ->
  split_on sep (s1 ++ String sep s2) = s1 :: split_on sep s2.
Proof.
  induction s1 as [|c s1 IH]; intro H.
  - cbn [append split_on]. now rewrite Ascii.eqb_refl.
  - cbn [contains_char] in H. apply orb_false_elim in H. destruct H as [Hc Hs].
    cbn [append split_on]. rewrite Hc, (IH Hs). reflexivity.
Qed.

Lemma split_on_concat (sep : ascii) (items : list string) :
  items <> [] ->
  Forall (fun item => contains_char sep item = false) items ->
  split_on sep (String.concat (String sep "") items) = items.
Proof.
  intros Hne Hall. induction Hall as [|x [|y rest] Hx Hrest IH]; [congruence | |].
  - cbn [String.concat]. apply split_on_none, Hx.
  - change (String.concat (String sep "") (x :: y :: rest))
      with (x ++ String sep (String.concat (String sep "") (y :: rest)))%string.
    rewrite (@split_on_app sep x _ Hx), IH by discriminate. reflexivity.
Qed.

Lemma concat_snoc (sep : string) (items : list string) (x : string) :
  items <> [] ->
  String.concat sep (items ++ [x]) = (String.concat sep items ++ sep ++ x)%string.
Proof.
  intro Hne. induction items as [|y [|z rest] IH]; [congruence | reflexivity |].
  change (String.concat sep ((y :: z :: rest) ++ [x]))
    with (y ++ sep ++ String.concat sep ((z :: rest) ++ [x]))%string.
  rewrite IH by discriminate.
  change (String.concat sep (y :: z :: rest))
    with (y ++ sep ++ String.concat sep (z :: rest))%string.
  now rewrite !append_assoc.
Qed.

Lemma contains_char_concat (c : ascii) (sep : string) (items : list string) :
  contains_char c sep = false ->
  Forall (fun item => contains_char c item = false) items ->
  contains_char c (String.concat sep items) = false.
Proof.
  intros Hsep Hall. induction Hall as [|x [|y rest] Hx Hrest IH]; [reflexivity | exact Hx |].
  change (String.concat sep (x :: y :: rest))
    with (x ++ sep ++ String.concat sep (y :: rest))%string.
  now rewrite !contains_char_app, Hx, Hsep, IH.
Qed.

Lemma quoted_no_char (c : ascii) (s : string) :
  quoted_char c = false -> contains_char c (urllib.quote_plus s) = false.
Proof.
  intro Hc. exact (@contains_char_none quoted_char c _ (quote_plus_chars s) Hc).
Qed.

Lemma encode_item_key (kv : string * Value) :
  hd EmptyString (split_on "=" (encode_item kv)) = urllib.quote_plus (fst kv).
Proof.
  unfold encode_item. cbn [append].
  rewrite split_on_app by (apply quoted_no_char; reflexivity). reflexivity.
Qed.

Lemma encode_item_no_char (c : ascii) (kv : string * Value) :
  query_char c = false -> contains_char c (encode_item kv) = false.
Proof.
  intro Hc. exact (@contains_char_none query_char c _ (encode_item_chars kv) Hc).
Qed.

(** An unreserved character is quoted as itself. *)
Lemma quote_unreserved (c : ascii) :
  unreserved_char c = true ->
  is_ascii c = true /\ urllib.quote_byte (byte_of_ascii c) = String c "".
Proof.
  destruct c as [[] [] [] [] [] [] [] []]; intro H;
    first [discriminate H | split; reflexivity].
Qed.

Lemma quote_plus_unreserved (s : string) :
  all_chars unreserved_char s = true -> urllib.quote_plus s = s.
Proof.
  unfold urllib.quote_plus. induction s as [|c s IH]; [reflexivity|].
  rewrite all_chars_String. intro H. apply andb_prop in H. destruct H as [Hc Hs].
  destruct (@quote_unreserved c Hc) as [Ha Hq].
  cbn [encode_utf8]. rewrite Ha. cbn [map].
  rewrite concat_empty_cons, Hq, (IH Hs). reflexivity.
Qed.

Lemma _generate_auth_url_keys (self : Client) (path : string) (params : Params)
    (accepts_clientid : bool) (url : string) :
  contains_char "?" path = false ->
  _generate_auth_url self path params accepts_clientid = Return url ->
  query_keys url
  = (map (fun kv => urllib.quote_plus (fst kv))
         (merged_params self params ++ auth_params self accepts_clientid)
     ++ (if accepts_clientid && truthy (client_id self) && truthy (client_secret self)
         then ["signature"] else []))%list.
Proof.
  intros Hpath. rewrite _generate_auth_url_spec. cbv zeta.
  set (ps := (merged_params self params ++ auth_params self accepts_clientid)%list).
  assert (Hne : accepts_clientid && truthy (client_id self) && truthy (client_secret self)
                = true \/ truthy (key self) = true -> map encode_item ps <> []).
  { intros Hauth Hnil. apply map_eq_nil in Hnil. unfold ps in Hnil.
    apply app_eq_nil in Hnil. destruct Hnil as [_ Hnil].
    unfold auth_params in Hnil.
    destruct (accepts_clientid && truthy (client_id self) && truthy (client_secret self)).
    - destruct (truthy (channel self)); discriminate Hnil.
    - destruct Hauth as [Hf | Hk]; [discriminate|]. rewrite Hk in Hnil. discriminate. }
  assert (Hitems : forall c, query_char c = false ->
                     Forall (fun item => contains_char c item = false)
                            (map encode_item ps)).
  { intros c Hc. apply Forall_forall. intros item Hin.
    apply in_map_iff in Hin. destruct Hin as (kv & <- & _).
    now apply encode_item_no_char. }
  assert (Hamp : Forall (fun item => contains_char "&" item = false)
                        (map encode_item ps)).
  { apply Forall_forall. intros item Hin.
    apply in_map_iff in Hin. destruct Hin as (kv & <- & _).
    unfold encode_item. rewrite !contains_char_app.
    now rewrite !quoted_no_char. }
  assert (Hkeys : map (fun p => hd EmptyString (split_on "=" p)) (map encode_item ps)
                  = map (fun kv => urllib.quote_plus (fst kv)) ps).
  { rewrite map_map. apply map_ext. intro kv. apply encode_item_key. }
  unfold urllib.urlencode. fold encode_item.
  destruct (accepts_clientid && truthy (client_id self) && truthy (client_secret self))
    eqn:Hent.
  - destruct (sign_hmac _ _) as [sig|e] eqn:Hsig; cbn [rbind]; [|discriminate].
    intros [= <-]. apply sign_hmac_shape in Hsig. destruct Hsig as (_ & Hchars & _).
    assert (Hsigitem : forall c, signature_char c = false ->
                         contains_char c ("signature=" ++ sig) = false).
    { intros c Hc. rewrite contains_char_app.
      rewrite (@contains_char_none signature_char c "signature=" eq_refl Hc).
      now rewrite (@contains_char_none signature_char c sig Hchars Hc). }
    unfold query_keys. rewrite append_assoc. cbn [append].
    rewrite (@split_on_app "?"%char path _ Hpath).
    match goal with
    | |- context [(String.concat "&" (map encode_item ps) ++ ?tail)%string] =>
        replace (String.concat "&" (map encode_item ps) ++ tail)%string
          with (String.concat "&" (map encode_item ps ++ [("signature=" ++ sig)%string]))
          by (rewrite concat_snoc by auto; reflexivity)
    end.
    rewrite split_on_none.
    2:{ apply contains_char_concat; [reflexivity|].
        apply Forall_app. split; [apply Hitems; reflexivity|].
        repeat constructor. apply Hsigitem. reflexivity. }
    change "&"%string with (String "&"%char "").
    rewrite split_on_concat.
    + rewrite map_app, Hkeys. cbn [map]. f_equal.
    + intro Hnil. apply app_eq_nil in Hnil. destruct Hnil as [_ Hnil]. discriminate.
    + apply Forall_app. split; [exact Hamp|].
      repeat constructor. apply Hsigitem. reflexivity.
  - destruct (truthy (key self)) eqn:Hk; [|discriminate].
    intros [= <-]. unfold query_keys.
    change (path ++ "?" ++ String.concat "&" (map encode_item ps))%string
      with (path ++ String "?" (String.concat "&" (map encode_item ps)))%string.
    rewrite (@split_on_app "?"%char path _ Hpath).
    rewrite split_on_none
      by exact (@contains_char_none query_char "?"%char _ (urlencode_chars ps) eq_refl).
    change "&"%string with (String "&"%char "").
    rewrite split_on_concat by auto.
    rewrite Hkeys, app_nil_r. reflexivity.
Qed.

(** X24.  In a URL built on a path without [?], the parameter names read
    back from the query string are the quoted names of the merged
    parameters, then those of the authentication, then [signature] for
    enterprise credentials: no name or value adds, hides or splits a
    parameter.  Names made of unreserved characters are read back as they
    were given. *)
Theorem query_keys_of_url (self : Client) (path : string) (params : Params)
    (accepts_clientid : bool) (url : string) :
  contains_char "?" path = false ->
  _generate_auth_url self path params accepts_clientid = Return url ->
  let signed := accepts_clientid && truthy (client_id self)
                && truthy (client_secret self) in
  query_keys url
  = (map (fun kv => urllib.quote_plus (fst kv))
         (merged_params self params ++ auth_params self accepts_clientid)
     ++ (if signed then ["signature"] else []))%list /\
  (Forall (fun k => all_chars unreserved_char k = true)
          (keys (merged_params self params)) ->
   query_keys url
   = (keys (merged_params self params)
      ++ keys (auth_params self accepts_clientid)
      ++ (if signed then ["signature"] else []))%list).
Proof.
  intros Hpath Hurl signed.
  pose proof (@_generate_auth_url_keys self path params accepts_clientid url Hpath Hurl)
    as Hkeys.
  split; [exact Hkeys|].
  intro Hsafe. rewrite Hkeys, map_app, <- app_assoc. f_equal; [|f_equal].
  - clear Hkeys Hurl. unfold keys in *.
    induction (merged_params self params) as [|kv rest IH]; [reflexivity|].
    cbn [map] in *. inversion Hsafe as [|? ? Hk Hrest]; subst.
    now rewrite (@quote_plus_unreserved _ Hk), IH.
  - unfold auth_params, keys.
    destruct (accepts_clientid && truthy (client_id self) && truthy (client_secret self)).
    + destruct (truthy (channel self)); reflexivity.
    + destruct (truthy (key self)); reflexivity.
Qed.

Lemma query_keys_of_url_witness :
  query_keys "/path?a=1&channel=abc&client=foo&signature=vcLp_U5VPRmDTSL2OUmcBo-O9dY="
  = ["a"; "channel"; "client"; "signature"].
Proof.
  destruct (@query_keys_of_url enterprise_client "/path" (PDict [("a", VInt 1)]) true
              "/path?a=1&channel=abc&client=foo&signature=vcLp_U5VPRmDTSL2OUmcBo-O9dY=")
    as [_ H].
  - reflexivity.
  - vm_compute. reflexivity.
  - apply H. repeat constructor.
Defined.

(** ** The engine and the endpoints on the fixtures *)

Lemma fixture_window_ok (answers : nat -> Request -> Outcome) (r : Q) :
  window_ok (world 0 [0; 0] answers r).
Proof.
  split; cbn [sent_times clock world].
  - repeat constructor; apply Qle_refl.
  - repeat constructor; apply Qle_refl.
Qed.

Lemma request_terminates_witness :
  exists r w',
    request 7 (with_deadline 1 api_client) geocode_path geocode_params
            (world 0 [] always_503 (1 # 2)) = Some (r, w') /\
    (sends w' <= 7)%nat.
Proof.
  apply (@request_terminates (with_deadline 1 api_client) geocode_path geocode_params
           _DEFAULT_BASE_URL true None None (world 0 [] always_503 (1 # 2))).
  apply fixture_well_behaved; [|lra|lra].
  apply scripted_took; [constructor | cbn; lra].
Defined.

Lemma request_returns_ok_body_witness :
  exists w' items,
    request 1 api_client geocode_path geocode_params
            (world 0 [] always_ok (1 # 2)) = Some (Return ok_body, w') /\
    ok_body = JObj items /\
    (lookup "status" items = Some (JStr "OK") \/
     lookup "status" items = Some (JStr "ZERO_RESULTS")).
Proof.
  pose (w' := record_sent api_client
                (snd (send (request_of _DEFAULT_BASE_URL geocode_url None)
                           (world 0 [] always_ok (1 # 2))))).
  assert (Hrun : request 1 api_client geocode_path geocode_params
                         (world 0 [] always_ok (1 # 2))
                 = Some (Return ok_body, w')) by (vm_compute; reflexivity).
  destruct (@request_returns_ok_body api_client geocode_path geocode_params
              _DEFAULT_BASE_URL true None 1 None 0 (world 0 [] always_ok (1 # 2))
              ok_body w' Hrun) as (items & Hbody & Hstatus).
  exists w', items. auto.
Defined.

Lemma retriable_never_escapes_witness :
  exists e w',
    request 4 (with_deadline 1 api_client) geocode_path geocode_params
            (world 0 [] always_over_limit (1 # 2)) = Some (Raise e, w') /\
    isinstance e C__RetriableRequest = false.
Proof.
  destruct (request 4 (with_deadline 1 api_client) geocode_path geocode_params
              (world 0 [] always_over_limit (1 # 2)))
    as [[[body|e] w']|] eqn:Hrun; [exfalso | | exfalso].
  - vm_compute in Hrun. discriminate Hrun.
  - exists e, w'. split; [reflexivity|].
    exact (@retriable_never_escapes (with_deadline 1 api_client) geocode_path
             geocode_params _DEFAULT_BASE_URL true None None 4 None 0
             (world 0 [] always_over_limit (1 # 2)) e w' eq_refl Hrun).
  - vm_compute in Hrun. discriminate Hrun.
Defined.

Lemma request_errors_witness :
  exists e w',
    request 1 (without_quota_retry api_client) geocode_path geocode_params
            (world 0 [] always_over_limit (1 # 2)) = Some (Raise e, w') /\
    engine_error (without_quota_retry api_client) e.
Proof.
  destruct (request 1 (without_quota_retry api_client) geocode_path geocode_params
              (world 0 [] always_over_limit (1 # 2)))
    as [[[body|e] w']|] eqn:Hrun; [exfalso | | exfalso].
  - vm_compute in Hrun. discriminate Hrun.
  - exists e, w'. split; [reflexivity|].
    exact (@request_errors (without_quota_retry api_client) geocode_path
             geocode_params _DEFAULT_BASE_URL true None 1 None 0
             (world 0 [] always_over_limit (1 # 2)) e w' geocode_url eq_refl Hrun).
  - vm_compute in Hrun. discriminate Hrun.
Defined.

Lemma rate_limit_spacing_witness :
  exists w',
    request 1 (with_rate 2 api_client) geocode_path geocode_params
            (world 0 [0; 0] always_ok (1 # 2)) = Some (Return ok_body, w') /\
    0 + 1 <= clock w' /\ sent_times w' = [0; clock w'].
Proof.
  pose (w' := record_sent (with_rate 2 api_client)
                (sleep 1 (EvThrottle 1)
                   (snd (send (request_of _DEFAULT_BASE_URL geocode_url None)
                              (world 0 [0; 0] always_ok (1 # 2)))))).
  assert (Hrun : request 1 (with_rate 2 api_client) geocode_path geocode_params
                         (world 0 [0; 0] always_ok (1 # 2))
                 = Some (Return ok_body, w')) by (vm_compute; reflexivity).
  exists w'. split; [exact Hrun|].
  exact (@rate_limit_spacing (with_rate 2 api_client) geocode_path geocode_params
           _DEFAULT_BASE_URL true None None 1 None 0
           (world 0 [0; 0] always_ok (1 # 2)) ok_body w' 0 [0]
           Hrun eq_refl eq_refl).
Defined.

Lemma request_sleeps_sane_witness :
  exists r w' tr,
    request 4 (with_rate 2 api_client) geocode_path geocode_params
            (world 0 [0; 0] three_500_then_ok (1 # 2)) = Some (r, w') /\
    trace w' = (tr ++ [])%list /\
    Forall sane_event tr /\
    Forall (fun seconds => 0 < seconds) (sleeps_of tr).
Proof.
  destruct (request 4 (with_rate 2 api_client) geocode_path geocode_params
              (world 0 [0; 0] three_500_then_ok (1 # 2)))
    as [[r w']|] eqn:Hrun; [|exfalso; vm_compute in Hrun; discriminate Hrun].
  destruct (@request_sleeps_sane (with_rate 2 api_client) geocode_path geocode_params
              _DEFAULT_BASE_URL true None None 4 None 0
              (world 0 [0; 0] three_500_then_ok (1 # 2)) r w' Hrun)
    as (tr & Htr & Hsane & Hsleeps).
  - apply fixture_well_behaved; [|lra|lra].
    apply scripted_took; [repeat constructor; cbn; lra | cbn; lra].
  - apply fixture_window_ok.
  - exists r, w', tr. auto.
Defined.

Lemma window_stays_chronological_witness :
  exists r w',
    request 4 (with_rate 2 api_client) geocode_path geocode_params
            (world 0 [0; 0] three_500_then_ok (1 # 2)) = Some (r, w') /\
    window_ok w' /\ 0 <= clock w'.
Proof.
  destruct (request 4 (with_rate 2 api_client) geocode_path geocode_params
              (world 0 [0; 0] three_500_then_ok (1 # 2)))
    as [[r w']|] eqn:Hrun; [|exfalso; vm_compute in Hrun; discriminate Hrun].
  destruct (@window_stays_chronological (with_rate 2 api_client) geocode_path
              geocode_params _DEFAULT_BASE_URL true None None 4 None 0
              (world 0 [0; 0] three_500_then_ok (1 # 2)) r w' Hrun)
    as (Hw & Hclock).
  - apply fixture_well_behaved; [|lra|lra].
    apply scripted_took; [repeat constructor; cbn; lra | cbn; lra].
  - apply fixture_window_ok.
  - exists r, w'. auto.
Defined.

Lemma same_request_every_attempt_witness :
  exists r w' tr,
    request 4 (with_rate 2 api_client) geocode_path geocode_params
            (world 0 [0; 0] three_500_then_ok (1 # 2)) = Some (r, w') /\
    trace w' = (tr ++ [])%list /\
    Forall (eq (request_of _DEFAULT_BASE_URL geocode_url None)) (requests_of tr) /\
    sends w' = (0 + length (requests_of tr))%nat.
Proof.
  destruct (request 4 (with_rate 2 api_client) geocode_path geocode_params
              (world 0 [0; 0] three_500_then_ok (1 # 2)))
    as [[r w']|] eqn:Hrun; [|exfalso; vm_compute in Hrun; discriminate Hrun].
  destruct (@same_request_every_attempt (with_rate 2 api_client) geocode_path
              geocode_params _DEFAULT_BASE_URL true None None 4 None 0
              (world 0 [0; 0] three_500_then_ok (1 # 2)) r w' geocode_url
              eq_refl Hrun)
    as (tr & Htr & Hreq & Hsends).
  exists r, w', tr. auto.
Defined.

Lemma auth_failure_sends_nothing_witness :
  exists e',
    _request 1 enterprise_client geocode_path geocode_params (Some 0) 0
             _DEFAULT_BASE_URL false None None (world 0 [] always_ok (1 # 2))
    = Some (Raise e', world 0 [] always_ok (1 # 2)) /\
    exists msg, e' = ValueError msg.
Proof.
  destruct (_generate_auth_url enterprise_client geocode_path geocode_params false)
    as [authed_url|e] eqn:Hauth; [exfalso; vm_compute in Hauth; discriminate Hauth|].
  destruct (@auth_failure_sends_nothing enterprise_client geocode_path geocode_params
              _DEFAULT_BASE_URL false None None 0 (Some 0)
              (world 0 [] always_ok (1 # 2)) e Hauth)
    as ((e' & Hrun & _ & Hwhen) & He).
  exists e'. split; [exact Hrun|].
  destruct (Hwhen 0 eq_refl) as [Hin _]. rewrite (Hin ltac:(cbn; lra)).
  destruct He as [He | [He | He]]; [| |exact He];
    exfalso; rewrite He in Hauth; vm_compute in Hauth; discriminate Hauth.
Defined.

Lemma geocode_query_params_witness :
  geocode_query (fun c : string => Return c) (fun b : string => Return b)
                (Some "Sesame St.") (Some "country:US") None (Some "") (Some "en")
  = Return [("address", VStr "Sesame St."); ("components", VStr "country:US");
            ("language", VStr "en")] /\
  is_dict [("address", VStr "Sesame St."); ("components", VStr "country:US");
           ("language", VStr "en")] /\
  keys [("address", VStr "Sesame St."); ("components", VStr "country:US");
        ("language", VStr "en")]
  = ["address"; "components"; "language"].
Proof.
  split; [reflexivity|].
  destruct (@geocode_query_params string string (fun c => Return c)
              (fun b => Return b) (Some "Sesame St.") (Some "country:US") None
              (Some "") (Some "en")
              [("address", VStr "Sesame St."); ("components", VStr "country:US");
               ("language", VStr "en")] eq_refl) as (Hd & Hk & _).
  split; [exact Hd | exact Hk].
Defined.

Lemma geocode_outcome_witness :
  exists w' items,
    geocode (fun c : string => Return c) (fun b : string => Return b) 1 api_client
            (Some "Sesame St.") None None None None (world 0 [] always_ok (1 # 2))
    = Some (Return (JArr []), w') /\
    request 1 api_client geocode_path geocode_params (world 0 [] always_ok (1 # 2))
    = Some (Return (JObj items), w') /\
    match lookup "results" items with Some v => v | None => JArr [] end = JArr [].
Proof.
  pose (w' := record_sent api_client
                (snd (send (request_of _DEFAULT_BASE_URL geocode_url None)
                           (world 0 [] always_ok (1 # 2))))).
  assert (Hrun : geocode (fun c : string => Return c) (fun b : string => Return b)
                   1 api_client (Some "Sesame St.") None None None None
                   (world 0 [] always_ok (1 # 2))
                 = Some (Return (JArr []), w')) by (vm_compute; reflexivity).
  exists w'.
  destruct (@geocode_outcome string string (fun c => Return c) (fun b => Return b)
              1 api_client (Some "Sesame St.") None None None None
              (world 0 [] always_ok (1 # 2)) (Return (JArr [])) w' Hrun)
    as [(e & Hq & _) | (params & Hq & [(e & _ & Hr) | (items & Hreq & Hr)])].
  - discriminate Hq.
  - discriminate Hr.
  - injection Hq as <-. exists items. split; [exact Hrun|]. split; [exact Hreq|].
    congruence.
Defined.

Lemma reverse_geocode_query_params_witness :
  is_dict [("place_id", VStr "ChIJN1t_tDeuEmsRUsoyG83frY4"); ("language", VStr "en")] /\
  (exists first,
     keys [("place_id", VStr "ChIJN1t_tDeuEmsRUsoyG83frY4"); ("language", VStr "en")]
     = [first; "language"] /\
     first = "place_id" /\
     lookup "place_id"
            [("place_id", VStr "ChIJN1t_tDeuEmsRUsoyG83frY4"); ("language", VStr "en")]
     = Some (VStr "ChIJN1t_tDeuEmsRUsoyG83frY4")).
Proof.
  exact (@reverse_geocode_query_params (list string) (Q * Q)
           (fun sep items => Return (String.concat sep items))
           (fun _ => Raise TypeError)
           (LatLngStr "ChIJN1t_tDeuEmsRUsoyG83frY4") None None (Some "en")
           [("place_id", VStr "ChIJN1t_tDeuEmsRUsoyG83frY4"); ("language", VStr "en")]
           eq_refl).
Defined.
